(** * SaaS KPI seed-data generators: a shallow embedding and its invariants

  The five generator scripts (customers, subscriptions, events, invoices,
  payments) are embedded as Rocq functions.

  Conventions of the embedding
  - A date (and a midnight [pd.Timestamp]) is its proleptic Gregorian
    ordinal, a [Z], as [datetime.date.toordinal] numbers the days.
  - The wall clock is a number of seconds; [pd.Timestamp.today().normalize()]
    keeps its day.  A stage is given the instant its calls of
    [pd.Timestamp.today()] return; module [Clocked] has the runs in which
    each call returns an instant of its own.
  - A Python [float] holding money, a weight or a probability is an exact
    rational [Q]; [round(x, 2)] is rounding half to even at the cent.  A
    payment amount, which can be NaN, is a [float64].
  - [numpy.random.Generator] is a position in an arbitrary stream of raw
    words; every sampling primitive consumes words of that stream.
  - A raised exception is the [Raise] outcome of the [M] monad. *)

From Stdlib Require Import ZArith QArith Qround Qabs String Ascii Bool Lia Arith.
From Stdlib Require Import DecimalString DecimalPos DecimalN List Permutation Lqa.
Import ListNotations.
Local Open Scope Z_scope.

(** ** Calendar arithmetic *)

Module Calendar.

Definition is_leap (y : Z) : bool :=
  ((y mod 4 =? 0) && negb (y mod 100 =? 0)) || (y mod 400 =? 0).

Definition days_in_month (y m : Z) : Z :=
  match m with
  | 2 => if is_leap y then 29 else 28
  | 4 | 6 | 9 | 11 => 30
  | _ => 31
  end.

(** Days in the years before year [y] (year 1 is the first). *)
Definition days_before_year (y : Z) : Z :=
  let p := y - 1 in p * 365 + p / 4 - p / 100 + p / 400.

(** Days of year [y] before the first of month [m]. *)
Definition days_before_month (y m : Z) : Z :=
  let leap := if is_leap y then 1 else 0 in
  match m with
  | 1 => 0
  | 2 => 31
  | 3 => 59 + leap
  | 4 => 90 + leap
  | 5 => 120 + leap
  | 6 => 151 + leap
  | 7 => 181 + leap
  | 8 => 212 + leap
  | 9 => 243 + leap
  | 10 => 273 + leap
  | 11 => 304 + leap
  | _ => 334 + leap
  end.

(** Ordinal of a civil date; 0001-01-01 is day 1. *)
Definition ymd2ord (y m d : Z) : Z :=
  days_before_year y + days_before_month y m + d.

Definition DI400Y : Z := 146097.
Definition DI100Y : Z := 36524.
Definition DI4Y : Z := 1461.

(** Civil date of the day [n] days after the start of a 400-year cycle
    whose first year is 1 (mod 400); the year is relative to the cycle. *)
Definition cycle_ymd (n : Z) : Z * Z * Z :=
  let n100 := n / DI100Y in
  let r100 := n mod DI100Y in
  let n4 := r100 / DI4Y in
  let r4 := r100 mod DI4Y in
  let n1 := r4 / 365 in
  let r1 := r4 mod 365 in
  let year := 1 + n100 * 100 + n4 * 4 + n1 in
  if (n1 =? 4) || (n100 =? 4) then (year - 1, 12, 31)
  else
    let m0 := (r1 + 50) / 32 in
    let preceding := days_before_month year m0 in
    if preceding >? r1
    then (year, m0 - 1, r1 - days_before_month year (m0 - 1) + 1)
    else (year, m0, r1 - preceding + 1).

(** Civil date of an ordinal. *)
Definition ord2ymd (n : Z) : Z * Z * Z :=
  let n400 := (n - 1) / DI400Y in
  let '(y, m, d) := cycle_ymd ((n - 1) mod DI400Y) in
  (n400 * 400 + y, m, d).

Definition year (t : Z) : Z := let '(y, _, _) := ord2ymd t in y.
Definition month (t : Z) : Z := let '(_, m, _) := ord2ymd t in m.
Definition day (t : Z) : Z := let '(_, _, d) := ord2ymd t in d.

(** First day of the month numbered [i] = 12 * year + (month - 1). *)
Definition month_start (i : Z) : Z := ymd2ord (i / 12) (i mod 12 + 1) 1.

Definition month_index (t : Z) : Z := year t * 12 + (month t - 1).

(** [t.replace(day=1)] *)
Definition replace_day1 (t : Z) : Z := month_start (month_index t).

(** [t + pd.DateOffset(months=n)]: the same day of the month [n] months
    later, or the last day of that month when it is shorter. *)
Definition add_months (t n : Z) : Z :=
  let i := month_index t + n in
  month_start i + Z.min (day t) (days_in_month (i / 12) (i mod 12 + 1)) - 1.

(** [pd.Timestamp(...).normalize()] of a clock reading in seconds:
    the day it falls on. *)
Definition normalize (now : Z) : Z := now / 86400.

(** The clock reading at midnight of a date, for examples. *)
Definition midnight (y m d : Z) : Z := ymd2ord y m d * 86400.

(** The number of days of the month numbered [i]. *)
Definition month_length (i : Z) : Z := days_in_month (i / 12) (i mod 12 + 1).

(** The first days of [n] consecutive months, from the month numbered [a]. *)
Fixpoint month_starts (a : Z) (n : nat) : list Z :=
  match n with
  | O => []
  | S k => month_start a :: month_starts (a + 1) k
  end.

(** [cycle_ymd] names a real day of the cycle and [ymd2ord] inverts it:
    the property as a test, to be run over a whole cycle. *)
Definition cycle_check (r : Z) : bool :=
  let '(y, m, d) := cycle_ymd r in
  (1 <=? m) && (m <=? 12) && (1 <=? d) && (d <=? days_in_month y m)
  && (1 <=? y) && (y <=? 400) && (ymd2ord y m d =? r + 1).

Fixpoint all_from (f : Z -> bool) (start : Z) (n : nat) : bool :=
  match n with
  | O => true
  | S k => f start && all_from f (start + 1) k
  end.

End Calendar.

(** ** Money and rounding *)

Module Num.
Local Open Scope Q_scope.

(** Nearest integer, a tie going to the even neighbour. *)
Definition round_half_even (x : Q) : Z :=
  let f := Qfloor x in
  match Qcompare (x - inject_Z f) (1 # 2) with
  | Lt => f
  | Gt => (f + 1)%Z
  | Eq => if Z.even f then f else (f + 1)%Z
  end.

(** [round(x, 2)] *)
Definition round2 (x : Q) : Q := inject_Z (round_half_even (x * 100)) / 100.

(** A value [x] is a whole number of cents. *)
Definition cents (x : Q) : Prop := exists k : Z, x == inject_Z k / 100.

(** [round(100 * x)]: an amount counted in whole cents. *)
Definition to_cents (x : Q) : Z := round_half_even (x * 100).

(** The sum of a list of integers. *)
Definition Zsum (l : list Z) : Z := fold_right Z.add 0%Z l.

(** [max(a, b)] on numbers *)
Definition Qmax (a b : Q) : Q := if Qle_bool a b then b else a.

Definition Qlt_bool (a b : Q) : bool := negb (Qle_bool b a).

(** [sum(xs)]: a left fold from 0 (fractions kept in lowest terms) *)
Definition Qsum (xs : list Q) : Q := fold_left (fun acc x => Qred (acc + x)) xs 0.

(** [np.cumsum(xs)] *)
Fixpoint cumsum_from (acc : Q) (xs : list Q) : list Q :=
  match xs with
  | [] => []
  | x :: r => let acc' := Qred (acc + x) in acc' :: cumsum_from acc' r
  end.
Definition cumsum (xs : list Q) : list Q := cumsum_from 0 xs.

(** A double that is a number, or NaN (what [0.0 / 0.0] leaves). *)
Inductive float64 :=
| Real (q : Q)
| NaN.

(** [round(x, 2)] of a double: NaN stays NaN. *)
Definition round2f (x : float64) : float64 :=
  match x with
  | Real q => Real (round2 q)
  | NaN => NaN
  end.

(** The entries of a column that are numbers: what a sum that skips NaN
    adds up. *)
Fixpoint reals (l : list float64) : list Q :=
  match l with
  | [] => []
  | Real q :: r => q :: reals r
  | NaN :: r => reals r
  end.

(** A float array: all entries finite, or some entry NaN or infinite
    (what dividing by a zero sum leaves). *)
Inductive float_array :=
| Finite (xs : list Q)
| NonFinite (len : nat).

(** [xs / s] elementwise *)
Definition divide_all (xs : list Q) (s : Q) : float_array :=
  if Qeq_bool s 0 then NonFinite (length xs)
  else Finite (map (fun x => Qred (x / s)) xs).

End Num.

(** ** The random generator and the exception monad *)

Module Rng.
Import Num.

Inductive error :=
| ValueError (msg : string)
| KeyError (key : string)
| TypeError (msg : string)
| IndexError (msg : string)
| AssertionError (msg : string).

Inductive result (A : Type) :=
| Ok (a : A)
| Raise (e : error).
Arguments Ok {A} a.
Arguments Raise {A} e.

(** A generator: the stream of raw words its bit generator yields and the
    number of words consumed so far. *)
Record Generator := mkGenerator { stream : nat -> Z; pos : nat }.

(** A bit generator family: the stream for each seed. *)
Definition BitGenerator := Z -> nat -> Z.

(** [np.random.default_rng(seed)] *)
Definition default_rng (bg : BitGenerator) (seed : Z) : Generator :=
  mkGenerator (bg seed) 0.

Definition M (A : Type) : Type := Generator -> result (A * Generator).

Definition ret {A} (a : A) : M A := fun g => Ok (a, g).
Definition raise {A} (e : error) : M A := fun _ => Raise e.
Definition bind {A B} (c : M A) (k : A -> M B) : M B :=
  fun g => match c g with
           | Ok (a, g') => k a g'
           | Raise e => Raise e
           end.

Declare Scope gen_scope.
Delimit Scope gen_scope with gen.
Notation "x <- c ;; k" := (bind c (fun x => k))
  (at level 61, c at next level, right associativity) : gen_scope.
Notation "' pat <- c ;; k" := (bind c (fun x => match x with pat => k end))
  (at level 61, pat pattern, c at next level, right associativity) : gen_scope.
Local Open Scope gen_scope.

(** Lifting a pure outcome (a lookup, an assertion) into [M]. *)
Definition lift {A} (r : result A) : M A :=
  fun g => match r with Ok a => Ok (a, g) | Raise e => Raise e end.

Definition assert (b : bool) (msg : string) : result unit :=
  if b then Ok tt else Raise (AssertionError msg).

Definition next_word : M Z :=
  fun g => Ok (stream g (pos g), mkGenerator (stream g) (S (pos g))).

(** [rng.random()]: a double in [0, 1) with 53 random bits *)
Definition random : M Q :=
  w <- next_word ;; ret (Qmake (w mod 2 ^ 53) (2 ^ 53)).

(** [rng.random(n)] *)
Fixpoint random_n (n : nat) : M (list Q) :=
  match n with
  | O => ret []
  | S k => u <- random ;; us <- random_n k ;; ret (u :: us)
  end.

(** [rng.integers(low, high)]: an integer in [low, high) *)
Definition integers (low high : Z) : M Z :=
  if low <? high
  then w <- next_word ;; ret (low + w mod (high - low))%Z
  else raise (ValueError "low >= high").

(** [rng.uniform(low, high)] *)
Definition uniform (low high : Q) : M Q :=
  u <- random ;; ret (low + (high - low) * u)%Q.

(** [cdf.searchsorted(u, side='right')]: the entries not above [u] *)
Fixpoint searchsorted_right (cdf : list Q) (u : Q) : nat :=
  match cdf with
  | [] => O
  | c :: r => if Qle_bool c u then S (searchsorted_right r u) else O
  end.

(** The checks [Generator.choice] makes on [a] and [p]. *)
Definition check_choice {A} (a : list A) (p : float_array) : result (list Q) :=
  match a with
  | [] => Raise (ValueError "a cannot be empty unless no samples are taken")
  | _ =>
    match p with
    | NonFinite len =>
        if negb (Nat.eqb len (length a))
        then Raise (ValueError "a and p must have same size")
        else Raise (ValueError "probabilities contain NaN")
    | Finite ps =>
        if negb (Nat.eqb (length ps) (length a))
        then Raise (ValueError "a and p must have same size")
        else if existsb (fun x => Qlt_bool x 0) ps
        then Raise (ValueError "probabilities are not non-negative")
        else if Qlt_bool (1 # (2 ^ 26)) (Qabs (Qsum ps - 1))
        then Raise (ValueError "probabilities do not sum to 1")
        else Ok ps
    end
  end.

(** One inverse-cdf draw: [a[cdf.searchsorted(u, side='right')]]. *)
Definition pick {A} (dflt : A) (a : list A) (cdf : list Q) (u : Q) : A :=
  nth (searchsorted_right cdf u) a dflt.

Definition normalized_cdf (ps : list Q) : list Q :=
  let cdf := cumsum ps in
  let total := last cdf 1%Q in
  map (fun c => Qred (c / total)) cdf.

(** A negative [size] is refused when the samples are drawn. *)
Definition size_of (n : Z) : result nat :=
  if n <? 0 then Raise (ValueError "negative dimensions are not allowed")
  else Ok (Z.to_nat n).

(** [rng.choice(a, size=size, p=p)] *)
Definition choice_n {A} (a : list A) (p : float_array) (size : Z) : M (list A) :=
  ps <- lift (check_choice a p) ;;
  match a with
  | [] => raise (ValueError "a cannot be empty unless no samples are taken")
  | a0 :: _ =>
      n <- lift (size_of size) ;;
      us <- random_n n ;;
      ret (map (pick a0 a (normalized_cdf ps)) us)
  end.

(** [rng.choice(a, p=p)] *)
Definition choice {A} (a : list A) (p : float_array) : M A :=
  ps <- lift (check_choice a p) ;;
  match a with
  | [] => raise (ValueError "a cannot be empty unless no samples are taken")
  | a0 :: _ =>
      u <- random ;;
      ret (pick a0 a (normalized_cdf ps) u)
  end.

(** Removing the entry at an index. *)
Fixpoint remove_nth {A} (i : nat) (l : list A) : list A :=
  match l, i with
  | [], _ => []
  | _ :: r, O => r
  | x :: r, S j => x :: remove_nth j r
  end.

(** [rng.choice(a, size=n, replace=False)]: [n] distinct entries of [a],
    drawn one after the other from those left. *)
Fixpoint choice_no_replace {A} (a : list A) (n : nat) : M (list A) :=
  match n with
  | O => ret []
  | S k =>
      match a with
      | [] => raise (ValueError "Cannot take a larger sample than population when replace is False")
      | a0 :: _ =>
          i <- integers 0 (Z.of_nat (length a)) ;;
          rest <- choice_no_replace (remove_nth (Z.to_nat i) a) k ;;
          ret (nth (Z.to_nat i) a a0 :: rest)
      end
  end.

(** Running a body over the rows of a table, in order, extending a list. *)
Fixpoint for_each {A B} (f : A -> M (list B)) (rows : list A) : M (list B) :=
  match rows with
  | [] => ret []
  | r :: rest => out <- f r ;; outs <- for_each f rest ;; ret (out ++ outs)
  end.

End Rng.

(** ** Tables: dictionaries, sorting, identifiers *)

Module Table.
Import Rng.

(** [d[k]] on a dictionary kept in insertion order *)
Fixpoint dict_lookup {V} (k : string) (d : list (string * V)) : result V :=
  match d with
  | [] => Raise (KeyError k)
  | (k', v) :: r => if String.eqb k k' then Ok v else dict_lookup k r
  end.

(** [d.get(k, dflt)] *)
Fixpoint dict_get {V} (k : string) (d : list (string * V)) (dflt : V) : V :=
  match d with
  | [] => dflt
  | (k', v) :: r => if String.eqb k k' then v else dict_get k r dflt
  end.

Fixpoint insert_sorted {A} (leb : A -> A -> bool) (x : A) (l : list A) : list A :=
  match l with
  | [] => [x]
  | y :: r => if leb x y then x :: l else y :: insert_sorted leb x r
  end.

(** [df.sort_values(keys)], [leb] comparing the keys; rows with equal keys
    keep their order. *)
Definition sort_values {A} (leb : A -> A -> bool) (l : list A) : list A :=
  fold_right (insert_sorted leb) [] l.

Definition string_leb (a b : string) : bool :=
  match String.compare a b with Gt => false | _ => true end.

(** Lexicographic order on a string key followed by a second key. *)
Definition key2_leb {B} (leb2 : B -> B -> bool) (a b : string * B) : bool :=
  match String.compare (fst a) (fst b) with
  | Lt => true
  | Gt => false
  | Eq => leb2 (snd a) (snd b)
  end.

Fixpoint mem_string (s : string) (l : list string) : bool :=
  match l with
  | [] => false
  | x :: r => String.eqb s x || mem_string s r
  end.

(** [series.is_unique] *)
Fixpoint is_unique (l : list string) : bool :=
  match l with
  | [] => true
  | x :: r => negb (mem_string x r) && is_unique r
  end.

(** The distinct values of a key column, in first-appearance order. *)
Fixpoint distinct (l : list string) : list string :=
  match l with
  | [] => []
  | x :: r => x :: filter (fun y => negb (String.eqb x y)) (distinct r)
  end.

(** The group keys of [df.groupby(key)]: distinct and sorted. *)
Definition group_keys (l : list string) : list string :=
  sort_values string_leb (distinct l).

(** [str(i)] for an integer *)
Definition str (i : Z) : string := NilZero.string_of_int (Z.to_int i).

Fixpoint zeros (n : nat) : string :=
  match n with O => EmptyString | S k => String "0" (zeros k) end.

(** [s.zfill(width)] for an unsigned numeral *)
Definition zfill (width : nat) (s : string) : string :=
  (zeros (width - String.length s) ++ s)%string.

(** The identifiers [prefix + str(i).zfill(width)] for i = first, first+1, ... *)
Fixpoint make_ids (prefix : string) (width : nat) (first : Z) (n : nat) : list string :=
  match n with
  | O => []
  | S k => (prefix ++ zfill width (str first))%string :: make_ids prefix width (first + 1) k
  end.

(** [pd.date_range(start, end, freq="D")] as [n] consecutive days *)
Fixpoint days_from (start : Z) (n : nat) : list Z :=
  match n with
  | O => []
  | S k => start :: days_from (start + 1) k
  end.

Definition date_range (start stop : Z) : list Z :=
  days_from start (Z.to_nat (stop - start + 1)).

(** Each entry is strictly below the next. *)
Fixpoint strictly_increasing (l : list Z) : Prop :=
  match l with
  | x :: ((y :: _) as r) => x < y /\ strictly_increasing r
  | _ => True
  end.

(** Each entry is below the next for [leb]. *)
Fixpoint locally_sorted {A} (leb : A -> A -> bool) (l : list A) : Prop :=
  match l with
  | x :: ((y :: _) as r) => leb x y = true /\ locally_sorted leb r
  | _ => True
  end.

Fixpoint list_max (x : Z) (l : list Z) : Z :=
  match l with
  | [] => x
  | y :: r => list_max (Z.max x y) r
  end.

End Table.

(** ** Stage 1: customers (01_customers.py) *)

Module Customers.
Import Calendar Num Rng Table.
Local Open Scope gen_scope.

Record CustomersConfig := mkCustomersConfig {
  random_seed : Z;
  num_customers : Z;
  months_back : Z;
  segment_mix : list (string * Q);
  region_mix : list (string * Q);
  channel_mix : list (string * Q);
  cac_ranges_by_channel : list (string * (Q * Q))
}.

(** [CustomersConfig()] *)
Definition default_config : CustomersConfig :=
  mkCustomersConfig 42 100 18
    [("SMB", 0.65); ("Mid", 0.28); ("Enterprise", 0.07)]%string%Q
    [("NA", 0.60); ("EMEA", 0.20); ("APAC", 0.15); ("LATAM", 0.05)]%string%Q
    [("Paid", 0.45); ("Organic", 0.25); ("Partner", 0.20); ("Outbound", 0.10)]%string%Q
    [("Paid", (700, 1200)); ("Partner", (500, 900));
     ("Outbound", (300, 800)); ("Organic", (50, 400))]%string%Q.

Record Customer := mkCustomer {
  customer_id : string;
  signup_date : Z;
  segment : string;
  region : string;
  acquisition_channel : string;
  cac : Q
}.

Definition _choice_with_mix (mix : list (string * Q)) (size : Z) : M (list string) :=
  let labels := map fst mix in
  let probs := map snd mix in
  let probs := divide_all probs (Qsum probs) in
  choice_n labels probs size.

(** [np.linspace(start, stop, num)] *)
Definition linspace (start stop : Q) (num : nat) : list Q :=
  match num with
  | O => []
  | 1%nat => [start]
  | _ =>
      let step := ((stop - start) / inject_Z (Z.of_nat num - 1))%Q in
      map (fun i => Qred (start + inject_Z (Z.of_nat i) * step)%Q) (seq 0 num)
  end.

Definition _generate_signup_dates (now : Z) (n : Z) (months_back : Z) : M (list Z) :=
  let today := normalize now in
  let end_month := replace_day1 today - 1 in
  let start_month := replace_day1 (add_months end_month (- (months_back - 1))) in
  let all_days := date_range start_month end_month in
  let weights := linspace 0.6 1.0 (length all_days) in
  let weights := divide_all weights (Qsum weights) in
  choice_n all_days weights n.

(** The loop drawing one acquisition cost per channel. *)
Fixpoint cac_loop (cfg : CustomersConfig) (channels : list string) : M (list Q) :=
  match channels with
  | [] => ret []
  | ch :: rest =>
      '(low, high) <- lift (dict_lookup ch (cac_ranges_by_channel cfg)) ;;
      v <- uniform low high ;;
      vs <- cac_loop cfg rest ;;
      ret (v :: vs)
  end.

(** The rows of the data frame, column by column. *)
Fixpoint zip_rows (ids : list string) (dates : list Z) (segs regs chans : list string)
         (cacs : list Q) : list Customer :=
  match ids, dates, segs, regs, chans, cacs with
  | i :: ids', d :: dates', s :: segs', r :: regs', c :: chans', v :: cacs' =>
      mkCustomer i d s r c v :: zip_rows ids' dates' segs' regs' chans' cacs'
  | _, _, _, _, _, _ => []
  end.

Definition generate_customers_df (bg : BitGenerator) (now : Z) (cfg : CustomersConfig)
  : result (list Customer) :=
  let body : M (list Customer) :=
    let customer_ids := make_ids "C" 4 1 (Z.to_nat (num_customers cfg)) in
    signup_dates <- _generate_signup_dates now (num_customers cfg) (months_back cfg) ;;
    segments <- _choice_with_mix (segment_mix cfg) (num_customers cfg) ;;
    regions <- _choice_with_mix (region_mix cfg) (num_customers cfg) ;;
    channels <- _choice_with_mix (channel_mix cfg) (num_customers cfg) ;;
    cac_values <- cac_loop cfg channels ;;
    let df := zip_rows customer_ids signup_dates segments regions channels
                       (map round2 cac_values) in
    _ <- lift (assert (Z.of_nat (length df) =? num_customers cfg)
                      "Row count mismatch vs num_customers") ;;
    _ <- lift (assert (is_unique (map customer_id df))
                      "customer_id must be unique (PK)") ;;
    (* no column of [df] can hold a null here: that assertion always passes *)
    match map signup_date df with
    | [] => raise (TypeError "'<=' not supported between 'float' and 'datetime.date'")
    | d :: ds =>
        _ <- lift (assert (list_max d ds <=? normalize now)
                          "signup_date cannot be in the future") ;;
        ret df
    end in
  match body (default_rng bg (random_seed cfg)) with
  | Ok (df, _) => Ok df
  | Raise e => Raise e
  end.

(** [main()]: the table written to the customers sheet. *)
Definition main (bg : BitGenerator) (now : Z) : result (list Customer) :=
  generate_customers_df bg now default_config.

Definition weight_sum (mix : list (string * Q)) : Q := Qsum (map snd mix).

(** A mix the sampling routine accepts: its normalised weights pass the
    checks of [Generator.choice]. *)
Definition accepted (mix : list (string * Q)) : Prop :=
  exists ps, check_choice (map fst mix) (divide_all (map snd mix) (weight_sum mix)) = Ok ps.

(** A mix the sampling routine refuses: its weights sum to zero (NaN
    probabilities), or to a negative number while some weight is positive
    (a negative probability). *)
Definition refused (mix : list (string * Q)) : Prop :=
  (weight_sum mix == 0)%Q \/
  ((weight_sum mix < 0)%Q /\ exists w, In w (map snd mix) /\ (0 < w)%Q).

End Customers.

(** ** Stage 2: subscription periods (02_subscriptions.py) *)

Module Subscriptions.
Import Calendar Num Rng Table.
Local Open Scope gen_scope.

Record SubsConfig := mkSubsConfig {
  random_seed : Z;
  max_periods_per_customer : Z;
  pct_reactivate : Q;
  min_months : Z;
  max_months : Z;
  start_delay_days_min : Z;
  start_delay_days_max : Z;
  reactivation_gap_min : Z;
  reactivation_gap_max : Z;
  plan_prices : list (string * (Q * Q));
  segment_plan_mix : list (string * list (string * Q));
  price_noise_pct : Q
}.

(** [SubsConfig()] *)
Definition default_config : SubsConfig :=
  mkSubsConfig 123 2 0.20 3 18 0 10 15 60
    [("Starter", (20, 20)); ("Pro", (50, 50));
     ("Business", (150, 150)); ("Enterprise", (500, 500))]%string%Q
    [("SMB", [("Starter", 0.55); ("Pro", 0.40); ("Business", 0.05); ("Enterprise", 0.00)]);
     ("Mid", [("Starter", 0.10); ("Pro", 0.55); ("Business", 0.30); ("Enterprise", 0.05)]);
     ("Enterprise", [("Starter", 0.00); ("Pro", 0.15); ("Business", 0.45); ("Enterprise", 0.40)])
    ]%string%Q
    0.00.

Record Period := mkPeriod {
  customer_id : string;
  start_date : Z;
  end_date : option Z;   (* None: NULL, the period is active *)
  plan : string;
  price_mrr : Q;
  status : string
}.

(** A row of the written sheet: the period under its identifier. *)
Record Subscription := mkSubscription {
  subscription_id : string;
  period : Period
}.

Definition _choice_with_mix (mix : list (string * Q)) : M string :=
  let labels := map fst mix in
  let probs := map snd mix in
  let probs := divide_all probs (Qsum probs) in
  choice labels probs.

Definition _sample_price_mrr (plan : string) (cfg : SubsConfig) : M Q :=
  '(low, high) <- lift (dict_lookup plan (plan_prices cfg)) ;;
  base <- uniform low high ;;
  n <- uniform (- price_noise_pct cfg) (price_noise_pct cfg) ;;
  let noise := (base * n)%Q in
  ret (round2 (Qmax 5.0 (base + noise))).

Definition status_of (end_date : option Z) : string :=
  match end_date with None => "active" | Some _ => "canceled" end.

Definition _gen_periods_for_customer (now : Z) (row : Customers.Customer) (cfg : SubsConfig)
  : M (list Period) :=
  let signup_date := Customers.signup_date row in
  let segment := Customers.segment row in
  (* First period *)
  start_delay_days <- integers (start_delay_days_min cfg) (start_delay_days_max cfg + 1) ;;
  let start_1 := signup_date + start_delay_days in
  months_1 <- integers (min_months cfg) (max_months cfg + 1) ;;
  let end_1 := add_months start_1 months_1 - 1 in
  smb <- lift (dict_lookup "SMB" (segment_plan_mix cfg)) ;;
  plan_1 <- _choice_with_mix (dict_get segment (segment_plan_mix cfg) smb) ;;
  price_1 <- _sample_price_mrr plan_1 cfg ;;
  let today := normalize now in
  let active_bias := 0.55%Q in
  u_1 <- random ;;
  let still_active := Qlt_bool u_1 active_bias && (end_1 >? today) in
  let end_date_1 := if still_active then None else Some end_1 in
  let first := mkPeriod (Customers.customer_id row) start_1 end_date_1 plan_1 price_1
                        (status_of end_date_1) in
  (* Optional reactivation period: the draw is made only after a cancellation *)
  wants_second <- (if negb still_active
                   then u <- random ;; ret (Qlt_bool u (pct_reactivate cfg))
                   else ret false) ;;
  if wants_second then
    gap_days <- integers (reactivation_gap_min cfg) (reactivation_gap_max cfg + 1) ;;
    let start_2 := end_1 + gap_days in
    months_2 <- integers (min_months cfg) (max_months cfg + 1) ;;
    let end_2 := add_months start_2 months_2 - 1 in
    smb <- lift (dict_lookup "SMB" (segment_plan_mix cfg)) ;;
    plan_2 <- _choice_with_mix (dict_get segment (segment_plan_mix cfg) smb) ;;
    price_2 <- _sample_price_mrr plan_2 cfg ;;
    u_2 <- random ;;
    let still_active_2 := Qlt_bool u_2 0.65 && (end_2 >? today) in
    let end_date_2 := if still_active_2 then None else Some end_2 in
    ret [first;
         mkPeriod (Customers.customer_id row) start_2 end_date_2 plan_2 price_2
                  (status_of end_date_2)]
  else ret [first].

(** Temporal disjointness of periods listed by start date: every period
    followed by another has ended, strictly before the next one starts. *)
Fixpoint disjoint (ps : list Period) : Prop :=
  match ps with
  | p :: ((q :: _) as r) =>
      (exists e, end_date p = Some e /\ e < start_date q) /\ disjoint r
  | _ => True
  end.

(** The periods of one customer as the event deriver expects them: priced
    in whole cents from zero up, each ending after it starts, disjoint. *)
Definition coherent (cid : string) (ps : list Period) : Prop :=
  Forall (fun p => customer_id p = cid /\ cents (price_mrr p) /\ (0 <= price_mrr p)%Q /\
                   forall e, end_date p = Some e -> start_date p < e) ps
  /\ disjoint ps.

(** The scan of [_validate_no_overlap._check] over one customer's rows
    sorted by start date; [false] is the raised AssertionError. *)
Fixpoint no_overlap_scan (prev_end : option Z) (g : list Period) : bool :=
  match g with
  | [] => true
  | r :: rest =>
      let s := start_date r in
      let e := end_date r in
      match prev_end with
      | Some pe => if s <=? pe then false
                   else no_overlap_scan (match e with Some _ => e | None => prev_end end) rest
      | None => no_overlap_scan (match e with Some _ => e | None => prev_end end) rest
      end
  end.

Definition start_leb (a b : Period) : bool := start_date a <=? start_date b.

Definition _check (group : list Period) : bool :=
  no_overlap_scan None (sort_values start_leb group).

Definition rows_of (cid : string) (df : list Period) : list Period :=
  filter (fun p => String.eqb (customer_id p) cid) df.

Definition _validate_no_overlap (df : list Period) : result unit :=
  assert (forallb (fun cid => _check (rows_of cid df)) (group_keys (map customer_id df)))
         "Overlapping periods for customer".

Definition customer_start_leb (a b : Period) : bool :=
  key2_leb Z.leb (customer_id a, start_date a) (customer_id b, start_date b).

Definition with_ids (subs : list Period) : list Subscription :=
  map (fun ip => mkSubscription (fst ip) (snd ip))
      (combine (make_ids "S" 6 1 (length subs)) subs).

(** [main()] given the customers sheet: the table written to the
    subscriptions sheet. *)
Definition main (bg : BitGenerator) (now : Z) (customers : list Customers.Customer)
  : result (list Subscription) :=
  let cfg := default_config in
  match customers with
  | [] => Raise (ValueError "Customers sheet is empty; cannot create subscriptions.")
  | _ =>
    let body : M (list Subscription) :=
      all_periods <- for_each (fun row => _gen_periods_for_customer now row cfg) customers ;;
      let subs := sort_values customer_start_leb all_periods in
      let table := with_ids subs in
      _ <- lift (assert (is_unique (map subscription_id table))
                        "subscription_id must be unique (PK)") ;;
      let valid_customers := map Customers.customer_id customers in
      _ <- lift (assert (forallb (fun p => mem_string (customer_id p) valid_customers) subs)
                        "FK failure: unknown customer_id") ;;
      _ <- lift (assert (forallb (fun p =>
                   forallb (fun c => negb (String.eqb (Customers.customer_id c) (customer_id p))
                                     || (Customers.signup_date c <=? start_date p))
                           customers) subs)
                        "start_date must be >= signup_date") ;;
      _ <- lift (assert (forallb (fun p => match end_date p with
                                           | Some e => start_date p <? e
                                           | None => true
                                           end) subs)
                        "end_date must be > start_date when present") ;;
      _ <- lift (_validate_no_overlap subs) ;;
      ret table in
    match body (default_rng bg (random_seed cfg)) with
    | Ok (t, _) => Ok t
    | Raise e => Raise e
    end
  end.

End Subscriptions.

(** ** Stage 3: lifecycle events (data_generator/03_events.py) *)

Module Events.
Import Calendar Num Rng Table.
Import Subscriptions.

Record Event := mkEvent {
  e_customer_id : string;
  event_date : Z;
  event_type : string;
  plan_from : option string;
  plan_to : option string;
  delta_mrr : Q
}.

Record EventRow := mkEventRow {
  event_id : string;
  event : Event
}.

(** [_append_event]: the list with the new row at its end. *)
Definition _append_event (events : list Event) (cid : string) (dt : Z) (etype : string)
           (plan_from plan_to : option string) (delta : Q) : list Event :=
  events ++ [mkEvent cid dt etype plan_from plan_to (round2 delta)].

(** The body of the loop over the periods after the first. *)
Definition subsequent_step (out : list Event) (prev cur : Period) : list Event :=
  let prev_end := end_date prev in
  let cur_start := start_date cur in
  let gap := match prev_end with
             | Some pe => cur_start >? pe
             | None => false
             end in
  let out :=
    if gap
    then _append_event out (customer_id cur) cur_start "reactivation"
                       None (Some (plan cur)) (price_mrr cur)
    else
      let delta := (price_mrr cur - price_mrr prev)%Q in
      if Qlt_bool 0 delta
      then _append_event out (customer_id cur) cur_start "upgrade"
                         (Some (plan prev)) (Some (plan cur)) delta
      else if Qlt_bool delta 0
      then _append_event out (customer_id cur) cur_start "downgrade"
                         (Some (plan prev)) (Some (plan cur)) delta
      else out in
  match end_date cur with
  | Some e => _append_event out (customer_id cur) e "churn" (Some (plan cur)) None
                            (- price_mrr cur)
  | None => out
  end.

(** [for i in range(1, len(s))] with [prev = s.iloc[i-1]], [cur = s.iloc[i]] *)
Fixpoint subsequent_loop (out : list Event) (prev : Period) (rest : list Period)
  : list Event :=
  match rest with
  | [] => out
  | cur :: rest' => subsequent_loop (subsequent_step out prev cur) cur rest'
  end.

Definition _build_events_for_customer (subs_cust : list Period) : list Event :=
  let s := sort_values start_leb subs_cust in
  match s with
  | [] => []
  | first :: rest =>
      let out := _append_event [] (customer_id first) (start_date first) "new"
                               None (Some (plan first)) (price_mrr first) in
      let out := match end_date first with
                 | Some e => _append_event out (customer_id first) e "churn"
                                           (Some (plan first)) None (- price_mrr first)
                 | None => out
                 end in
      subsequent_loop out first rest
  end.

Definition customer_date_leb (a b : Event) : bool :=
  key2_leb Z.leb (e_customer_id a, event_date a) (e_customer_id b, event_date b).

Definition events_of (cid : string) (events : list Event) : list Event :=
  filter (fun e => String.eqb (e_customer_id e) cid) events.

(** [series.is_monotonic_increasing] *)
Fixpoint is_monotonic_increasing (l : list Z) : bool :=
  match l with
  | x :: ((y :: _) as r) => (x <=? y) && is_monotonic_increasing r
  | _ => true
  end.

Definition _check_monotonic (g : list Event) : bool :=
  is_monotonic_increasing (map event_date g).

(** [_rolling_ok]: start at 0, apply the deltas, never below -1e-6 *)
Fixpoint rolling_from (mrr : Q) (g : list Event) : bool :=
  match g with
  | [] => true
  | r :: rest =>
      let mrr := (mrr + delta_mrr r)%Q in
      if Qlt_bool mrr (- (1 # 1000000)) then false else rolling_from mrr rest
  end.

Definition _rolling_ok (g : list Event) : bool := rolling_from 0 g.

(** The running sum, started at [acc], stays at or above [floor] after
    every entry. *)
Fixpoint never_below (floor acc : Q) (deltas : list Q) : Prop :=
  match deltas with
  | [] => True
  | x :: r => (floor <= acc + x)%Q /\ never_below floor (acc + x)%Q r
  end.

(** The date of the last event a period gives rise to, and the MRR it
    leaves the customer with. *)
Definition last_date (p : Period) : Z :=
  match end_date p with Some e => e | None => start_date p end.

Definition mrr_after (p : Period) : Q :=
  match end_date p with Some _ => 0 | None => price_mrr p end.

(** What holds of the events emitted so far for customer [cid]: strictly
    increasing dates ending at [d], a running MRR that is never negative
    and ends at [t]. *)
Definition stream_ok (cid : string) (out : list Event) (d : Z) (t : Q) : Prop :=
  Forall (fun e => e_customer_id e = cid) out /\
  strictly_increasing (map event_date out) /\
  last (map event_date out) d = d /\
  never_below 0 0 (map delta_mrr out) /\
  (Qsum (map delta_mrr out) == t)%Q.

(** [cur] takes over from [prev]: after [prev] has ended or, while it is
    still open, from a later start. *)
Definition follows_on (prev cur : Period) : Prop :=
  match end_date prev with
  | Some e => e < start_date cur
  | None => start_date prev < start_date cur
  end.

Fixpoint chained (ps : list Period) : Prop :=
  match ps with
  | p :: ((q :: _) as r) => follows_on p q /\ chained r
  | _ => True
  end.

(** The number of events of a type, and whether a period has an end. *)
Definition count_type (etype : string) (events : list Event) : nat :=
  length (filter (fun e => String.eqb (event_type e) etype) events).

Definition has_ended (p : Period) : bool :=
  match end_date p with Some _ => true | None => false end.

(** The plan fields and the sign of the delta that go with each type. *)
Definition well_typed (e : Event) : Prop :=
  ((event_type e = "new"%string \/ event_type e = "reactivation"%string) /\
   plan_from e = None /\ plan_to e <> None /\ (0 < delta_mrr e)%Q) \/
  (event_type e = "upgrade"%string /\
   plan_from e <> None /\ plan_to e <> None /\ (0 < delta_mrr e)%Q) \/
  (event_type e = "downgrade"%string /\
   plan_from e <> None /\ plan_to e <> None /\ (delta_mrr e < 0)%Q) \/
  (event_type e = "churn"%string /\
   plan_from e <> None /\ plan_to e = None /\ (delta_mrr e < 0)%Q).

Definition with_ids (events : list Event) : list EventRow :=
  map (fun ie => mkEventRow (fst ie) (snd ie))
      (combine (make_ids "E" 6 1 (length events)) events).

(** [main()] given the customers and subscriptions sheets: the table
    written to the events sheet. *)
Definition main (customers : list Customers.Customer) (subs : list Subscription)
  : result (list EventRow) :=
  match customers, subs with
  | [], _ | _, [] => Raise (ValueError "Required sheets missing or empty.")
  | _, _ =>
    let valid_customers := map Customers.customer_id customers in
    let periods := map period subs in
    let all_events :=
      flat_map (fun cid => _build_events_for_customer (rows_of cid periods))
               (group_keys (map customer_id periods)) in
    let events := sort_values customer_date_leb all_events in
    let table := with_ids events in
    let keys := group_keys (map e_customer_id events) in
    match assert (is_unique (map event_id table)) "event_id must be unique (PK)" with
    | Raise e => Raise e
    | Ok _ =>
    match assert (forallb (fun e => mem_string (e_customer_id e) valid_customers) events)
                 "FK failure: customer_id unknown" with
    | Raise e => Raise e
    | Ok _ =>
    match assert (forallb (fun cid => _check_monotonic (events_of cid events)) keys)
                 "Events not in chronological order for customer" with
    | Raise e => Raise e
    | Ok _ =>
    match assert (forallb (fun cid => _rolling_ok (events_of cid events)) keys)
                 "Rolling MRR went negative" with
    | Raise e => Raise e
    | Ok _ => Ok table
    end end end end
  end.

End Events.

(** ** Stage 4: invoices (04_invoices.py) *)

Module Invoices.
Import Calendar Num Rng Table.
Import Subscriptions.
Local Open Scope gen_scope.

Record InvoicesConfig := mkInvoicesConfig {
  random_seed : Z;
  pct_annual_prepay : Q;
  refund_rate : Q;
  refund_pct_of_invoice : Q * Q
}.

(** [InvoicesConfig()] *)
Definition default_config : InvoicesConfig :=
  mkInvoicesConfig 456 0.08 0.03 (0.05, 0.20)%Q.

Record Invoice := mkInvoice {
  customer_id : string;
  invoice_date : Z;
  amount : Q;
  is_refund : bool;
  period_start : Z;
  period_end : Z
}.

Record InvoiceRow := mkInvoiceRow {
  invoice_id : string;
  invoice : Invoice
}.

(** The [while cur <= end_m] loop of [_month_range]; each turn moves
    [cur] a month on, so [fuel] turns suffice when it counts the days
    from [cur] to [end_m]. *)
Fixpoint month_range_loop (fuel : nat) (cur end_m : Z) : list Z :=
  match fuel with
  | O => []
  | S k => if cur <=? end_m
           then cur :: month_range_loop k (add_months cur 1) end_m
           else []
  end.

Definition _month_range (start stop : Z) : list Z :=
  let start_m := replace_day1 start in
  let end_m := replace_day1 stop in
  month_range_loop (Z.to_nat (end_m - start_m + 1)) start_m end_m.

Definition _coverage_window_for_month (month_start : Z) : Z * Z :=
  let month_end := add_months month_start 1 - 1 in
  (month_start, month_end).

Definition _bounded (a lo hi : Z) : Z := Z.max lo (Z.min a hi).

(** The last day of the month before the one [now] falls in. *)
Definition end_of_prev_month (now : Z) : Z := replace_day1 (normalize now) - 1.

(** An invoice issued, and covering, no later than [cutoff]. *)
Definition billed_by (cutoff : Z) (i : Invoice) : Prop :=
  invoice_date i <= cutoff /\ period_end i <= cutoff.

(** Coverage windows that follow one another without gap or overlap. *)
Fixpoint contiguous (rows : list Invoice) : Prop :=
  match rows with
  | a :: ((b :: _) as r) => period_end a + 1 = period_start b /\ contiguous r
  | _ => True
  end.

(** The body of the monthly loop over [_month_range(start, end)]. *)
Fixpoint monthly_rows (cid : string) (price : Q) (start stop : Z) (months : list Z)
  : list Invoice :=
  match months with
  | [] => []
  | m0 :: rest =>
      let '(cov_start, cov_end) := _coverage_window_for_month m0 in
      let period_start := _bounded cov_start start stop in
      let period_end := _bounded cov_end start stop in
      if period_end <? period_start then monthly_rows cid price start stop rest
      else mkInvoice cid period_start (round2 price) false period_start period_end
           :: monthly_rows cid price start stop rest
  end.

(** The body of the loop over the subscription rows: the invoices of one
    period. *)
Definition period_rows (cfg : InvoicesConfig) (now : Z) (r : Period) : M (list Invoice) :=
  let cid := Subscriptions.customer_id r in
  let start := start_date r in
  let raw_end := match end_date r with
                 | Some e => e
                 | None => end_of_prev_month now
                 end in
  let stop := Z.min raw_end (end_of_prev_month now) in
  if stop <? start then ret []
  else
    let price := price_mrr r in
    u <- random ;;
    let is_annual := Qlt_bool u (pct_annual_prepay cfg) in
    if is_annual then
      let covered_end := Z.min (add_months start 12 - 1) stop in
      let period_start := start in
      let period_end := covered_end in
      let months_covered :=
        Z.max 1 ((year period_end - year period_start) * 12
                 + (month period_end - month period_start) + 1) in
      let amount := round2 (price * inject_Z months_covered) in
      ret [mkInvoice cid period_start amount false period_start period_end]
    else
      ret (monthly_rows cid price start stop (_month_range start stop)).

(** The loop building one credit memo per chosen index. *)
Fixpoint refund_rows (invoices : list Invoice) (refund_indices : list nat)
  : M (list Invoice) :=
  match refund_indices with
  | [] => ret []
  | idx :: rest =>
      match nth_error invoices idx with
      | None => raise (KeyError "index")
      | Some base =>
          let base_amount := amount base in
          pct <- uniform (fst (refund_pct_of_invoice default_config))
                         (snd (refund_pct_of_invoice default_config)) ;;
          let credit := round2 (- base_amount * pct) in
          more <- refund_rows invoices rest ;;
          ret (mkInvoice (customer_id base) (invoice_date base) credit true
                         (period_start base) (period_end base) :: more)
      end
  end.

Definition invoice_leb (a b : Invoice) : bool :=
  key2_leb (fun x y : Z * Q =>
              match fst x ?= fst y with
              | Lt => true
              | Gt => false
              | Eq => Qle_bool (snd x) (snd y)
              end)
           (customer_id a, (invoice_date a, amount a))
           (customer_id b, (invoice_date b, amount b)).

Definition with_ids (invoices : list Invoice) : list InvoiceRow :=
  map (fun ii => mkInvoiceRow (fst ii) (snd ii))
      (combine (make_ids "I" 6 1 (length invoices)) invoices).

(** The rows of [main()] before sorting: the standard invoices of every
    period, then the credit memos. *)
Definition generate (cfg : InvoicesConfig) (now : Z) (subs : list Period)
  : M (list Invoice) :=
  invoices <- for_each (period_rows cfg now) subs ;;
  let n_refunds :=
    Qfloor (inject_Z (Z.of_nat (length invoices)) * refund_rate default_config) in
  if (0 <? n_refunds) && negb (Nat.eqb (length invoices) 0) then
    refund_indices <- choice_no_replace (seq 0 (length invoices)) (Z.to_nat n_refunds) ;;
    refunds <- refund_rows invoices refund_indices ;;
    ret (invoices ++ refunds)
  else ret invoices.

(** [main()] given the customers and subscriptions sheets: the table
    written to the invoices sheet. *)
Definition main (bg : BitGenerator) (now : Z) (customers : list Customers.Customer)
           (subs : list Subscription) : result (list InvoiceRow) :=
  let cfg := default_config in
  match customers, subs with
  | [], _ | _, [] => Raise (ValueError "Required sheets missing or empty.")
  | _, _ =>
    let body : M (list InvoiceRow) :=
      invoices <- generate cfg now (map period subs) ;;
      match invoices with
      | [] => raise (KeyError "customer_id")   (* sorting a frame without columns *)
      | _ =>
        let invoices := sort_values invoice_leb invoices in
        let table := with_ids invoices in
        _ <- lift (assert (is_unique (map invoice_id table))
                          "invoice_id must be unique (PK)") ;;
        let valid_customers := map Customers.customer_id customers in
        _ <- lift (assert (forallb (fun i => mem_string (customer_id i) valid_customers)
                                   invoices)
                          "FK failure: customer_id unknown") ;;
        _ <- lift (assert (forallb (fun i => negb (Qeq_bool (amount i) 0)) invoices)
                          "Invoices cannot have zero amount") ;;
        ret table
      end in
    match body (default_rng bg (random_seed cfg)) with
    | Ok (t, _) => Ok t
    | Raise e => Raise e
    end
  end.

End Invoices.

(** ** Stage 5: payments (05_payments.py) *)

Module Payments.
Import Calendar Num Rng Table.
Import Invoices.
Local Open Scope gen_scope.

Record PaymentsConfig := mkPaymentsConfig {
  random_seed : Z;
  pct_fully_paid : Q;
  pct_partial_paid : Q;
  pct_unpaid : Q;
  partial_parts_probs : list (nat * Q);
  lag_min_days : Z;
  lag_max_days : Z;
  method_probs : list (string * Q);
  pct_cash_refund_for_credit_memos : Q
}.

(** [PaymentsConfig()] *)
Definition default_config : PaymentsConfig :=
  mkPaymentsConfig 789 0.85 0.00 0.15 [(2%nat, 0.75); (3%nat, 0.25)]%Q 30 30
    [("ACH", 0.55); ("Card", 0.20); ("Wire", 0.15); ("Check", 0.10)]%string%Q
    0.00.

Record Payment := mkPayment {
  invoice_id : string;
  payment_date : Z;
  amount : float64;   (* NaN after a partial payment whose weights are all 0.0 *)
  payment_method : string
}.

Record PaymentRow := mkPaymentRow {
  payment_id : string;
  payment : Payment
}.

Definition _choice_with_mix {L} (mix : list (L * Q)) : M L :=
  let labels := map fst mix in
  let probs := map snd mix in
  let probs := divide_all probs (Qsum probs) in
  choice labels probs.

(** [parts[-1] = v] *)
Fixpoint set_last (parts : list Q) (v : Q) : list Q :=
  match parts with
  | [] => []
  | [_] => [v]
  | x :: r => x :: set_last r v
  end.

(** The partial branch: a random split of [amt], the rounding drift put
    on the last part.  The weights are draws of [rng.random], none
    negative: their sum is zero only when every weight is 0.0; each
    quotient [0.0 / 0.0] is then NaN, and so are the parts, the drift and
    the last part. No exception is raised. *)
Definition split_parts (amt : Q) (weights : list Q) : result (list float64) :=
  match weights with
  | [] => Raise (IndexError "list index out of range")
  | _ =>
    match divide_all weights (Qsum weights) with
    | NonFinite len => Ok (repeat NaN len)
    | Finite ws =>
        let parts := map (fun w => round2 (amt * w)) ws in
        let drift := round2 (amt - Qsum parts) in
        Ok (map Real (set_last parts (round2 (last parts 0%Q + drift)%Q)))
    end
  end.

(** The loop emitting one payment per part. *)
Fixpoint payment_rows (now : Z) (inv : InvoiceRow) (cfg : PaymentsConfig)
         (parts : list float64) : M (list Payment) :=
  match parts with
  | [] => ret []
  | p_amt :: rest =>
      lag_days <- integers (lag_min_days cfg) (lag_max_days cfg + 1) ;;
      let pay_date := invoice_date (invoice inv) + lag_days in
      let pay_date := Z.min pay_date (normalize now) in
      method <- _choice_with_mix (method_probs cfg) ;;
      more <- payment_rows now inv cfg rest ;;
      ret (mkPayment (Invoices.invoice_id inv) pay_date (round2f p_amt) method :: more)
  end.

Definition _emit_payments_for_positive_invoice (now : Z) (inv : InvoiceRow)
           (cfg : PaymentsConfig) : M (list Payment) :=
  let amt := Invoices.amount (invoice inv) in
  r <- random ;;
  parts <-
    (if Qlt_bool r (pct_fully_paid cfg) then ret [Real amt]
     else if Qlt_bool r (pct_fully_paid cfg + pct_partial_paid cfg) then
       parts_n <- _choice_with_mix (partial_parts_probs cfg) ;;
       weights <- random_n parts_n ;;
       lift (split_parts amt weights)
     else ret []) ;;
  payment_rows now inv cfg parts.

Definition _emit_payments_for_negative_invoice (now : Z) (inv : InvoiceRow)
           (cfg : PaymentsConfig) : M (list Payment) :=
  let amt := Invoices.amount (invoice inv) in
  r <- random ;;
  if Qlt_bool r (pct_cash_refund_for_credit_memos cfg) then
    lag_days <- integers (lag_min_days cfg) (lag_max_days cfg + 1) ;;
    let pay_date := invoice_date (invoice inv) + lag_days in
    let pay_date := Z.min pay_date (normalize now) in
    method <- _choice_with_mix (method_probs cfg) ;;
    ret [mkPayment (Invoices.invoice_id inv) pay_date (Real (round2 amt)) method]
  else ret [].

Definition payment_leb (a b : Payment) : bool :=
  key2_leb Z.leb (invoice_id a, payment_date a) (invoice_id b, payment_date b).

Definition with_ids (payments : list Payment) : list PaymentRow :=
  map (fun ip => mkPaymentRow (fst ip) (snd ip))
      (combine (make_ids "P" 6 1 (length payments)) payments).

Definition payments_of (iid : string) (payments : list Payment) : list Payment :=
  filter (fun p => String.eqb (invoice_id p) iid) payments.

(** The amount paid against an invoice: the sum of its payment rows, as
    the grouped [sum] computes it, NaN amounts skipped. *)
Definition paid_sum (iid : string) (payments : list Payment) : Q :=
  Qsum (reals (map amount (payments_of iid payments))).


(** The reconciliation check: no positive invoice with payments is paid
    more than its amount plus a cent. *)
Definition no_overpays (invoices : list InvoiceRow) (payments : list Payment) : bool :=
  forallb (fun inv =>
             let inv_amt := Invoices.amount (invoice inv) in
             negb (mem_string (Invoices.invoice_id inv) (map invoice_id payments))
             || negb (Qlt_bool 0 inv_amt
                      && Qlt_bool (inv_amt + 0.01) (paid_sum (Invoices.invoice_id inv) payments)))
          invoices.

(** The rows of [main()] before sorting. *)
Definition generate (cfg : PaymentsConfig) (now : Z) (invoices : list InvoiceRow)
  : M (list Payment) :=
  let pos_inv := filter (fun i => Qlt_bool 0 (Invoices.amount (invoice i))) invoices in
  let neg_inv := filter (fun i => Qlt_bool (Invoices.amount (invoice i)) 0) invoices in
  pos_rows <- for_each (fun inv => _emit_payments_for_positive_invoice now inv cfg) pos_inv ;;
  neg_rows <- for_each (fun inv => _emit_payments_for_negative_invoice now inv cfg) neg_inv ;;
  ret (pos_rows ++ neg_rows).

(** [main()] given the invoices sheet: the table written to the payments
    sheet. *)
Definition main (bg : BitGenerator) (now : Z) (invoices : list InvoiceRow)
  : result (list PaymentRow) :=
  let cfg := default_config in
  match invoices with
  | [] => Raise (ValueError "Invoices sheet is empty; cannot create payments.")
  | _ =>
    let body : M (list PaymentRow) :=
      payment_rows <- generate cfg now invoices ;;
      match payment_rows with
      | [] => raise (KeyError "invoice_id")   (* sorting a frame without columns *)
      | p0 :: _ =>
        let payments := sort_values payment_leb payment_rows in
        let table := with_ids payments in
        _ <- lift (assert (is_unique (map payment_id table))
                          "payment_id must be unique (PK)") ;;
        let valid_invoices := map Invoices.invoice_id invoices in
        _ <- lift (assert (forallb (fun p => mem_string (invoice_id p) valid_invoices)
                                   payments)
                          "FK failure: unknown invoice_id") ;;
        _ <- lift (assert (list_max (payment_date p0) (map payment_date payments)
                           <=? normalize now)
                          "payment_date cannot be in the future") ;;
        _ <- lift (assert (no_overpays invoices payments)
                          "Some positive invoices are overpaid; check generation logic.") ;;
        ret table
      end in
    match body (default_rng bg (random_seed cfg)) with
    | Ok (t, _) => Ok t
    | Raise e => Raise e
    end
  end.

End Payments.

(** ** The stages with the clock read call by call *)

(** The scripts call [pd.Timestamp.today()] again each time they need the
  date: once for the signup window and once for the last check of stage
  1, once for each customer in stage 2, once in stage 4, once for each
  payment and once for the last check of stage 5.  Here a run is given
  what each call returns; the stages above are the runs in which every
  call returns the same instant. *)

Module Clocked.
Import Calendar Num Rng Table.

(** What the calls of [pd.Timestamp.today()] return during one run, in
    the order of the calls. *)
Definition Clock := nat -> Z.

(** A computation that draws and reads the clock: from the clock and the
    number of readings made so far, the outcome and the number of
    readings made after it. *)
Definition T (A : Type) : Type := Clock -> nat -> M (A * nat).

Definition retT {A} (a : A) : T A := fun _ n => ret (a, n).

Definition bindT {A B} (c : T A) (k : A -> T B) : T B :=
  fun clock n => bind (c clock n) (fun an => k (fst an) clock (snd an)).

(** A computation that does not read the clock. *)
Definition draw {A} (c : M A) : T A := fun _ n => bind c (fun a => ret (a, n)).

(** [pd.Timestamp.today()] *)
Definition today : T Z := fun clock n => ret (clock n, S n).

Declare Scope clock_scope.
Delimit Scope clock_scope with clock.
Notation "x <- c ;; k" := (bindT c (fun x => k))
  (at level 61, c at next level, right associativity) : clock_scope.
Local Open Scope clock_scope.

Fixpoint for_each {A B} (f : A -> T (list B)) (rows : list A) : T (list B) :=
  match rows with
  | [] => retT []
  | r :: rest => out <- f r ;; outs <- for_each f rest ;; retT (out ++ outs)
  end.

(** A run of a stage: no reading made yet. *)
Definition run {A} (body : T A) (clock : Clock) (g : Generator) : result A :=
  match body clock O g with
  | Ok (a, _, _) => Ok a
  | Raise e => Raise e
  end.

(** The outcome of a computation, the count of readings left out. *)
Definition outcome {A} (r : result (A * nat * Generator)) : result (A * Generator) :=
  match r with
  | Ok (a, _, g) => Ok (a, g)
  | Raise e => Raise e
  end.

(** Under [clock], whatever the readings made before, [t] comes to what
    [m] comes to. *)
Definition follows {A} (clock : Clock) (t : T A) (m : M A) : Prop :=
  forall n g, outcome (t clock n g) = m g.

(** Stage 1: the clock is read in [_generate_signup_dates] and again for
    the last assertion. *)
Definition generate_customers_df (bg : BitGenerator) (clock : Clock)
           (cfg : Customers.CustomersConfig) : result (list Customers.Customer) :=
  let n := Customers.num_customers cfg in
  let body : T (list Customers.Customer) :=
    let customer_ids := make_ids "C" 4 1 (Z.to_nat n) in
    now <- today ;;
    signup_dates <- draw (Customers._generate_signup_dates now n
                                                           (Customers.months_back cfg)) ;;
    segments <- draw (Customers._choice_with_mix (Customers.segment_mix cfg) n) ;;
    regions <- draw (Customers._choice_with_mix (Customers.region_mix cfg) n) ;;
    channels <- draw (Customers._choice_with_mix (Customers.channel_mix cfg) n) ;;
    cac_values <- draw (Customers.cac_loop cfg channels) ;;
    let df := Customers.zip_rows customer_ids signup_dates segments regions channels
                                 (map round2 cac_values) in
    _ <- draw (lift (assert (Z.of_nat (length df) =? n)
                            "Row count mismatch vs num_customers")) ;;
    _ <- draw (lift (assert (is_unique (map Customers.customer_id df))
                            "customer_id must be unique (PK)")) ;;
    now <- today ;;
    match map Customers.signup_date df with
    | [] => draw (raise (TypeError "'<=' not supported between 'float' and 'datetime.date'"))
    | d :: ds =>
        _ <- draw (lift (assert (list_max d ds <=? normalize now)
                                "signup_date cannot be in the future")) ;;
        retT df
    end in
  run body clock (default_rng bg (Customers.random_seed cfg)).

(** Stage 2: each call of [_gen_periods_for_customer] reads the clock
    once; the draws do not depend on where among them it is read. *)
Definition _gen_periods_for_customer (row : Customers.Customer)
           (cfg : Subscriptions.SubsConfig) : T (list Subscriptions.Period) :=
  now <- today ;;
  draw (Subscriptions._gen_periods_for_customer now row cfg).

Definition subscriptions_main (bg : BitGenerator) (clock : Clock)
           (customers : list Customers.Customer) : result (list Subscriptions.Subscription) :=
  let cfg := Subscriptions.default_config in
  match customers with
  | [] => Raise (ValueError "Customers sheet is empty; cannot create subscriptions.")
  | _ =>
    let body : T (list Subscriptions.Subscription) :=
      all_periods <- for_each (fun row => _gen_periods_for_customer row cfg) customers ;;
      let subs := sort_values Subscriptions.customer_start_leb all_periods in
      let table := Subscriptions.with_ids subs in
      _ <- draw (lift (assert (is_unique (map Subscriptions.subscription_id table))
                              "subscription_id must be unique (PK)")) ;;
      let valid_customers := map Customers.customer_id customers in
      _ <- draw (lift (assert (forallb (fun p => mem_string (Subscriptions.customer_id p)
                                                            valid_customers) subs)
                              "FK failure: unknown customer_id")) ;;
      _ <- draw (lift (assert (forallb (fun p =>
                   forallb (fun c => negb (String.eqb (Customers.customer_id c)
                                                      (Subscriptions.customer_id p))
                                     || (Customers.signup_date c
                                         <=? Subscriptions.start_date p))
                           customers) subs)
                              "start_date must be >= signup_date")) ;;
      _ <- draw (lift (assert (forallb (fun p => match Subscriptions.end_date p with
                                                 | Some e => Subscriptions.start_date p <? e
                                                 | None => true
                                                 end) subs)
                              "end_date must be > start_date when present")) ;;
      _ <- draw (lift (Subscriptions._validate_no_overlap subs)) ;;
      retT table in
    run body clock (default_rng bg (Subscriptions.random_seed cfg))
  end.

(** Stage 4 reads the clock once, before its loop. *)
Definition invoices_main (bg : BitGenerator) (clock : Clock)
           (customers : list Customers.Customer) (subs : list Subscriptions.Subscription)
  : result (list Invoices.InvoiceRow) :=
  Invoices.main bg (clock O) customers subs.

(** Stage 5: the clock is read for each payment row, and again for the
    check on the latest payment date. *)
Fixpoint payment_rows (inv : Invoices.InvoiceRow) (cfg : Payments.PaymentsConfig)
         (parts : list float64) : T (list Payments.Payment) :=
  match parts with
  | [] => retT []
  | p_amt :: rest =>
      lag_days <- draw (integers (Payments.lag_min_days cfg)
                                 (Payments.lag_max_days cfg + 1)) ;;
      now <- today ;;
      let pay_date := Invoices.invoice_date (Invoices.invoice inv) + lag_days in
      let pay_date := Z.min pay_date (normalize now) in
      method <- draw (Payments._choice_with_mix (Payments.method_probs cfg)) ;;
      more <- payment_rows inv cfg rest ;;
      retT (Payments.mkPayment (Invoices.invoice_id inv) pay_date (round2f p_amt) method
            :: more)
  end.

Definition _emit_payments_for_positive_invoice (inv : Invoices.InvoiceRow)
           (cfg : Payments.PaymentsConfig) : T (list Payments.Payment) :=
  let amt := Invoices.amount (Invoices.invoice inv) in
  r <- draw random ;;
  parts <-
    draw (if Qlt_bool r (Payments.pct_fully_paid cfg) then ret [Real amt]
          else if Qlt_bool r (Payments.pct_fully_paid cfg + Payments.pct_partial_paid cfg)
          then bind (Payments._choice_with_mix (Payments.partial_parts_probs cfg))
                    (fun parts_n =>
                       bind (random_n parts_n)
                            (fun weights => lift (Payments.split_parts amt weights)))
          else ret []) ;;
  payment_rows inv cfg parts.

Definition _emit_payments_for_negative_invoice (inv : Invoices.InvoiceRow)
           (cfg : Payments.PaymentsConfig) : T (list Payments.Payment) :=
  let amt := Invoices.amount (Invoices.invoice inv) in
  r <- draw random ;;
  if Qlt_bool r (Payments.pct_cash_refund_for_credit_memos cfg) then
    lag_days <- draw (integers (Payments.lag_min_days cfg)
                               (Payments.lag_max_days cfg + 1)) ;;
    now <- today ;;
    let pay_date := Invoices.invoice_date (Invoices.invoice inv) + lag_days in
    let pay_date := Z.min pay_date (normalize now) in
    method <- draw (Payments._choice_with_mix (Payments.method_probs cfg)) ;;
    retT [Payments.mkPayment (Invoices.invoice_id inv) pay_date (Real (round2 amt)) method]
  else retT [].

Definition payments_generate (cfg : Payments.PaymentsConfig)
           (invoices : list Invoices.InvoiceRow) : T (list Payments.Payment) :=
  let pos_inv := filter (fun i => Qlt_bool 0 (Invoices.amount (Invoices.invoice i)))
                        invoices in
  let neg_inv := filter (fun i => Qlt_bool (Invoices.amount (Invoices.invoice i)) 0)
                        invoices in
  pos_rows <- for_each (fun inv => _emit_payments_for_positive_invoice inv cfg) pos_inv ;;
  neg_rows <- for_each (fun inv => _emit_payments_for_negative_invoice inv cfg) neg_inv ;;
  retT (pos_rows ++ neg_rows).

Definition payments_main (bg : BitGenerator) (clock : Clock)
           (invoices : list Invoices.InvoiceRow) : result (list Payments.PaymentRow) :=
  let cfg := Payments.default_config in
  match invoices with
  | [] => Raise (ValueError "Invoices sheet is empty; cannot create payments.")
  | _ =>
    let body : T (list Payments.PaymentRow) :=
      payment_rows <- payments_generate cfg invoices ;;
      match payment_rows with
      | [] => draw (raise (KeyError "invoice_id"))   (* sorting a frame without columns *)
      | p0 :: _ =>
        let payments := sort_values Payments.payment_leb payment_rows in
        let table := Payments.with_ids payments in
        _ <- draw (lift (assert (is_unique (map Payments.payment_id table))
                                "payment_id must be unique (PK)")) ;;
        let valid_invoices := map Invoices.invoice_id invoices in
        _ <- draw (lift (assert (forallb (fun p => mem_string (Payments.invoice_id p)
                                                              valid_invoices) payments)
                                "FK failure: unknown invoice_id")) ;;
        now <- today ;;
        _ <- draw (lift (assert (list_max (Payments.payment_date p0)
                                          (map Payments.payment_date payments)
                                 <=? normalize now)
                                "payment_date cannot be in the future")) ;;
        _ <- draw (lift (assert (Payments.no_overpays invoices payments)
                                "Some positive invoices are overpaid; check generation logic.")) ;;
        retT table
      end in
    run body clock (default_rng bg (Payments.random_seed cfg))
  end.

End Clocked.

(** ** The loader's naming helpers (supabase/excel_to_supabase.py) *)

Module Supabase.
Import Table.
Local Open Scope string_scope.

Section Slugify.

(** [slugify(s, separator="_", lowercase=True)] of the python-slugify
    package, which the script imports: any function on strings. *)
Variable slugify : string -> string.

Definition reserved : list string :=
  ["user"; "order"; "select"; "table"; "group"; "where"].

(** [re.match(r"^[a-z]", s)] *)
Definition starts_lower (s : string) : bool :=
  match s with
  | EmptyString => false
  | String c _ => let n := nat_of_ascii c in (97 <=? n)%nat && (n <=? 122)%nat
  end.

Definition sanitize_table_name (name : string) : string :=
  let s := slugify name in
  let s := if negb (starts_lower s)
           then match s with EmptyString => "t_sheet" | _ => "t_" ++ s end
           else s in
  if mem_string s reserved then s ++ "_t" else s.

(** The [while col in seen] loop: [col] when it is free, else the names
    [base_2], [base_3], ... in turn; [None] when [fuel] turns do not
    reach a free name. *)
Fixpoint free_name (fuel : nat) (seen : list string) (base : string) (suffix : Z)
         (col : string) : option string :=
  match fuel with
  | O => None
  | S k =>
      if mem_string col seen
      then let suffix := (suffix + 1)%Z in
           free_name k seen base suffix (base ++ "_" ++ str suffix)
      else Some col
  end.

(** The loop over [enumerate(df.columns)]; [seen] holds the names given
    so far. *)
Fixpoint columns_loop (fuel : nat) (i : Z) (columns seen new_cols : list string)
  : option (list string) :=
  match columns with
  | [] => Some new_cols
  | c :: rest =>
      let base := match slugify c with
                  | EmptyString => "col_" ++ str (i + 1)
                  | s => s
                  end in
      match free_name fuel seen base 1 base with
      | None => None
      | Some col => columns_loop fuel (i + 1)%Z rest (col :: seen) (new_cols ++ [col])
      end
  end.

(** The column names [snake_case_columns] gives a frame. *)
Definition snake_case_columns (fuel : nat) (columns : list string)
  : option (list string) :=
  columns_loop fuel 0 columns [] [].

End Slugify.

(** The name tried at turn [k] of the [while] loop for [base]. *)
Definition candidate (base : string) (k : nat) : string :=
  match k with
  | O => base
  | S _ => base ++ "_" ++ str (Z.of_nat k + 1)
  end.

End Supabase.

(** ** Sample inputs *)

Module Samples.
Import Calendar Rng.

(** A generator replaying a given list of raw words, then zeros. *)
Definition replay (ws : list Z) : Generator := mkGenerator (fun k => nth k ws 0) 0.

(** The largest 53-bit word: the double just below 1. *)
Definition top : Z := 2 ^ 53 - 1.

(** A bit generator of the linear congruential kind. *)
Definition lcg : BitGenerator :=
  fun seed k =>
    (((seed + Z.of_nat k + 1) * 6364136223846793005 + 1442695040888963407) mod 2 ^ 64) / 2048.

(** The bit generator whose words are all zero, whatever the seed. *)
Definition all_zero : BitGenerator := fun _ _ => 0.

Definition now_2024_06_05 : Z := midnight 2024 6 5 + 3600 * 9.

Definition c0001 : Customers.Customer :=
  Customers.mkCustomer "C0001" (ymd2ord 2024 1 10) "SMB" "NA" "Paid" 900.

(** Delay 3 days, 3 months, the first plan, no noise, a cancellation, a
    reactivation after 15 + 5 days for 3 + 2 months, the draw for "still
    active" low. *)
Definition churn_and_return : Generator :=
  replay [3; 0; 0; 0; 0; top; 0; 5; 2; 0; 0; 0; 0].

(** An invoice of 20.00 issued on 2024-05-25. *)
Definition i000001 : Invoices.InvoiceRow :=
  Invoices.mkInvoiceRow "I000001"
    (Invoices.mkInvoice "C0001" (ymd2ord 2024 5 25) 20.00 false
                        (ymd2ord 2024 5 25) (ymd2ord 2024 5 31)).




(** A draw of 0.0: the invoice is paid in full at once. *)
Definition pays_at_once : Generator := replay [0; 0; 0].

(** [CustomersConfig()] with the segment weights negated, and with the
    segment weights summing to zero. *)
Definition negated_segments : Customers.CustomersConfig :=
  Customers.mkCustomersConfig 42 100 18
    [("SMB", - 0.65); ("Mid", - 0.28); ("Enterprise", - 0.07)]%string%Q
    (Customers.region_mix Customers.default_config)
    (Customers.channel_mix Customers.default_config)
    (Customers.cac_ranges_by_channel Customers.default_config).

Definition zero_segments : Customers.CustomersConfig :=
  Customers.mkCustomersConfig 42 100 18
    [("SMB", 0.5); ("Mid", - 0.5)]%string%Q
    (Customers.region_mix Customers.default_config)
    (Customers.channel_mix Customers.default_config)
    (Customers.cac_ranges_by_channel Customers.default_config).

(** The outcome of a run, or the empty list when it raised. *)
Definition rows_of_run {A} (r : result (list A * Generator)) : list A :=
  match r with Ok (rows, _) => rows | Raise _ => [] end.

Definition table_of {A} (r : result (list A)) : list A :=
  match r with Ok rows => rows | Raise _ => [] end.

(** The two periods of customer C0001 under [churn_and_return]. *)
Definition c0001_periods : list Subscriptions.Period :=
  rows_of_run (Subscriptions._gen_periods_for_customer now_2024_06_05 c0001
                 Subscriptions.default_config churn_and_return).

(** A period at 50.00 a month from 2024-02-01 to 2024-04-30, and an
    active one at 20.00 from 2023-01-15. *)
Definition feb_to_apr : Subscriptions.Period :=
  Subscriptions.mkPeriod "C0001" (ymd2ord 2024 2 1) (Some (ymd2ord 2024 4 30))
                         "Pro" 50.00 "canceled".

(** Two more periods of C0001 that have ended: one that starts while
    [feb_to_apr] runs, one that starts after it. *)
Definition mar_to_may : Subscriptions.Period :=
  Subscriptions.mkPeriod "C0001" (ymd2ord 2024 3 15) (Some (ymd2ord 2024 5 31))
                         "Starter" 20.00 "canceled".

Definition jun_to_aug : Subscriptions.Period :=
  Subscriptions.mkPeriod "C0001" (ymd2ord 2024 6 10) (Some (ymd2ord 2024 8 31))
                         "Starter" 20.00 "canceled".

(** Ended periods listed latest first that do not overlap, and two that do. *)
Definition ended_apart : list Subscriptions.Period := [jun_to_aug; feb_to_apr].

Definition ended_overlapping : list Subscriptions.Period := [feb_to_apr; mar_to_may].

Definition since_mid_january : Subscriptions.Period :=
  Subscriptions.mkPeriod "C0002" (ymd2ord 2023 1 15) None "Starter" 20.00 "active".

(** [SubsConfig()] with the plan mix of the Mid segment only, and a
    customer of that segment. *)
Definition mid_only : Subscriptions.SubsConfig :=
  Subscriptions.mkSubsConfig 123 2 0.20 3 18 0 10 15 60
    (Subscriptions.plan_prices Subscriptions.default_config)
    [("Mid", [("Starter", 0.10); ("Pro", 0.55); ("Business", 0.30);
              ("Enterprise", 0.05)])]%string%Q
    0.00.

Definition c0002 : Customers.Customer :=
  Customers.mkCustomer "C0002" (ymd2ord 2024 1 20) "Mid" "EMEA" "Organic" 120.

(** Two open-ended periods of one customer that run side by side. *)
Definition two_active : list Subscriptions.Period :=
  [Subscriptions.mkPeriod "C0001" (ymd2ord 2024 1 10) None "Pro" 50.00 "active";
   Subscriptions.mkPeriod "C0001" (ymd2ord 2024 2 1) None "Starter" 20.00 "active"].

(** An open Starter period handed over to an open Pro period, then to a
    Starter period that ends. *)
Definition up_then_down : list Subscriptions.Period :=
  [Subscriptions.mkPeriod "C0001" (ymd2ord 2024 1 10) None "Starter" 20.00 "active";
   Subscriptions.mkPeriod "C0001" (ymd2ord 2024 3 1) None "Pro" 50.00 "active";
   Subscriptions.mkPeriod "C0001" (ymd2ord 2024 5 1) (Some (ymd2ord 2024 5 31))
                          "Starter" 20.00 "canceled"].

(** A subscriptions sheet of two customers, the row of C0002 first: C0001
    left at the end of March and came back in April. *)
Definition two_customer_sheet : list Subscriptions.Subscription :=
  [Subscriptions.mkSubscription "S000001"
     (Subscriptions.mkPeriod "C0002" (ymd2ord 2024 2 1) None "Pro" 50.00 "active");
   Subscriptions.mkSubscription "S000002"
     (Subscriptions.mkPeriod "C0001" (ymd2ord 2024 1 10) (Some (ymd2ord 2024 3 31))
                             "Starter" 20.00 "canceled");
   Subscriptions.mkSubscription "S000003"
     (Subscriptions.mkPeriod "C0001" (ymd2ord 2024 4 15) None "Pro" 50.00 "active")].

(** A clock that reads 09:00 on 2024-06-05 first and a second more at
    each later reading, up to 10:00. *)
Definition ticking : Clocked.Clock :=
  fun k => now_2024_06_05 + Z.min (Z.of_nat k) 3600.

(** [CustomersConfig()] for three customers who signed up last month. *)
Definition three_customers : Customers.CustomersConfig :=
  Customers.mkCustomersConfig 42 3 1
    (Customers.segment_mix Customers.default_config)
    (Customers.region_mix Customers.default_config)
    (Customers.channel_mix Customers.default_config)
    (Customers.cac_ranges_by_channel Customers.default_config).

(** An active period that starts in the month of [now_2024_06_05]. *)
Definition since_june_3 : Subscriptions.Period :=
  Subscriptions.mkPeriod "C0001" (ymd2ord 2024 6 3) None "Starter" 20.00 "active".

(** A draw just below 1 (monthly invoices), then a draw of 0.0 (one
    annual invoice). *)
Definition monthly_then_annual : Generator := replay [top; 0].

Definition succeeded {A} (r : result A) : bool :=
  match r with Ok _ => true | Raise _ => false end.

Definition error_of {A} (r : result A) : option error :=
  match r with Ok _ => None | Raise e => Some e end.

(** The number of raw words a run has consumed when it returns. *)
Definition words_used {A} (r : result (A * Generator)) : option nat :=
  match r with Ok (_, g) => Some (pos g) | Raise _ => None end.

End Samples.

(** * Properties *)

(** ** The calendar *)

Module CalendarFacts.
Import Calendar.

Lemma all_from_spec (f : Z -> bool) (n : nat) :
  forall start, all_from f start n = true ->
  forall z, start <= z < start + Z.of_nat n -> f z = true.
Proof.
  induction n as [|k IH]; intros start H z Hz.
  - simpl in Hz. lia.
  - simpl in H. apply andb_true_iff in H as [H0 H1].
    destruct (Z.eq_dec z start) as [->|Hne]; [exact H0|].
    apply (IH (start + 1) H1). lia.
Qed.

Lemma cycle_check_all : all_from cycle_check 0 (Z.to_nat DI400Y) = true.
Proof. vm_compute. reflexivity. Qed.

Lemma cycle_ymd_spec (r : Z) :
  0 <= r < DI400Y ->
  let '(y, m, d) := cycle_ymd r in
  1 <= m <= 12 /\ 1 <= d <= days_in_month y m /\ ymd2ord y m d = r + 1.
Proof.
  intros Hr.
  assert (H : cycle_check r = true).
  { apply (all_from_spec _ _ 0 cycle_check_all). unfold DI400Y in *. lia. }
  unfold cycle_check in H. destruct (cycle_ymd r) as [[y m] d].
  repeat (apply andb_true_iff in H as [H ?]).
  repeat match goal with
         | h : (_ <=? _) = true |- _ => apply Z.leb_le in h
         | h : (_ =? _) = true |- _ => apply Z.eqb_eq in h
         end.
  lia.
Qed.

Lemma is_leap_shift (q y : Z) : is_leap (q * 400 + y) = is_leap y.
Proof.
  unfold is_leap.
  replace ((q * 400 + y) mod 4) with (y mod 4)
    by (replace (q * 400 + y) with (y + (q * 100) * 4) by lia;
        now rewrite Z.mod_add by lia).
  replace ((q * 400 + y) mod 100) with (y mod 100)
    by (replace (q * 400 + y) with (y + (q * 4) * 100) by lia;
        now rewrite Z.mod_add by lia).
  replace ((q * 400 + y) mod 400) with (y mod 400)
    by (replace (q * 400 + y) with (y + q * 400) by lia;
        now rewrite Z.mod_add by lia).
  reflexivity.
Qed.

Lemma days_in_month_shift (q y m : Z) :
  days_in_month (q * 400 + y) m = days_in_month y m.
Proof. unfold days_in_month. now rewrite is_leap_shift. Qed.

Lemma days_before_month_shift (q y m : Z) :
  days_before_month (q * 400 + y) m = days_before_month y m.
Proof. unfold days_before_month. now rewrite is_leap_shift. Qed.

Lemma days_before_year_shift (q y : Z) :
  days_before_year (q * 400 + y) = q * DI400Y + days_before_year y.
Proof.
  unfold days_before_year, DI400Y. cbv zeta.
  replace (q * 400 + y - 1) with (y - 1 + q * 400) by lia.
  replace ((y - 1 + q * 400) / 4) with ((y - 1) / 4 + q * 100)
    by (replace (y - 1 + q * 400) with (y - 1 + (q * 100) * 4) by lia;
        now rewrite Z.div_add by lia).
  replace ((y - 1 + q * 400) / 100) with ((y - 1) / 100 + q * 4)
    by (replace (y - 1 + q * 400) with (y - 1 + (q * 4) * 100) by lia;
        now rewrite Z.div_add by lia).
  rewrite Z.div_add by lia. lia.
Qed.

Lemma ymd2ord_shift (q y m d : Z) :
  ymd2ord (q * 400 + y) m d = q * DI400Y + ymd2ord y m d.
Proof.
  unfold ymd2ord. rewrite days_before_year_shift, days_before_month_shift. lia.
Qed.

(** [ord2ymd] names a real day, and [ymd2ord] inverts it. *)
Lemma ord2ymd_spec (n : Z) :
  let '(y, m, d) := ord2ymd n in
  1 <= m <= 12 /\ 1 <= d <= days_in_month y m /\ ymd2ord y m d = n.
Proof.
  unfold ord2ymd.
  assert (Hr : 0 <= (n - 1) mod DI400Y < DI400Y)
    by (apply Z.mod_pos_bound; unfold DI400Y; lia).
  pose proof (cycle_ymd_spec _ Hr) as H.
  destruct (cycle_ymd ((n - 1) mod DI400Y)) as [[y m] d].
  destruct H as (Hm & Hd & Ho).
  rewrite days_in_month_shift, ymd2ord_shift, Ho.
  repeat split; try lia.
  pose proof (Z.div_mod (n - 1) DI400Y) as E.
  unfold DI400Y in *. lia.
Qed.

Lemma days_in_month_ge (y m : Z) : 28 <= days_in_month y m.
Proof.
  unfold days_in_month.
  destruct m as [|p|p]; try lia;
    repeat (destruct p as [p|p|]; try lia); destruct (is_leap y); lia.
Qed.

Lemma days_before_year_succ (y : Z) :
  days_before_year (y + 1) = days_before_year y + 365 + (if is_leap y then 1 else 0).
Proof.
  unfold days_before_year, is_leap. cbv zeta.
  replace (y + 1 - 1) with y by lia.
  destruct (Z.eqb_spec (y mod 4) 0), (Z.eqb_spec (y mod 100) 0),
    (Z.eqb_spec (y mod 400) 0); simpl;
    Z.div_mod_to_equations; lia.
Qed.

Lemma days_before_month_succ (y m : Z) :
  1 <= m <= 11 ->
  days_before_month y (m + 1) = days_before_month y m + days_in_month y m.
Proof.
  intros Hm.
  assert (C : m = 1 \/ m = 2 \/ m = 3 \/ m = 4 \/ m = 5 \/ m = 6 \/ m = 7 \/
              m = 8 \/ m = 9 \/ m = 10 \/ m = 11) by lia.
  unfold days_before_month, days_in_month.
  repeat (destruct C as [->|C]); try subst m; simpl; destruct (is_leap y); lia.
Qed.

Lemma month_start_step (i : Z) :
  month_start (i + 1) = month_start i + days_in_month (i / 12) (i mod 12 + 1).
Proof.
  unfold month_start, ymd2ord.
  pose proof (Z.mod_pos_bound i 12 ltac:(lia)) as Hb.
  destruct (Z.eq_dec (i mod 12) 11) as [E|E].
  - assert (E1 : (i + 1) / 12 = i / 12 + 1) by (Z.div_mod_to_equations; lia).
    assert (E2 : (i + 1) mod 12 = 0) by (Z.div_mod_to_equations; lia).
    rewrite E1, E2, E, days_before_year_succ.
    unfold days_before_month, days_in_month. simpl.
    destruct (is_leap (i / 12)); lia.
  - assert (E1 : (i + 1) / 12 = i / 12) by (Z.div_mod_to_equations; lia).
    assert (E2 : (i + 1) mod 12 = i mod 12 + 1) by (Z.div_mod_to_equations; lia).
    rewrite E1, E2, days_before_month_succ by lia. lia.
Qed.

(** A later month starts at least 28 days later. *)
Lemma month_start_mono (i : Z) (k : nat) :
  month_start i + 28 * Z.of_nat k <= month_start (i + Z.of_nat k).
Proof.
  induction k as [|k IH].
  - simpl. replace (i + 0) with i by lia. lia.
  - replace (i + Z.of_nat (S k)) with (i + Z.of_nat k + 1) by lia.
    rewrite month_start_step.
    pose proof (days_in_month_ge ((i + Z.of_nat k) / 12) ((i + Z.of_nat k) mod 12 + 1)).
    lia.
Qed.

(** A date is the day [day t] of the month [month_index t]. *)
Lemma date_decompose (t : Z) :
  t = month_start (month_index t) + day t - 1 /\
  1 <= day t <= days_in_month (month_index t / 12) (month_index t mod 12 + 1).
Proof.
  unfold month_index, day, year, month, month_start.
  pose proof (ord2ymd_spec t) as H.
  destruct (ord2ymd t) as [[y m] d]. destruct H as (Hm & Hd & Ho).
  assert (E1 : (y * 12 + (m - 1)) / 12 = y) by (Z.div_mod_to_equations; lia).
  assert (E2 : (y * 12 + (m - 1)) mod 12 + 1 = m) by (Z.div_mod_to_equations; lia).
  rewrite E1, E2. unfold ymd2ord in *. lia.
Qed.

(** Adding at least a month moves a date at least 28 days on. *)
Lemma add_months_ge (t n : Z) : 1 <= n -> t + 28 <= add_months t n.
Proof.
  intros Hn. unfold add_months. cbv zeta.
  destruct (date_decompose t) as [Ht Hd].
  set (i := month_index t) in *.
  pose proof (month_start_mono (i + 1) (Z.to_nat (n - 1))) as Hmono.
  rewrite Z2Nat.id in Hmono by lia.
  replace (i + 1 + (n - 1)) with (i + n) in Hmono by lia.
  rewrite month_start_step in Hmono.
  pose proof (days_in_month_ge ((i + n) / 12) ((i + n) mod 12 + 1)) as Hge.
  pose proof (days_in_month_ge (i / 12) (i mod 12 + 1)) as Hge0.
  lia.
Qed.

Lemma add_months_0 (t : Z) : add_months t 0 = t.
Proof.
  unfold add_months. cbv zeta.
  destruct (date_decompose t) as [Ht Hd].
  replace (month_index t + 0) with (month_index t) by lia. lia.
Qed.

Lemma replace_day1_le (t : Z) : replace_day1 t <= t.
Proof. unfold replace_day1. destruct (date_decompose t). lia. Qed.

End CalendarFacts.

(** ** Rounding and sums *)

Module NumFacts.
Import Num.
Local Open Scope Q_scope.

Lemma round_half_even_near (x : Q) :
  x - (1 # 2) <= inject_Z (round_half_even x) <= x + (1 # 2).
Proof.
  unfold round_half_even. cbv zeta.
  pose proof (Qfloor_le x) as Hlo. pose proof (Qlt_floor x) as Hhi.
  rewrite inject_Z_plus in Hhi. change (inject_Z 1) with 1 in Hhi.
  destruct (Qcompare_spec (x - inject_Z (Qfloor x)) (1 # 2)) as [E|L|G].
  - destruct (Z.even (Qfloor x)); [|rewrite inject_Z_plus; change (inject_Z 1) with 1]; lra.
  - lra.
  - rewrite inject_Z_plus. change (inject_Z 1) with 1. lra.
Qed.

(** An integer rounds to itself. *)
Lemma round_half_even_int (x : Q) (k : Z) : x == inject_Z k -> round_half_even x = k.
Proof.
  intros E. unfold round_half_even. cbv zeta.
  assert (F : Qfloor x = k) by (rewrite (Qfloor_comp _ _ E); apply Qfloor_Z).
  rewrite F.
  destruct (Qcompare_spec (x - inject_Z k) (1 # 2)) as [H|H|H]; try reflexivity; lra.
Qed.

Lemma round_half_even_ge (x : Q) (k : Z) : inject_Z k <= x -> (k <= round_half_even x)%Z.
Proof.
  intros H. unfold round_half_even. cbv zeta.
  assert (F : (k <= Qfloor x)%Z).
  { rewrite <- (Qfloor_Z k). now apply Qfloor_resp_le. }
  destruct (Qcompare (x - inject_Z (Qfloor x)) (1 # 2)); try lia;
    destruct (Z.even (Qfloor x)); lia.
Qed.

Lemma round2_cents (x : Q) : cents (round2 x).
Proof. exists (round_half_even (x * 100)). reflexivity. Qed.

(** [round(x, 2)] leaves a whole number of cents as it is. *)
Lemma round2_id (x : Q) : cents x -> round2 x == x.
Proof.
  intros [k E]. unfold round2.
  rewrite (round_half_even_int (x * 100) k); [now rewrite E|].
  rewrite E. field.
Qed.

Lemma cents_opp (x : Q) : cents x -> cents (- x).
Proof.
  intros [k E]. exists (- k)%Z. rewrite E, inject_Z_opp. field.
Qed.

Lemma cents_minus (x y : Q) : cents x -> cents y -> cents (x - y).
Proof.
  intros [k E] [j F]. exists (k + - j)%Z. rewrite E, F, inject_Z_plus, inject_Z_opp. field.
Qed.

(** [round(x, 2)] is within half a cent of [x]. *)
Lemma round2_near (x : Q) : x - (1 # 200) <= round2 x <= x + (1 # 200).
Proof.
  unfold round2. pose proof (round_half_even_near (x * 100)) as H.
  set (r := inject_Z (round_half_even (x * 100))) in *.
  assert (E : r / 100 == r * (1 # 100)) by field.
  rewrite E. lra.
Qed.

Lemma round2_ge5 (x : Q) : 5 <= x -> 5 <= round2 x.
Proof.
  intros H. unfold round2.
  assert (K : (500 <= round_half_even (x * 100))%Z).
  { apply round_half_even_ge. change (inject_Z 500) with 500. lra. }
  assert (K' : inject_Z 500 <= inject_Z (round_half_even (x * 100)))
    by (now rewrite <- Zle_Qle).
  change (inject_Z 500) with 500 in K'.
  set (r := inject_Z (round_half_even (x * 100))) in *.
  assert (E : r / 100 == r * (1 # 100)) by field.
  rewrite E. lra.
Qed.

Lemma Qmax_ge_l (a b : Q) : a <= Qmax a b.
Proof.
  unfold Qmax. destruct (Qle_bool a b) eqn:E.
  - now apply Qle_bool_iff.
  - apply Qle_refl.
Qed.

Lemma Qlt_bool_iff (a b : Q) : Qlt_bool a b = true <-> a < b.
Proof.
  unfold Qlt_bool. rewrite negb_true_iff. split; intros H.
  - apply Qnot_le_lt. intros C. apply Qle_bool_iff in C. congruence.
  - destruct (Qle_bool b a) eqn:E; [|reflexivity].
    apply Qle_bool_iff in E. lra.
Qed.

Lemma Qlt_bool_false (a b : Q) : Qlt_bool a b = false <-> b <= a.
Proof.
  unfold Qlt_bool. rewrite negb_false_iff. apply Qle_bool_iff.
Qed.

Lemma Qsum_from (xs : list Q) (a : Q) :
  fold_left (fun acc x => Qred (acc + x)) xs a == a + Qsum xs.
Proof.
  unfold Qsum. revert a. induction xs as [|x xs IH]; intros a; cbn [fold_left].
  - lra.
  - rewrite (IH (Qred (a + x))), (IH (Qred (0 + x))), !Qred_correct. lra.
Qed.

Lemma Qsum_cons (x : Q) (xs : list Q) : Qsum (x :: xs) == x + Qsum xs.
Proof.
  unfold Qsum at 1. cbn [fold_left]. rewrite Qsum_from, Qred_correct. lra.
Qed.

Lemma Qsum_app (xs ys : list Q) : Qsum (xs ++ ys) == Qsum xs + Qsum ys.
Proof.
  induction xs as [|x xs IH]; cbn [app].
  - unfold Qsum at 2. cbn [fold_left]. lra.
  - rewrite !Qsum_cons, IH. lra.
Qed.

(** *** Amounts counted in whole cents *)

Lemma to_cents_of (x : Q) (k : Z) : x == inject_Z k / 100 -> to_cents x = k.
Proof.
  intros E. unfold to_cents. apply round_half_even_int. rewrite E. field.
Qed.

Lemma cents_to_cents (x : Q) : cents x -> x == inject_Z (to_cents x) / 100.
Proof. intros [k E]. rewrite (to_cents_of x k E). exact E. Qed.

(** A list of amounts in whole cents sums to the sum of its cents. *)
Lemma Qsum_in_cents (l : list Q) :
  Forall cents l -> Qsum l == inject_Z (Zsum (map to_cents l)) / 100.
Proof.
  induction 1 as [|x r Hx _ IH].
  - unfold Qsum. cbn [fold_left map Zsum fold_right]. reflexivity.
  - cbn [map]. unfold Zsum in *. cbn [fold_right].
    rewrite Qsum_cons, IH, inject_Z_plus. rewrite (cents_to_cents x Hx) at 1. field.
Qed.

Lemma Qsum_cents_nonneg (l : list Q) :
  Forall cents l -> 0 <= Qsum l -> (0 <= Zsum (map to_cents l))%Z.
Proof.
  intros H S. rewrite (Qsum_in_cents l H) in S.
  rewrite Zle_Qle. change (inject_Z 0) with 0.
  set (z := inject_Z (Zsum (map to_cents l))) in *.
  assert (E : z == z / 100 * 100) by field. rewrite E.
  apply Qmult_le_0_compat; [exact S|discriminate].
Qed.

Lemma Qsum_cents_total (l : list Q) (t : Q) :
  Forall cents l -> Qsum l == t -> Zsum (map to_cents l) = to_cents t.
Proof.
  intros H S. symmetry. apply to_cents_of. rewrite <- S. apply Qsum_in_cents, H.
Qed.

End NumFacts.

(** ** The sampling primitives *)

Module RngFacts.
Import Num Rng NumFacts.
Local Open Scope gen_scope.

Lemma bind_inv {A B} (c : M A) (k : A -> M B) (g : Generator) (r : B * Generator) :
  bind c k g = Ok r -> exists a g1, c g = Ok (a, g1) /\ k a g1 = Ok r.
Proof.
  unfold bind. destruct (c g) as [[a g1]|e]; [|discriminate].
  intros H. now exists a, g1.
Qed.

Lemma ret_inv {A} (a b : A) (g g' : Generator) : ret a g = Ok (b, g') -> b = a /\ g' = g.
Proof. unfold ret. intros H. inversion H. auto. Qed.

Lemma lift_inv {A} (r : result A) (a : A) (g g' : Generator) :
  lift r g = Ok (a, g') -> r = Ok a /\ g' = g.
Proof. unfold lift. destruct r; intros H; inversion H. auto. Qed.

Lemma unit_interval (w : Z) : (0 <= Qmake (w mod 2 ^ 53) (2 ^ 53) < 1)%Q.
Proof.
  pose proof (Z.mod_pos_bound w (2 ^ 53) ltac:(lia)) as H.
  unfold Qle, Qlt. simpl Qnum. simpl Qden. lia.
Qed.

(** [rng.random()] never fails and lies in [0, 1). *)
Lemma random_inv (g g' : Generator) (u : Q) :
  random g = Ok (u, g') -> (0 <= u < 1)%Q.
Proof.
  unfold random, bind, next_word, ret. intros H. inversion H. apply unit_interval.
Qed.

Lemma random_total (g : Generator) : exists u g', random g = Ok (u, g').
Proof. unfold random, bind, next_word, ret. eauto. Qed.

(** [rng.integers(low, high)] lies in [low, high). *)
Lemma integers_inv (low high v : Z) (g g' : Generator) :
  integers low high g = Ok (v, g') -> low <= v < high.
Proof.
  unfold integers. destruct (Z.ltb_spec low high) as [L|L]; [|discriminate].
  unfold bind, next_word, ret. intros H. inversion H.
  pose proof (Z.mod_pos_bound (stream g (pos g)) (high - low) ltac:(lia)). lia.
Qed.

Lemma integers_total (low high : Z) (g : Generator) :
  low < high -> exists v g', integers low high g = Ok (v, g').
Proof.
  intros L. unfold integers. destruct (Z.ltb_spec low high); [|lia].
  unfold bind, next_word, ret. eauto.
Qed.

(** [rng.uniform(low, high)] lies in [low, high] when low <= high. *)
Lemma uniform_inv (low high v : Q) (g g' : Generator) :
  uniform low high g = Ok (v, g') -> (low <= high)%Q -> (low <= v <= high)%Q.
Proof.
  unfold uniform. intros H L.
  apply bind_inv in H as (u & g1 & Hu & H). apply ret_inv in H as [-> _].
  apply random_inv in Hu. nra.
Qed.

Lemma uniform_total (low high : Q) (g : Generator) :
  exists v g', uniform low high g = Ok (v, g').
Proof. unfold uniform, random, bind, next_word, ret. eauto. Qed.

(** The rows a loop emits come from one of its turns. *)
Lemma for_each_inv {A B} (f : A -> M (list B)) (rows : list A) :
  forall g out g', for_each f rows g = Ok (out, g') ->
  forall b, In b out -> exists r g1 out1 g2, In r rows /\ f r g1 = Ok (out1, g2) /\ In b out1.
Proof.
  induction rows as [|r rest IH]; intros g out g' H b Hb; cbn [for_each] in H.
  - apply ret_inv in H as [-> _]. destruct Hb.
  - apply bind_inv in H as (o1 & g1 & H1 & H).
    apply bind_inv in H as (o2 & g2 & H2 & H).
    apply ret_inv in H as [-> _].
    apply in_app_or in Hb as [Hb|Hb].
    + exists r, g, o1, g1. simpl. auto.
    + destruct (IH _ _ _ H2 b Hb) as (r' & ga & oa & gb & Hin & Hf & Hb').
      exists r', ga, oa, gb. simpl. auto.
Qed.

Lemma random_n_inv (n : nat) :
  forall g us g', random_n n g = Ok (us, g') ->
                  length us = n /\ Forall (fun u => (0 <= u < 1)%Q) us.
Proof.
  induction n as [|k IH]; intros g us g' H; cbn [random_n] in H.
  - apply ret_inv in H as [-> _]. split; [reflexivity|constructor].
  - apply bind_inv in H as (u & g1 & Hu & H).
    apply bind_inv in H as (us' & g2 & Hus & H).
    apply ret_inv in H as [-> _]. destruct (IH _ _ _ Hus) as [L F].
    split; [cbn [length]; now rewrite L|].
    constructor; [exact (random_inv _ _ _ Hu)|exact F].
Qed.

End RngFacts.

(** ** Sorting *)

Module TableFacts.
Import Table.

(** Sorting leaves a sorted table as it is. *)
Lemma sort_values_sorted {A} (leb : A -> A -> bool) (l : list A) :
  locally_sorted leb l -> sort_values leb l = l.
Proof.
  induction l as [|x r IH]; intros H; [reflexivity|].
  unfold sort_values in *. cbn [fold_right].
  destruct r as [|y r']; [reflexivity|].
  destruct H as [Hxy Hr]. rewrite (IH Hr). cbn [insert_sorted]. now rewrite Hxy.
Qed.

Lemma insert_sorted_In {A} (leb : A -> A -> bool) (x a : A) (l : list A) :
  In a (insert_sorted leb x l) <-> a = x \/ In a l.
Proof.
  induction l as [|y r IH]; cbn [insert_sorted].
  - simpl. intuition.
  - destruct (leb x y); simpl; rewrite ?IH; intuition.
Qed.

(** Sorting keeps the rows. *)
Lemma sort_values_In {A} (leb : A -> A -> bool) (a : A) (l : list A) :
  In a (sort_values leb l) <-> In a l.
Proof.
  induction l as [|x r IH]; [reflexivity|].
  unfold sort_values in *. cbn [fold_right]. rewrite insert_sorted_In, IH.
  simpl. intuition.
Qed.

Lemma string_compare_refl (s : string) : String.compare s s = Eq.
Proof.
  pose proof (String.compare_antisym s s) as H.
  destruct (String.compare s s); simpl in H; congruence.
Qed.

End TableFacts.

(** ** Stage 2: the period allocator *)

Module SubscriptionsFacts.
Import Calendar Num Rng Table Subscriptions.
Import CalendarFacts NumFacts RngFacts TableFacts.
Local Open Scope gen_scope.

Lemma sample_price_inv (plan : string) (cfg : SubsConfig) (g g' : Generator) (price : Q) :
  _sample_price_mrr plan cfg g = Ok (price, g') -> (5 <= price)%Q /\ cents price.
Proof.
  unfold _sample_price_mrr. intros H.
  apply bind_inv in H as ([low high] & g1 & _ & H).
  apply bind_inv in H as (base & g2 & _ & H).
  apply bind_inv in H as (n & g3 & _ & H).
  apply ret_inv in H as [-> _]. split.
  - apply round2_ge5. apply Qle_trans with 5.0%Q; [now compute|apply Qmax_ge_l].
  - apply round2_cents.
Qed.

(** What the allocator returns: one period, or a canceled period and a
    second one starting [gap_days] after the end of the first. *)
Lemma gen_periods_shape (now : Z) (row : Customers.Customer) (cfg : SubsConfig)
      (g g' : Generator) (ps : list Period) :
  _gen_periods_for_customer now row cfg g = Ok (ps, g') ->
  exists s1 m1 pl1 pr1 a1,
    min_months cfg <= m1 /\ (5 <= pr1)%Q /\ cents pr1 /\
    Customers.signup_date row + start_delay_days_min cfg <= s1 /\
    let e1 := add_months s1 m1 - 1 in
    let end_date_1 := if a1 : bool then None else Some e1 in
    let first := mkPeriod (Customers.customer_id row) s1 end_date_1 pl1 pr1
                          (status_of end_date_1) in
    (ps = [first] \/
     (a1 = false /\
      exists gap m2 pl2 pr2 a2,
        reactivation_gap_min cfg <= gap /\ min_months cfg <= m2 /\
        (5 <= pr2)%Q /\ cents pr2 /\
        let s2 := e1 + gap in
        let end_date_2 := if a2 : bool then None else Some (add_months s2 m2 - 1) in
        ps = [first;
              mkPeriod (Customers.customer_id row) s2 end_date_2 pl2 pr2
                       (status_of end_date_2)])).
Proof.
  unfold _gen_periods_for_customer. intros H.
  apply bind_inv in H as (delay & g1 & Hd & H). apply integers_inv in Hd.
  apply bind_inv in H as (m1 & g2 & Hm & H). apply integers_inv in Hm.
  apply bind_inv in H as (smb & g3 & _ & H).
  apply bind_inv in H as (pl1 & g4 & _ & H).
  apply bind_inv in H as (pr1 & g5 & Hp & H). apply sample_price_inv in Hp as [Hp5 Hpc].
  apply bind_inv in H as (u1 & g6 & _ & H).
  apply bind_inv in H as (wants & g7 & Hw & H).
  set (a1 := Qlt_bool u1 0.55 &&
             (add_months (Customers.signup_date row + delay) m1 - 1 >? normalize now)) in *.
  exists (Customers.signup_date row + delay), m1, pl1, pr1, a1.
  repeat split; try lia; try assumption.
  cbv zeta. destruct wants.
  - right.
    apply bind_inv in H as (gap & g8 & Hg & H). apply integers_inv in Hg.
    apply bind_inv in H as (m2 & g9 & Hm2 & H). apply integers_inv in Hm2.
    apply bind_inv in H as (smb2 & g10 & _ & H).
    apply bind_inv in H as (pl2 & g11 & _ & H).
    apply bind_inv in H as (pr2 & g12 & Hp2 & H).
    apply sample_price_inv in Hp2 as [Hp25 Hp2c].
    apply bind_inv in H as (u2 & g13 & _ & H).
    apply ret_inv in H as [-> _].
    split.
    + destruct a1; [|reflexivity].
      cbn [negb] in Hw. now apply ret_inv in Hw as [? _].
    + exists gap, m2, pl2, pr2,
        (Qlt_bool u2 0.65 &&
         (add_months (add_months (Customers.signup_date row + delay) m1 - 1 + gap) m2 - 1
          >? normalize now)).
      repeat split; try lia; assumption.
  - left. now apply ret_inv in H as [-> _].
Qed.

Lemma status_of_active (e : option Z) : status_of e = "active"%string <-> e = None.
Proof. destruct e; simpl; split; congruence. Qed.

Lemma bind_ok {A B} (c : M A) (k : A -> M B) (g g1 : Generator) (a : A) :
  c g = Ok (a, g1) -> bind c k g = k a g1.
Proof. intros H. unfold bind. now rewrite H. Qed.

(** A weighted choice over a mix that passes the checks of
    [Generator.choice] returns one of its labels. *)
Lemma choice_with_mix_total (mix : list (string * Q)) (ps : list Q) (g : Generator) :
  check_choice (map fst mix) (divide_all (map snd mix) (Qsum (map snd mix))) = Ok ps ->
  exists label g', _choice_with_mix mix g = Ok (label, g') /\ In label (map fst mix).
Proof.
  intros H. unfold _choice_with_mix, choice. cbv zeta.
  unfold bind at 1. unfold lift. rewrite H.
  destruct (map fst mix) as [|a0 rest] eqn:E; [discriminate H|].
  destruct (random_total g) as (u & g' & Hu).
  rewrite (bind_ok _ _ _ _ _ Hu). unfold ret.
  eexists. eexists. split; [reflexivity|].
  unfold pick.
  destruct (nth_in_or_default (searchsorted_right (normalized_cdf ps) u) (a0 :: rest) a0)
    as [Hin | ->]; [exact Hin | now left].
Qed.

(** Under [SubsConfig()] the allocator raises nothing: every customer
    gets its periods, whatever the generator yields. *)
Lemma gen_periods_total (now : Z) (row : Customers.Customer) (g : Generator) :
  exists ps g', _gen_periods_for_customer now row default_config g = Ok (ps, g').
Proof.
  assert (Hmix : forall g0, exists plan g1,
             _choice_with_mix
               (dict_get (Customers.segment row) (segment_plan_mix default_config)
                  [("Starter", 0.55); ("Pro", 0.40); ("Business", 0.05);
                   ("Enterprise", 0.00)]%string%Q) g0 = Ok (plan, g1)
             /\ In plan ["Starter"; "Pro"; "Business"; "Enterprise"]%string).
  { intros g0. cbn [dict_get segment_plan_mix default_config].
    destruct (String.eqb (Customers.segment row) "SMB");
      [|destruct (String.eqb (Customers.segment row) "Mid");
        [|destruct (String.eqb (Customers.segment row) "Enterprise")]];
      (eapply choice_with_mix_total; vm_compute; reflexivity). }
  assert (Hprice : forall plan g0,
             In plan ["Starter"; "Pro"; "Business"; "Enterprise"]%string ->
             exists price g1, _sample_price_mrr plan default_config g0 = Ok (price, g1)).
  { intros plan g0 Hin. unfold _sample_price_mrr.
    assert (L : exists lh, dict_lookup plan (plan_prices default_config) = Ok lh).
    { destruct Hin as [<-|[<-|[<-|[<-|[]]]]]; eexists; reflexivity. }
    destruct L as [[low high] L].
    unfold bind at 1. unfold lift. rewrite L. cbv beta iota.
    destruct (uniform_total low high g0) as (base & g1 & Hu1).
    rewrite (bind_ok _ _ _ _ _ Hu1).
    destruct (uniform_total (- price_noise_pct default_config)
                (price_noise_pct default_config) g1) as (n & g2 & Hu2).
    rewrite (bind_ok _ _ _ _ _ Hu2).
    unfold ret. eexists. eexists. reflexivity. }
  unfold _gen_periods_for_customer.
  destruct (integers_total 0 11 g ltac:(lia)) as (delay & g1 & H1).
  change (start_delay_days_min default_config) with 0.
  change (start_delay_days_max default_config + 1) with 11.
  rewrite (bind_ok _ _ _ _ _ H1).
  destruct (integers_total 3 19 g1 ltac:(lia)) as (m1 & g2 & H2).
  change (min_months default_config) with 3.
  change (max_months default_config + 1) with 19.
  rewrite (bind_ok _ _ _ _ _ H2).
  unfold bind at 1. change (lift (dict_lookup "SMB" (segment_plan_mix default_config)) g2)
    with (Ok ([("Starter", 0.55); ("Pro", 0.40); ("Business", 0.05);
               ("Enterprise", 0.00)]%string%Q, g2)).
  cbv beta iota.
  destruct (Hmix g2) as (pl1 & g3 & H3 & Hin1). rewrite (bind_ok _ _ _ _ _ H3).
  destruct (Hprice pl1 g3 Hin1) as (pr1 & g4 & H4). rewrite (bind_ok _ _ _ _ _ H4).
  destruct (random_total g4) as (u1 & g5 & H5). rewrite (bind_ok _ _ _ _ _ H5).
  cbv zeta.
  set (sa := Qlt_bool u1 0.55 && _).
  destruct sa.
  - cbn [negb]. unfold bind at 1. unfold ret at 1. cbv beta iota.
    unfold ret. eexists. eexists. reflexivity.
  - cbn [negb]. destruct (random_total g5) as (r & g6 & H6).
    unfold bind at 1. rewrite (bind_ok random _ _ _ _ H6). unfold ret at 1.
    destruct (Qlt_bool r (pct_reactivate default_config)).
    + destruct (integers_total 15 61 g6 ltac:(lia)) as (gap & g7 & H7).
      change (reactivation_gap_min default_config) with 15.
      change (reactivation_gap_max default_config + 1) with 61.
      rewrite (bind_ok _ _ _ _ _ H7).
      destruct (integers_total 3 19 g7 ltac:(lia)) as (m2 & g8 & H8).
      rewrite (bind_ok _ _ _ _ _ H8).
      unfold bind at 1.
      change (lift (dict_lookup "SMB" (segment_plan_mix default_config)) g8)
        with (Ok ([("Starter", 0.55); ("Pro", 0.40); ("Business", 0.05);
                   ("Enterprise", 0.00)]%string%Q, g8)).
      cbv beta iota.
      destruct (Hmix g8) as (pl2 & g9 & H9 & Hin2). rewrite (bind_ok _ _ _ _ _ H9).
      destruct (Hprice pl2 g9 Hin2) as (pr2 & g10 & H10).
      rewrite (bind_ok _ _ _ _ _ H10).
      destruct (random_total g10) as (u2 & g11 & H11). rewrite (bind_ok _ _ _ _ _ H11).
      unfold ret. eexists. eexists. reflexivity.
    + unfold ret. eexists. eexists. reflexivity.
Qed.

Lemma gen_periods_coherent (now : Z) (row : Customers.Customer) (cfg : SubsConfig)
      (g g' : Generator) (ps : list Period) :
  1 <= min_months cfg -> 1 <= reactivation_gap_min cfg ->
  _gen_periods_for_customer now row cfg g = Ok (ps, g') ->
  coherent (Customers.customer_id row) ps /\ locally_sorted start_leb ps.
Proof.
  intros Hm Hg H.
  apply gen_periods_shape in H
    as (s1 & m1 & pl1 & pr1 & a1 & Hm1 & Hp1 & Hc1 & _ & H).
  cbv zeta in H.
  pose proof (add_months_ge s1 m1 ltac:(lia)) as He1.
  set (e1 := add_months s1 m1 - 1) in *.
  assert (W1 : forall e, (if a1 then None else Some e1) = Some e -> s1 < e)
    by (intros e E; destruct a1; inversion E; lia).
  assert (P1 : (0 <= pr1)%Q) by lra.
  destruct H as [->|(Ha & gap & m2 & pl2 & pr2 & a2 & Hgap & Hm2 & Hp2 & Hc2 & ->)].
  - split; [split|exact I].
    + constructor; [|constructor]. cbn [customer_id price_mrr end_date start_date]. auto.
    + exact I.
  - subst a1.
    pose proof (add_months_ge (e1 + gap) m2 ltac:(lia)) as He2.
    set (e2 := add_months (e1 + gap) m2 - 1) in *.
    assert (P2 : (0 <= pr2)%Q) by lra.
    split; [split|].
    + constructor; [|constructor; [|constructor]];
        cbn [customer_id price_mrr end_date start_date]; repeat split; auto.
      intros e E. destruct a2; inversion E. lia.
    + cbn [disjoint end_date start_date]. split; [|exact I].
      exists e1. split; [reflexivity|lia].
    + cbn [locally_sorted]. unfold start_leb. cbn [start_date].
      split; [apply Z.leb_le; lia|exact I].
Qed.

(** C2. The periods generated for a customer, sorted by start date, are
    temporally disjoint: each period after the first starts strictly after
    the end date of the period before it (which has one).  The allocator
    draws period lengths from [min_months] up and reactivation gaps from
    [reactivation_gap_min] up; both are at least 1, as in [SubsConfig()]. *)
Theorem periods_disjoint (now : Z) (row : Customers.Customer) (cfg : SubsConfig)
        (g g' : Generator) (ps : list Period) :
  1 <= min_months cfg -> 1 <= reactivation_gap_min cfg ->
  _gen_periods_for_customer now row cfg g = Ok (ps, g') ->
  disjoint (sort_values start_leb ps) /\ _check ps = true.
Proof.
  intros Hm Hg H.
  destruct (gen_periods_coherent _ _ _ _ _ _ Hm Hg H) as [[_ Hd] Hs].
  unfold _check. rewrite (sort_values_sorted _ _ Hs). split; [exact Hd|].
  clear - Hd. 
  assert (G : forall prev, (forall pe, prev = Some pe ->
                              match ps with p :: _ => pe < start_date p | [] => True end) ->
                           no_overlap_scan prev ps = true).
  { induction ps as [|p r IH]; intros prev Hprev; [reflexivity|].
    cbn [no_overlap_scan].
    assert (K : no_overlap_scan
                  (match end_date p with Some _ => end_date p | None => prev end) r = true).
    { apply IH.
      - destruct r; [exact I|]. apply Hd.
      - intros pe E. destruct r as [|q r']; [exact I|].
        destruct Hd as [(e & Ee & Lt) _]. rewrite Ee in E. inversion E. subst. exact Lt. }
    destruct prev as [pe|]; [|exact K].
    specialize (Hprev pe eq_refl). destruct (Z.leb_spec (start_date p) pe); [lia|exact K]. }
  apply G. intros pe E. discriminate.
Qed.

Lemma periods_disjoint_witness :
  exists ps g',
    _gen_periods_for_customer Samples.now_2024_06_05 Samples.c0001
      default_config Samples.churn_and_return = Ok (ps, g')
    /\ length ps = 2%nat
    /\ disjoint (sort_values start_leb ps) /\ _check ps = true.
Proof.
  eexists. eexists.
  split; [vm_compute; reflexivity|].
  split; [reflexivity|].
  eapply (periods_disjoint Samples.now_2024_06_05 Samples.c0001 default_config
            Samples.churn_and_return).
  - vm_compute. discriminate.
  - vm_compute. discriminate.
  - vm_compute. reflexivity.
Defined.

End SubscriptionsFacts.

Module StillActive.
Import Calendar Num Rng Table Subscriptions.
Import CalendarFacts NumFacts RngFacts TableFacts SubscriptionsFacts.
Local Open Scope gen_scope.

Ltac run_step H E :=
  unfold bind in H at 1; rewrite E in H; cbv beta iota zeta in H.

Lemma active_decision (u bias : Q) (end_ today : Z) (e : option Z) :
  e = (if Qlt_bool u bias && (end_ >? today) then None else Some end_) ->
  (status_of e = "active"%string <-> e = None) /\
  (e = None <-> (u < bias)%Q /\ today < end_) /\
  (e <> None -> e = Some end_ /\ status_of e = "canceled"%string).
Proof.
  intros ->. split; [apply status_of_active|].
  destruct (Qlt_bool u bias) eqn:Eu; cbn [andb].
  - apply Qlt_bool_iff in Eu.
    destruct (Z.gtb_spec end_ today) as [L|L].
    + split; [split; [intros _; split; [exact Eu|lia]|reflexivity]|].
      intros C. now elim C.
    + split; [split; [discriminate|intros [_ C]; lia]|].
      intros _. split; reflexivity.
  - apply Qlt_bool_false in Eu.
    split; [split; [discriminate|intros [C _]; lra]|].
    intros _. split; reflexivity.
Qed.

(** C5. A generated period is active (no end date, status "active")
    exactly when its activity draw is below the bias (0.55 for the first
    period, 0.65 for a reactivation) and its computed end date, start +
    months - 1 day, is strictly after today; otherwise it is canceled and
    ends on that computed date.  The draws are named by the hypotheses:
    each is the value the generator yields at that point of the run. *)
Theorem still_active_rule (now : Z) (row : Customers.Customer) (cfg : SubsConfig)
        (g g1 g2 g3 g4 g5 g' : Generator) (delay months : Z) (smb : list (string * Q))
        (plan : string) (price u : Q) (ps : list Period) :
  integers (start_delay_days_min cfg) (start_delay_days_max cfg + 1) g = Ok (delay, g1) ->
  integers (min_months cfg) (max_months cfg + 1) g1 = Ok (months, g2) ->
  dict_lookup "SMB" (segment_plan_mix cfg) = Ok smb ->
  _choice_with_mix (dict_get (Customers.segment row) (segment_plan_mix cfg) smb) g2
    = Ok (plan, g3) ->
  _sample_price_mrr plan cfg g3 = Ok (price, g4) ->
  random g4 = Ok (u, g5) ->
  _gen_periods_for_customer now row cfg g = Ok (ps, g') ->
  let start_1 := Customers.signup_date row + delay in
  let end_1 := add_months start_1 months - 1 in
  (exists first rest,
     ps = first :: rest /\ start_date first = start_1 /\
     (status first = "active"%string <-> end_date first = None) /\
     (end_date first = None <-> (u < 0.55)%Q /\ normalize now < end_1) /\
     (end_date first <> None ->
      end_date first = Some end_1 /\ status first = "canceled"%string))
  /\
  (forall (g6 g7 g8 g9 g10 g11 : Generator) (r : Q) (gap months_2 : Z)
          (plan_2 : string) (price_2 u_2 : Q) (second : Period),
     random g5 = Ok (r, g6) ->
     integers (reactivation_gap_min cfg) (reactivation_gap_max cfg + 1) g6
       = Ok (gap, g7) ->
     integers (min_months cfg) (max_months cfg + 1) g7 = Ok (months_2, g8) ->
     _choice_with_mix (dict_get (Customers.segment row) (segment_plan_mix cfg) smb) g8
       = Ok (plan_2, g9) ->
     _sample_price_mrr plan_2 cfg g9 = Ok (price_2, g10) ->
     random g10 = Ok (u_2, g11) ->
     nth_error ps 1 = Some second ->
     let start_2 := end_1 + gap in
     let end_2 := add_months start_2 months_2 - 1 in
     start_date second = start_2 /\
     (status second = "active"%string <-> end_date second = None) /\
     (end_date second = None <-> (u_2 < 0.65)%Q /\ normalize now < end_2) /\
     (end_date second <> None ->
      end_date second = Some end_2 /\ status second = "canceled"%string)).
Proof.
  intros H1 H2 H3 H4 H5 H6 Hgen. cbv zeta.
  unfold _gen_periods_for_customer in Hgen.
  run_step Hgen H1. run_step Hgen H2.
  unfold bind in Hgen at 1. unfold lift in Hgen at 1. rewrite H3 in Hgen.
  cbv beta iota zeta in Hgen.
  run_step Hgen H4. run_step Hgen H5. run_step Hgen H6.
  set (end_1 := add_months (Customers.signup_date row + delay) months - 1) in *.
  set (sa := Qlt_bool u 0.55 && (end_1 >? normalize now)) in *.
  apply bind_inv in Hgen as (wants & g6' & Hw & Hgen).
  split.
  - pose proof (active_decision u 0.55 end_1 (normalize now) _ eq_refl) as D.
    fold sa in D.
    destruct wants.
    + apply bind_inv in Hgen as (? & ? & _ & Hgen).
      apply bind_inv in Hgen as (? & ? & _ & Hgen).
      apply bind_inv in Hgen as (? & ? & _ & Hgen).
      apply bind_inv in Hgen as (? & ? & _ & Hgen).
      apply bind_inv in Hgen as (? & ? & _ & Hgen).
      apply bind_inv in Hgen as (? & ? & _ & Hgen).
      apply ret_inv in Hgen as [-> _].
      eexists. eexists. split; [reflexivity|].
      cbn [start_date status end_date]. split; [reflexivity|exact D].
    + apply ret_inv in Hgen as [-> _].
      eexists. eexists. split; [reflexivity|].
      cbn [start_date status end_date]. split; [reflexivity|exact D].
  - intros g6 g7 g8 g9 g10 g11 r gap months_2 plan_2 price_2 u_2 second
           R1 R2 R3 R4 R5 R6 Hnth.
    destruct wants.
    2:{ apply ret_inv in Hgen as [-> _]. discriminate Hnth. }
    destruct sa.
    { cbn [negb] in Hw. apply ret_inv in Hw as [? _]. discriminate. }
    cbn [negb] in Hw. run_step Hw R1. apply ret_inv in Hw as [_ ->].
    run_step Hgen R2. run_step Hgen R3.
    unfold bind in Hgen at 1. unfold lift in Hgen at 1. cbv beta iota zeta in Hgen.
    run_step Hgen R4. run_step Hgen R5. run_step Hgen R6.
    apply ret_inv in Hgen as [-> _].
    change (nth_error (?a :: ?b :: ?c) 1) with (Some b) in Hnth.
    apply (f_equal (fun o => match o with Some p => p | None => second end)) in Hnth.
    cbv beta iota in Hnth. subst second.
    cbn [start_date status end_date]. split; [reflexivity|].
    exact (active_decision u_2 0.65 _ (normalize now) _ eq_refl).
Qed.

Lemma still_active_rule_witness :
  exists (ps : list Period) (u u_2 : Q),
    Samples.rows_of_run
      (_gen_periods_for_customer Samples.now_2024_06_05 Samples.c0001 default_config
         Samples.churn_and_return) = ps /\
    (exists first rest,
       ps = first :: rest /\
       start_date first = Customers.signup_date Samples.c0001 + 3 /\
       (status first = "active"%string <-> end_date first = None) /\
       (end_date first = None <->
        (u < 0.55)%Q /\
        normalize Samples.now_2024_06_05
        < add_months (Customers.signup_date Samples.c0001 + 3) 3 - 1) /\
       (end_date first <> None ->
        end_date first = Some (add_months (Customers.signup_date Samples.c0001 + 3) 3 - 1)
        /\ status first = "canceled"%string)) /\
    (forall second, nth_error ps 1 = Some second ->
       end_date second = None <->
       (u_2 < 0.65)%Q /\
       normalize Samples.now_2024_06_05
       < add_months (add_months (Customers.signup_date Samples.c0001 + 3) 3 - 1 + 20) 5 - 1).
Proof.
  pose (g := Samples.churn_and_return).
  pose (step := fun k => mkGenerator (stream g) k).
  pose proof (still_active_rule Samples.now_2024_06_05 Samples.c0001 default_config
                g (step 1%nat) (step 2%nat) (step 3%nat) (step 5%nat) (step 6%nat)
                (step 13%nat) 3 3
                [("Starter", 0.55); ("Pro", 0.40); ("Business", 0.05);
                 ("Enterprise", 0.00)]%string%Q
                "Starter" 20.00%Q (Qmake Samples.top (2 ^ 53))
                (Samples.rows_of_run
                   (_gen_periods_for_customer Samples.now_2024_06_05 Samples.c0001
                      default_config g))
                ltac:(vm_compute; reflexivity) ltac:(vm_compute; reflexivity)
                ltac:(vm_compute; reflexivity) ltac:(vm_compute; reflexivity)
                ltac:(vm_compute; reflexivity) ltac:(vm_compute; reflexivity)
                ltac:(vm_compute; reflexivity)) as [A B].
  exists (Samples.rows_of_run
            (_gen_periods_for_customer Samples.now_2024_06_05 Samples.c0001
               default_config g)), (Qmake Samples.top (2 ^ 53)), (Qmake 0 (2 ^ 53)).
  split; [reflexivity|]. split; [exact A|].
  intros second Hs.
  exact (proj1 (proj2 (proj2
           (B (step 7%nat) (step 8%nat) (step 9%nat) (step 10%nat) (step 12%nat)
              (step 13%nat) (Qmake 0 (2 ^ 53)) 20 5 "Starter"%string 20.00%Q
              (Qmake 0 (2 ^ 53)) second
              ltac:(vm_compute; reflexivity) ltac:(vm_compute; reflexivity)
              ltac:(vm_compute; reflexivity) ltac:(vm_compute; reflexivity)
              ltac:(vm_compute; reflexivity) ltac:(vm_compute; reflexivity) Hs)))).
Defined.

End StillActive.

(** ** Stage 3: the event deriver *)

Module EventsFacts.
Import Calendar Num Rng Table Subscriptions Events.
Import CalendarFacts NumFacts RngFacts TableFacts SubscriptionsFacts.
Local Open Scope Q_scope.

Lemma strictly_increasing_snoc (l : list Z) (d y : Z) :
  strictly_increasing l -> last l d = d -> (d < y)%Z ->
  strictly_increasing (l ++ [y]) /\ last (l ++ [y]) y = y.
Proof.
  intros Hs Hl Hy. split; [|now rewrite last_last].
  induction l as [|x r IH]; [exact I|].
  destruct r as [|x' r'].
  - cbn in Hl. subst x. cbn. auto.
  - destruct Hs as [Hx Hr]. cbn [app]. split; [exact Hx|].
    apply IH; [exact Hr|exact Hl].
Qed.

Lemma never_below_snoc (floor acc x : Q) (l : list Q) :
  never_below floor acc l -> floor <= acc + Qsum l + x ->
  never_below floor acc (l ++ [x]).
Proof.
  revert acc. induction l as [|y r IH]; intros acc Hn Hx; cbn [app never_below].
  - split; [|exact I]. unfold Qsum in Hx. cbn [fold_left] in Hx. lra.
  - destruct Hn as [Hy Hr]. split; [exact Hy|].
    apply IH; [exact Hr|]. rewrite Qsum_cons in Hx. lra.
Qed.

Lemma never_below_weaken (floor floor' acc : Q) (l : list Q) :
  floor' <= floor -> never_below floor acc l -> never_below floor' acc l.
Proof.
  intros Hf. revert acc. induction l as [|y r IH]; intros acc H; [exact I|].
  destruct H as [Hy Hr]. split; [lra|]. now apply IH.
Qed.

(** The running sum of every prefix stays at or above the floor. *)
Lemma never_below_prefix (floor : Q) (l : list Q) :
  never_below floor 0 l -> floor <= 0 -> forall k, floor <= Qsum (firstn k l).
Proof.
  intros H H0 k.
  assert (G : forall acc l k, never_below floor acc l -> floor <= acc ->
                              floor <= acc + Qsum (firstn k l)).
  { clear. intros acc l. revert acc. induction l as [|y r IH]; intros acc k Hn Ha.
    - rewrite firstn_nil. unfold Qsum. cbn [fold_left]. lra.
    - destruct k as [|k]; cbn [firstn].
      + unfold Qsum. cbn [fold_left]. lra.
      + destruct Hn as [Hy Hr]. rewrite Qsum_cons.
        specialize (IH (acc + y) k Hr Hy). lra. }
  specialize (G 0 l k H H0). lra.
Qed.

(** The check of the script passes on such a list. *)
Lemma never_below_rolling (acc : Q) (g : list Event) :
  never_below (- (1 # 1000000)) acc (map delta_mrr g) -> rolling_from acc g = true.
Proof.
  revert acc. induction g as [|e r IH]; intros acc H; [reflexivity|].
  cbn [map never_below] in H. destruct H as [He Hr]. cbn [rolling_from].
  destruct (Qlt_bool (acc + delta_mrr e) (- (1 # 1000000))) eqn:E.
  - apply Qlt_bool_iff in E. lra.
  - now apply IH.
Qed.

Lemma stream_ok_total (cid : string) (out : list Event) (d : Z) (t t' : Q) :
  t == t' -> stream_ok cid out d t -> stream_ok cid out d t'.
Proof.
  intros E (H1 & H2 & H3 & H4 & H5). repeat split; auto. now rewrite H5.
Qed.

(** Appending an event dated later, with a delta in whole cents that keeps
    the MRR non-negative. *)
Lemma stream_ok_append (cid : string) (out : list Event) (d dt : Z) (t delta : Q)
      (etype : string) (pf pt : option string) :
  stream_ok cid out d t -> (d < dt)%Z -> cents delta -> 0 <= t + delta ->
  stream_ok cid (_append_event out cid dt etype pf pt delta) dt (t + delta).
Proof.
  intros (H1 & H2 & H3 & H4 & H5) Hd Hc Ht. unfold stream_ok, _append_event.
  pose proof (round2_id delta Hc) as Hr.
  rewrite !map_app. cbn [map event_date delta_mrr].
  destruct (strictly_increasing_snoc _ d dt H2 H3 Hd) as [S1 S2].
  repeat split.
  - apply Forall_app. split; [exact H1|]. constructor; [reflexivity|constructor].
  - exact S1.
  - exact S2.
  - apply never_below_snoc; [exact H4|]. rewrite H5, Hr. lra.
  - rewrite Qsum_app, Qsum_cons, H5, Hr. unfold Qsum. cbn [fold_left]. lra.
Qed.

Lemma stream_ok_nil (cid : string) (d : Z) : stream_ok cid [] d 0.
Proof.
  repeat split; try exact I; try reflexivity. constructor.
Qed.

(** The churn event of a period that ends, after its start-side event. *)
Lemma churn_ok (cid : string) (out : list Event) (p : Period) :
  customer_id p = cid -> cents (price_mrr p) -> 0 <= price_mrr p ->
  (forall e, end_date p = Some e -> (start_date p < e)%Z) ->
  stream_ok cid out (start_date p) (price_mrr p) ->
  stream_ok cid
    (match end_date p with
     | Some e => _append_event out (customer_id p) e "churn" (Some (plan p)) None
                               (- price_mrr p)
     | None => out
     end) (last_date p) (mrr_after p).
Proof.
  intros Hc Hp H0 He H. unfold last_date, mrr_after.
  destruct (end_date p) as [e|]; [|exact H].
  rewrite Hc. apply stream_ok_total with (price_mrr p + - price_mrr p); [lra|].
  apply stream_ok_append with (d := start_date p); auto using cents_opp. lra.
Qed.

(** One turn of the loop, the period before having ended before this one
    starts: a reactivation, then the churn if this period ends too. *)
Lemma subsequent_step_ok (cid : string) (out : list Event) (prev cur : Period) :
  (exists e, end_date prev = Some e /\ (e < start_date cur)%Z) ->
  customer_id cur = cid -> cents (price_mrr cur) -> 0 <= price_mrr cur ->
  (forall e, end_date cur = Some e -> (start_date cur < e)%Z) ->
  stream_ok cid out (last_date prev) (mrr_after prev) ->
  stream_ok cid (subsequent_step out prev cur) (last_date cur) (mrr_after cur).
Proof.
  intros (e & Ee & Lt) Hc Hp H0 He H. unfold subsequent_step. cbv zeta.
  unfold last_date, mrr_after in H. rewrite Ee in *.
  destruct (Z.gtb_spec (start_date cur) e) as [_|C]; [|lia].
  apply churn_ok; auto.
  rewrite Hc. apply stream_ok_total with (0 + price_mrr cur); [lra|].
  apply stream_ok_append with (d := e); auto. lra.
Qed.

Lemma last_nonempty {A} (x d d' : A) (r : list A) : last (x :: r) d = last (x :: r) d'.
Proof.
  revert x. induction r as [|y r IH]; intros x; [reflexivity|].
  change (last (y :: r) d = last (y :: r) d'). apply IH.
Qed.

Lemma last_cons_shift {A} (x d : A) (r : list A) : last (x :: r) d = last r x.
Proof.
  destruct r as [|y r]; [reflexivity|].
  change (last (y :: r) d = last (y :: r) x). apply last_nonempty.
Qed.

Lemma subsequent_loop_ok (cid : string) (rest : list Period) :
  forall (prev : Period) (out : list Event),
    coherent cid (prev :: rest) ->
    stream_ok cid out (last_date prev) (mrr_after prev) ->
    stream_ok cid (subsequent_loop out prev rest)
              (last_date (last rest prev)) (mrr_after (last rest prev)).
Proof.
  induction rest as [|cur rest IH]; intros prev out [Hall Hdis] H; [exact H|].
  cbn [subsequent_loop].
  rewrite last_cons_shift.
  pose proof (Forall_inv_tail Hall) as Hrest.
  destruct Hdis as [Hgap Hdis].
  apply IH; [split; assumption|].
  destruct (Forall_inv Hrest) as (Hc & Hp & H0 & He).
  now apply subsequent_step_ok.
Qed.

(** The events derived from coherent periods given in start order. *)
Lemma build_events_ok (cid : string) (first : Period) (rest : list Period) :
  coherent cid (first :: rest) -> locally_sorted start_leb (first :: rest) ->
  stream_ok cid (_build_events_for_customer (first :: rest))
            (last_date (last rest first)) (mrr_after (last rest first)).
Proof.
  intros Hco Hs. unfold _build_events_for_customer.
  rewrite (sort_values_sorted _ _ Hs). cbv zeta.
  apply subsequent_loop_ok; [exact Hco|].
  destruct Hco as [Hall _].
  destruct (Forall_inv Hall) as (Hc & Hp & H0 & He).
  apply churn_ok; auto.
  rewrite Hc. apply stream_ok_total with (0 + price_mrr first); [lra|].
  apply stream_ok_append with (d := (start_date first - 1)%Z); auto.
  - apply stream_ok_nil.
  - lia.
  - lra.
Qed.

(** Events of one customer with increasing dates are in the order of the
    final sort. *)
Lemma sorted_by_customer_date (cid : string) (out : list Event) :
  Forall (fun e => e_customer_id e = cid) out ->
  strictly_increasing (map event_date out) ->
  sort_values customer_date_leb out = out.
Proof.
  intros Hc Hs. apply sort_values_sorted.
  induction out as [|x r IH]; [exact I|].
  destruct r as [|y r']; [exact I|].
  pose proof (Forall_inv Hc) as Hx. pose proof (Forall_inv_tail Hc) as Hr.
  pose proof (Forall_inv Hr) as Hy. cbv beta in Hx, Hy.
  destruct Hs as [Hxy Hs]. split; [|now apply IH].
  unfold customer_date_leb, key2_leb. cbn [fst snd].
  rewrite Hx, Hy, string_compare_refl. apply Z.leb_le. lia.
Qed.

(** The events derived from what the allocator returns for a customer. *)
Lemma allocated_events_ok (now : Z) (row : Customers.Customer) (cfg : SubsConfig)
      (g g' : Generator) (ps : list Period) :
  (1 <= min_months cfg)%Z -> (1 <= reactivation_gap_min cfg)%Z ->
  _gen_periods_for_customer now row cfg g = Ok (ps, g') ->
  exists first rest,
    ps = first :: rest /\
    stream_ok (Customers.customer_id row) (_build_events_for_customer ps)
              (last_date (last rest first)) (mrr_after (last rest first)).
Proof.
  intros Hm Hg H.
  destruct (gen_periods_coherent _ _ _ _ _ _ Hm Hg H) as [Hco Hs].
  apply gen_periods_shape in H as (s1 & m1 & pl1 & pr1 & a1 & _ & _ & _ & _ & H).
  cbv zeta in H.
  destruct H as [->|(_ & gap & m2 & pl2 & pr2 & a2 & _ & _ & _ & _ & ->)];
    eexists; eexists; (split; [reflexivity|]); now apply build_events_ok.
Qed.

(** C7. The lifecycle events derived for a customer are strictly
    increasing by event date, as built and as sorted by (customer, date):
    no two events of the customer share a date.  The periods are those the
    allocator returns, with period lengths and reactivation gaps of at
    least 1 as in [SubsConfig()]. *)
Theorem event_dates_strictly_increase (now : Z) (row : Customers.Customer)
        (cfg : SubsConfig) (g g' : Generator) (ps : list Period) :
  (1 <= min_months cfg)%Z -> (1 <= reactivation_gap_min cfg)%Z ->
  _gen_periods_for_customer now row cfg g = Ok (ps, g') ->
  let events := sort_values customer_date_leb (_build_events_for_customer ps) in
  strictly_increasing (map event_date events) /\ _check_monotonic events = true.
Proof.
  intros Hm Hg H.
  destruct (allocated_events_ok _ _ _ _ _ _ Hm Hg H)
    as (first & rest & _ & Hc & Hs & _).
  cbv zeta. rewrite (sorted_by_customer_date _ _ Hc Hs). split; [exact Hs|].
  unfold _check_monotonic. clear - Hs.
  induction (map event_date (_build_events_for_customer ps)) as [|x r IH]; [reflexivity|].
  destruct r as [|y r']; [reflexivity|]. destruct Hs as [Hxy Hs].
  change (is_monotonic_increasing (x :: y :: r'))
    with ((x <=? y)%Z && is_monotonic_increasing (y :: r')).
  rewrite (IH Hs).
  apply andb_true_iff. split; [apply Z.leb_le; lia|reflexivity].
Qed.

Lemma event_dates_strictly_increase_witness :
  exists ps g',
    _gen_periods_for_customer Samples.now_2024_06_05 Samples.c0001
      default_config Samples.churn_and_return = Ok (ps, g')
    /\ length (_build_events_for_customer ps) = 3%nat
    /\ strictly_increasing
         (map event_date (sort_values customer_date_leb (_build_events_for_customer ps)))
    /\ _check_monotonic
         (sort_values customer_date_leb (_build_events_for_customer ps)) = true.
Proof.
  eexists. eexists.
  split; [vm_compute; reflexivity|].
  split; [vm_compute; reflexivity|].
  eapply (event_dates_strictly_increase Samples.now_2024_06_05 Samples.c0001
            default_config Samples.churn_and_return).
  - vm_compute. discriminate.
  - vm_compute. discriminate.
  - vm_compute. reflexivity.
Defined.

(** C1. Walking the lifecycle events derived for a customer in date
    order, the running sum of [delta_mrr] is at least -1e-6 after every
    prefix, so the rolling check of the script passes.  The periods are
    those the allocator returns, with period lengths and reactivation gaps
    of at least 1 as in [SubsConfig()]. *)
Theorem rolling_mrr_never_negative (now : Z) (row : Customers.Customer)
        (cfg : SubsConfig) (g g' : Generator) (ps : list Period) :
  (1 <= min_months cfg)%Z -> (1 <= reactivation_gap_min cfg)%Z ->
  _gen_periods_for_customer now row cfg g = Ok (ps, g') ->
  let events := sort_values customer_date_leb (_build_events_for_customer ps) in
  (forall k, - (1 # 1000000) <= Qsum (map delta_mrr (firstn k events))) /\
  _rolling_ok events = true.
Proof.
  intros Hm Hg H.
  destruct (allocated_events_ok _ _ _ _ _ _ Hm Hg H)
    as (first & rest & _ & Hc & Hs & _ & Hn & _).
  cbv zeta. rewrite (sorted_by_customer_date _ _ Hc Hs).
  apply never_below_weaken with (floor' := - (1 # 1000000)) in Hn; [|lra].
  split.
  - intros k. rewrite <- firstn_map. apply never_below_prefix; [exact Hn|lra].
  - now apply never_below_rolling.
Qed.

Lemma rolling_mrr_never_negative_witness :
  exists ps g',
    _gen_periods_for_customer Samples.now_2024_06_05 Samples.c0001
      default_config Samples.churn_and_return = Ok (ps, g')
    /\ (forall k, - (1 # 1000000)
                  <= Qsum (map delta_mrr
                             (firstn k (sort_values customer_date_leb
                                          (_build_events_for_customer ps)))))
    /\ _rolling_ok (sort_values customer_date_leb (_build_events_for_customer ps)) = true.
Proof.
  eexists. eexists.
  split; [vm_compute; reflexivity|].
  eapply (rolling_mrr_never_negative Samples.now_2024_06_05 Samples.c0001
            default_config Samples.churn_and_return).
  - vm_compute. discriminate.
  - vm_compute. discriminate.
  - vm_compute. reflexivity.
Defined.

(** C10. For the periods the allocator returns for a customer (at most
    two, disjoint, each ending after it starts), the deltas of all derived
    events sum to the price of the last period when that period is active,
    and to exactly 0 when it is canceled. *)
Theorem total_delta_is_final_mrr (now : Z) (row : Customers.Customer)
        (cfg : SubsConfig) (g g' : Generator) (ps : list Period) :
  (1 <= min_months cfg)%Z -> (1 <= reactivation_gap_min cfg)%Z ->
  _gen_periods_for_customer now row cfg g = Ok (ps, g') ->
  exists front final,
    ps = front ++ [final] /\ (length ps <= 2)%nat /\
    let total := Qsum (map delta_mrr (_build_events_for_customer ps)) in
    (end_date final = None -> total == price_mrr final) /\
    (end_date final <> None -> total == 0).
Proof.
  intros Hm Hg H.
  destruct (allocated_events_ok _ _ _ _ _ _ Hm Hg H)
    as (first & rest & E & _ & _ & _ & _ & Ht).
  assert (L : (length ps <= 2)%nat).
  { apply gen_periods_shape in H as (s1 & m1 & pl1 & pr1 & a1 & _ & _ & _ & _ & H).
    cbv zeta in H.
    destruct H as [->|(_ & gap & m2 & pl2 & pr2 & a2 & _ & _ & _ & _ & ->)];
      cbn [length]; lia. }
  exists (removelast ps), (last rest first). split; [|split; [exact L|]].
  - rewrite <- (last_cons_shift first first rest), <- E.
    apply app_removelast_last. rewrite E. discriminate.
  - cbv zeta. unfold mrr_after in Ht.
    destruct (end_date (last rest first)) as [e|]; split; intros C;
      try discriminate; try exact Ht. now elim C.
Qed.

Lemma total_delta_is_final_mrr_witness :
  exists ps g',
    _gen_periods_for_customer Samples.now_2024_06_05 Samples.c0001
      default_config Samples.churn_and_return = Ok (ps, g')
    /\ exists front final,
         ps = front ++ [final] /\ (length ps <= 2)%nat /\
         (end_date final = None ->
          Qsum (map delta_mrr (_build_events_for_customer ps)) == price_mrr final) /\
         (end_date final <> None ->
          Qsum (map delta_mrr (_build_events_for_customer ps)) == 0).
Proof.
  eexists. eexists.
  split; [vm_compute; reflexivity|].
  eapply (total_delta_is_final_mrr Samples.now_2024_06_05 Samples.c0001
            default_config Samples.churn_and_return).
  - vm_compute. discriminate.
  - vm_compute. discriminate.
  - vm_compute. reflexivity.
Defined.

End EventsFacts.

(** ** Stage 4: the invoice generator *)

Module InvoicesFacts.
Import Calendar Num Rng Table Subscriptions Invoices.
Import CalendarFacts NumFacts RngFacts TableFacts.
Local Open Scope gen_scope.

(** The fuel [_month_range] gives its loop is never what stops it: more
    fuel yields the same months. *)
Lemma month_range_loop_fuel (fuel : nat) :
  forall (cur end_m : Z) (extra : nat),
    end_m - cur + 1 <= Z.of_nat fuel ->
    month_range_loop (fuel + extra) cur end_m = month_range_loop fuel cur end_m.
Proof.
  induction fuel as [|k IH]; intros cur end_m extra Hf.
  - destruct extra as [|e]; [reflexivity|].
    cbn [Nat.add month_range_loop].
    destruct (Z.leb_spec cur end_m); [lia|reflexivity].
  - cbn [Nat.add month_range_loop].
    destruct (Z.leb_spec cur end_m); [|reflexivity].
    f_equal. apply IH.
    pose proof (add_months_ge cur 1 ltac:(lia)). lia.
Qed.

Lemma _month_range_fuel (start stop : Z) (extra : nat) :
  month_range_loop (Z.to_nat (replace_day1 stop - replace_day1 start + 1) + extra)
                   (replace_day1 start) (replace_day1 stop)
  = _month_range start stop.
Proof. unfold _month_range. apply month_range_loop_fuel. lia. Qed.

Lemma bounded_le (a lo hi : Z) : lo <= hi -> lo <= _bounded a lo hi <= hi.
Proof. unfold _bounded. lia. Qed.

Lemma monthly_rows_billed (cid : string) (price : Q) (start stop : Z) (months : list Z) :
  start <= stop -> Forall (billed_by stop) (monthly_rows cid price start stop months).
Proof.
  intros Hs. induction months as [|m0 rest IH]; [constructor|].
  cbn [monthly_rows]. unfold _coverage_window_for_month.
  destruct (_bounded (add_months m0 1 - 1) start stop <? _bounded m0 start stop);
    [exact IH|].
  constructor; [|exact IH].
  unfold billed_by. cbn [invoice_date period_end].
  pose proof (bounded_le m0 start stop Hs).
  pose proof (bounded_le (add_months m0 1 - 1) start stop Hs). lia.
Qed.

(** The invoices of one period stop at the cutoff. *)
Lemma period_rows_billed (cfg : InvoicesConfig) (now : Z) (r : Period)
      (g g' : Generator) (rows : list Invoice) :
  period_rows cfg now r g = Ok (rows, g') ->
  Forall (billed_by (end_of_prev_month now)) rows.
Proof.
  unfold period_rows. cbv zeta.
  set (cutoff := end_of_prev_month now).
  set (stop := Z.min (match end_date r with Some e => e | None => cutoff end) cutoff).
  assert (Hstop : stop <= cutoff) by (unfold stop; lia).
  destruct (Z.ltb_spec stop (start_date r)) as [L|L]; intros H.
  - apply ret_inv in H as [-> _]. constructor.
  - apply bind_inv in H as (u & g1 & _ & H).
    destruct (Qlt_bool u (pct_annual_prepay cfg)); apply ret_inv in H as [-> _].
    + constructor; [|constructor]. unfold billed_by. cbn [invoice_date period_end]. lia.
    + eapply Forall_impl; [|apply monthly_rows_billed; exact L].
      intros i [A B]. unfold billed_by. lia.
Qed.

(** A credit memo carries the dates of an invoice of the table. *)
Lemma refund_rows_dates (invoices : list Invoice) (idxs : list nat) :
  forall g g' rows, refund_rows invoices idxs g = Ok (rows, g') ->
  Forall (fun r => exists base, In base invoices /\
                     invoice_date r = invoice_date base /\
                     period_end r = period_end base) rows.
Proof.
  induction idxs as [|idx rest IH]; intros g g' rows H; cbn [refund_rows] in H.
  - apply ret_inv in H as [-> _]. constructor.
  - destruct (nth_error invoices idx) as [base|] eqn:E; [|discriminate].
    apply bind_inv in H as (pct & g1 & _ & H).
    apply bind_inv in H as (more & g2 & Hm & H).
    apply ret_inv in H as [-> _].
    constructor; [|exact (IH _ _ _ Hm)].
    exists base. cbn [invoice_date period_end].
    split; [exact (nth_error_In _ _ E)|split; reflexivity].
Qed.

Lemma generate_billed (cfg : InvoicesConfig) (now : Z) (subs : list Period)
      (g g' : Generator) (invoices : list Invoice) :
  generate cfg now subs g = Ok (invoices, g') ->
  Forall (billed_by (end_of_prev_month now)) invoices.
Proof.
  unfold generate. intros H.
  apply bind_inv in H as (std & g1 & Hstd & H).
  assert (S : Forall (billed_by (end_of_prev_month now)) std).
  { apply Forall_forall. intros i Hi.
    destruct (for_each_inv _ _ _ _ _ Hstd i Hi) as (r & ga & rows & gb & _ & Hr & Hin).
    apply period_rows_billed in Hr.
    exact (proj1 (Forall_forall _ _) Hr i Hin). }
  cbv zeta in H.
  destruct ((0 <? Qfloor (inject_Z (Z.of_nat (length std)) * refund_rate default_config))
            && negb (Nat.eqb (length std) 0)).
  - apply bind_inv in H as (idxs & g2 & _ & H).
    apply bind_inv in H as (refunds & g3 & Hr & H).
    apply ret_inv in H as [-> _].
    apply Forall_app. split; [exact S|].
    apply refund_rows_dates in Hr.
    eapply Forall_impl; [|exact Hr].
    intros r (base & Hb & E1 & E2).
    pose proof (proj1 (Forall_forall _ _) S base Hb) as [B1 B2].
    unfold billed_by. lia.
  - apply ret_inv in H as [-> _]. exact S.
Qed.

Lemma with_ids_invoice (invoices : list Invoice) (row : InvoiceRow) :
  In row (with_ids invoices) -> In (invoice row) invoices.
Proof.
  unfold with_ids. intros H. apply in_map_iff in H as ([i x] & <- & H).
  cbn [invoice snd]. exact (in_combine_r _ _ _ _ H).
Qed.

(** C6. Every invoice generated, a credit memo included, is issued and
    has its coverage window end no later than the last day of the month
    before generation time; this holds of the rows before sorting and of
    the table [main] writes.  A period starting after that cutoff produces
    no invoice (and uses no random draw). *)
Theorem invoices_stop_at_cutoff (now : Z) :
  (forall (cfg : InvoicesConfig) (subs : list Period) (g g' : Generator)
          (invoices : list Invoice),
      generate cfg now subs g = Ok (invoices, g') ->
      Forall (billed_by (end_of_prev_month now)) invoices) /\
  (forall (bg : BitGenerator) (customers : list Customers.Customer)
          (subs : list Subscription) (table : list InvoiceRow),
      main bg now customers subs = Ok table ->
      Forall (fun row => billed_by (end_of_prev_month now) (invoice row)) table) /\
  (forall (cfg : InvoicesConfig) (r : Period) (g : Generator),
      end_of_prev_month now < start_date r ->
      period_rows cfg now r g = Ok ([], g)).
Proof.
  split; [|split].
  - intros cfg subs g g' invoices. apply generate_billed.
  - intros bg customers subs table H. unfold main in H.
    destruct customers as [|c cs]; [discriminate|].
    destruct subs as [|s ss]; [discriminate|].
    cbv zeta in H.
    match type of H with
    | match ?b ?g0 with _ => _ end = _ => destruct (b g0) as [[t gf]|e] eqn:E
    end; [|discriminate].
    apply (f_equal (fun r => match r with Ok x => x | Raise _ => table end)) in H.
    cbv beta iota in H. subst t.
    apply bind_inv in E as (invoices & g1 & Hg & E).
    apply generate_billed in Hg.
    destruct invoices as [|i0 rest]; [discriminate|].
    apply bind_inv in E as (? & ? & _ & E).
    apply bind_inv in E as (? & ? & _ & E).
    apply bind_inv in E as (? & ? & _ & E).
    apply ret_inv in E as [-> _].
    apply Forall_forall. intros row Hrow.
    apply with_ids_invoice, sort_values_In in Hrow.
    exact (proj1 (Forall_forall _ _) Hg _ Hrow).
  - intros cfg r g Hlt. unfold period_rows. cbv zeta.
    destruct (Z.ltb_spec (Z.min (match end_date r with
                                 | Some e => e
                                 | None => end_of_prev_month now
                                 end) (end_of_prev_month now)) (start_date r)) as [L|L];
      [reflexivity|lia].
Qed.

Lemma invoices_stop_at_cutoff_witness :
  let rows := Samples.rows_of_run
                (generate default_config Samples.now_2024_06_05 Samples.c0001_periods
                   Samples.monthly_then_annual) in
  length rows = 5%nat /\
  Forall (billed_by (end_of_prev_month Samples.now_2024_06_05)) rows.
Proof.
  cbv zeta. split; [vm_compute; reflexivity|].
  apply (proj1 (invoices_stop_at_cutoff Samples.now_2024_06_05) default_config
           Samples.c0001_periods Samples.monthly_then_annual
           (mkGenerator (stream Samples.monthly_then_annual) 2)).
  vm_compute. reflexivity.
Defined.

End InvoicesFacts.

(** ** Stage 5: the payment allocator *)

Module PaymentsFacts.
Import Calendar Num Rng Table Invoices Payments.
Import CalendarFacts NumFacts RngFacts TableFacts.
Local Open Scope gen_scope.
Local Open Scope Q_scope.










(** The rows of the payment loop: one per part, the part rounded to the
    cent, dated the issue date plus a lag in the configured range, today
    at the latest. *)
Lemma payment_rows_spec (now : Z) (inv : InvoiceRow) (cfg : PaymentsConfig)
      (parts : list float64) :
  forall g g' rows, payment_rows now inv cfg parts g = Ok (rows, g') ->
  map amount rows = map round2f parts /\
  Forall (fun p => exists lag,
              (lag_min_days cfg <= lag <= lag_max_days cfg)%Z /\
              payment_date p = Z.min (invoice_date (invoice inv) + lag) (normalize now))
         rows.
Proof.
  induction parts as [|p_amt rest IH]; intros g g' rows H; cbn [payment_rows] in H.
  - apply ret_inv in H as [-> _]. split; [reflexivity|constructor].
  - apply bind_inv in H as (lag & g1 & Hl & H). apply integers_inv in Hl.
    cbv zeta in H.
    apply bind_inv in H as (method & g2 & _ & H).
    apply bind_inv in H as (more & g3 & Hm & H).
    apply ret_inv in H as [-> _].
    destruct (IH _ _ _ Hm) as [IH1 IH2].
    split.
    + cbn [map amount]. now rewrite IH1.
    + constructor; [|exact IH2]. exists lag. cbn [payment_date].
      split; [lia|reflexivity].
Qed.









(** A table [main] writes has passed the reconciliation check. *)
Lemma main_checks_overpayment (bg : BitGenerator) (now : Z) (invoices : list InvoiceRow)
      (table : list PaymentRow) :
  main bg now invoices = Ok table ->
  exists payments,
    table = with_ids payments /\ no_overpays invoices payments = true.
Proof.
  unfold main. destruct invoices as [|i0 rest]; [discriminate|]. cbv zeta.
  match goal with
  | |- match ?b ?g0 with _ => _ end = _ -> _ => destruct (b g0) as [[t gf]|e] eqn:E
  end; [|discriminate].
  intros H. apply (f_equal (fun r => match r with Ok x => x | Raise _ => table end)) in H.
  cbv beta iota in H. subst t.
  apply bind_inv in E as (rows & g1 & _ & E).
  destruct rows as [|p0 rows']; [discriminate|].
  apply bind_inv in E as (? & ? & _ & E).
  apply bind_inv in E as (? & ? & _ & E).
  apply bind_inv in E as (? & ? & _ & E).
  apply bind_inv in E as (? & ? & Hc & E).
  apply ret_inv in E as [-> _].
  apply lift_inv in Hc as [Hc _]. unfold assert in Hc.
  eexists. split; [reflexivity|].
  destruct (no_overpays (i0 :: rest) (sort_values payment_leb (p0 :: rows')));
    [reflexivity|discriminate].
Qed.

(** The claim of C4 fails as stated: an invoice issued on 2024-05-25 and
    paid in full under [PaymentsConfig()] (a lag of 30 days) on 2024-06-05
    gets a payment dated 2024-06-05, before the issue date plus
    [lag_min_days]. *)
Lemma payment_before_minimum_lag :
  exists rows g' p,
    _emit_payments_for_positive_invoice Samples.now_2024_06_05 Samples.i000001
      default_config Samples.pays_at_once = Ok (rows, g')
    /\ In p rows
    /\ (payment_date p
        < invoice_date (invoice Samples.i000001) + lag_min_days default_config)%Z.
Proof.
  eexists. eexists. eexists.
  split; [vm_compute; reflexivity|].
  split; [left; reflexivity|].
  vm_compute. reflexivity.
Qed.

(** C4, amended. Every payment emitted against an invoice, positive or
    negative, is dated the earlier of today and the issue date plus a lag
    within [lag_min_days, lag_max_days]: it is never after today, and it
    is never before the issue date plus [lag_min_days] unless that day is
    after today, the payment then being dated today. *)
Theorem payment_date_clamped (now : Z) (inv : InvoiceRow) (cfg : PaymentsConfig)
        (g g' : Generator) (rows : list Payment) :
  _emit_payments_for_positive_invoice now inv cfg g = Ok (rows, g') \/
  _emit_payments_for_negative_invoice now inv cfg g = Ok (rows, g') ->
  let today := normalize now in
  let issued := invoice_date (invoice inv) in
  Forall (fun p =>
            (exists lag, (lag_min_days cfg <= lag <= lag_max_days cfg)%Z /\
                         payment_date p = Z.min (issued + lag) today) /\
            (payment_date p <= today)%Z /\
            ((issued + lag_min_days cfg <= today)%Z ->
             (issued + lag_min_days cfg <= payment_date p)%Z) /\
            ((today < issued + lag_min_days cfg)%Z -> payment_date p = today))
         rows.
Proof.
  intros H. cbv zeta.
  assert (D : Forall (fun p => exists lag,
                        (lag_min_days cfg <= lag <= lag_max_days cfg)%Z /\
                        payment_date p
                        = Z.min (invoice_date (invoice inv) + lag) (normalize now)) rows).
  { destruct H as [H|H].
    - unfold _emit_payments_for_positive_invoice in H. cbv zeta in H.
      apply bind_inv in H as (r & g1 & _ & H).
      apply bind_inv in H as (parts & g2 & _ & H).
      now apply payment_rows_spec in H as [_ H].
    - unfold _emit_payments_for_negative_invoice in H. cbv zeta in H.
      apply bind_inv in H as (r & g1 & _ & H).
      destruct (Qlt_bool r (pct_cash_refund_for_credit_memos cfg)).
      + apply bind_inv in H as (lag & g2 & Hl & H). apply integers_inv in Hl.
        apply bind_inv in H as (method & g3 & _ & H).
        apply ret_inv in H as [-> _].
        constructor; [|constructor]. exists lag. cbn [payment_date].
        split; [lia|reflexivity].
      + apply ret_inv in H as [-> _]. constructor. }
  eapply Forall_impl; [|exact D].
  intros p (lag & Hl & E). split; [exists lag; auto|]. lia.
Qed.

Lemma payment_date_clamped_witness :
  Forall (fun p =>
            (exists lag, (30 <= lag <= 30)%Z /\
                         payment_date p
                         = Z.min (invoice_date (invoice Samples.i000001) + lag)
                                 (normalize Samples.now_2024_06_05)) /\
            (payment_date p <= normalize Samples.now_2024_06_05)%Z /\
            ((invoice_date (invoice Samples.i000001) + 30
              <= normalize Samples.now_2024_06_05)%Z ->
             (invoice_date (invoice Samples.i000001) + 30 <= payment_date p)%Z) /\
            ((normalize Samples.now_2024_06_05
              < invoice_date (invoice Samples.i000001) + 30)%Z ->
             payment_date p = normalize Samples.now_2024_06_05))
         (Samples.rows_of_run
            (_emit_payments_for_positive_invoice Samples.now_2024_06_05 Samples.i000001
               default_config Samples.pays_at_once)).
Proof.
  apply (payment_date_clamped Samples.now_2024_06_05 Samples.i000001 default_config
           Samples.pays_at_once (mkGenerator (stream Samples.pays_at_once) 3)).
  left. vm_compute. reflexivity.
Defined.

End PaymentsFacts.

(** ** Stage 1: the customer generator *)

Module CustomersFacts.
Import Calendar Num Rng Table Customers.
Import CalendarFacts NumFacts RngFacts TableFacts.
Local Open Scope gen_scope.

Lemma bind_fails {A B} (c : M A) (k : A -> M B) (g : Generator) :
  (forall a g1, c g = Ok (a, g1) -> exists e, k a g1 = Raise e) ->
  exists e, bind c k g = Raise e.
Proof.
  intros H. unfold bind. destruct (c g) as [[a g1]|e]; [apply H; reflexivity|].
  now exists e.
Qed.

Lemma bind_fails_now {A B} (c : M A) (k : A -> M B) (g : Generator) :
  (exists e, c g = Raise e) -> exists e, bind c k g = Raise e.
Proof. intros [e H]. exists e. unfold bind. now rewrite H. Qed.

(** A refused mix makes the weighted choice raise, whatever the size. *)
Lemma refused_mix_raises (mix : list (string * Q)) (size : Z) (g : Generator) :
  refused mix -> exists e, _choice_with_mix mix size g = Raise e.
Proof.
  intros Hbad. unfold _choice_with_mix. cbv zeta.
  unfold choice_n. apply bind_fails_now. unfold lift.
  assert (R : exists e, check_choice (map fst mix)
                          (divide_all (map snd mix) (Qsum (map snd mix))) = Raise e).
  { unfold check_choice, divide_all.
    destruct (map fst mix) as [|l0 ls] eqn:El; [eauto|].
    destruct (Qeq_bool (Qsum (map snd mix)) 0) eqn:E0.
    - destruct (negb (Nat.eqb (length (map snd mix)) (length (l0 :: ls)))); eauto.
    - destruct (negb (Nat.eqb (length (map (fun x => Qred (x / Qsum (map snd mix)))
                                           (map snd mix)))
                              (length (l0 :: ls)))); [eauto|].
      destruct Hbad as [Hz|(Hneg & w & Hw & Hpos)].
      + apply Qeq_bool_iff in Hz. unfold weight_sum in Hz. congruence.
      + unfold weight_sum in Hneg.
        assert (X : existsb (fun x => Qlt_bool x 0)
                      (map (fun x => Qred (x / Qsum (map snd mix))) (map snd mix)) = true).
        { apply existsb_exists. exists (Qred (w / Qsum (map snd mix))).
          split; [exact (in_map (fun x => Qred (x / Qsum (map snd mix))) _ _ Hw)|].
          apply Qlt_bool_iff. rewrite Qred_correct.
          set (s := Qsum (map snd mix)) in *.
          assert (Hs : ~ (s == 0)%Q) by lra.
          assert (Hd : (w / s * s == w)%Q) by (field; exact Hs).
          set (q := (w / s)%Q) in *.
          destruct (Qlt_le_dec q 0) as [L|L]; [exact L|].
          assert (P : (q * s <= 0)%Q).
          { setoid_replace (q * s)%Q with (- (q * - s))%Q by ring.
            assert (0 <= q * - s)%Q by (apply Qmult_le_0_compat; lra). lra. }
          lra. }
        rewrite X. eauto. }
  destruct R as [e ->]. eauto.
Qed.

(** The claim of C8 fails as stated.  With the segment weights of
    [CustomersConfig()] negated the weights sum to -1, yet the generator
    returns its 100 rows: normalising makes the probabilities positive.
    And with segment weights 0.5 and -0.5, which the sampling routine does
    refuse, the 100 signup dates have been drawn by the time it raises. *)
Lemma negative_mix_accepted :
  ((weight_sum (segment_mix Samples.negated_segments) <= 0)%Q
   /\ Samples.succeeded
        (generate_customers_df Samples.lcg Samples.now_2024_06_05
           Samples.negated_segments) = true
   /\ length (Samples.table_of
                (generate_customers_df Samples.lcg Samples.now_2024_06_05
                   Samples.negated_segments)) = 100%nat) /\
  ((weight_sum (segment_mix Samples.zero_segments) <= 0)%Q
   /\ Samples.words_used
        (_generate_signup_dates Samples.now_2024_06_05
           (num_customers Samples.zero_segments) (months_back Samples.zero_segments)
           (default_rng Samples.lcg (random_seed Samples.zero_segments)))
      = Some 100%nat
   /\ Samples.error_of
        (generate_customers_df Samples.lcg Samples.now_2024_06_05 Samples.zero_segments)
      = Some (ValueError "probabilities contain NaN")).
Proof.
  split; (split; [vm_compute; discriminate|]); split; vm_compute; reflexivity.
Qed.

(** C8, amended. A categorical weight mix (segment, region or channel)
    whose weights sum to zero, or sum to a negative number while some
    weight is positive, makes the customer generator raise an error:
    no output rows are generated. *)
Theorem refused_mix_rejected (bg : BitGenerator) (now : Z) (cfg : CustomersConfig) :
  refused (segment_mix cfg) \/ refused (region_mix cfg) \/ refused (channel_mix cfg) ->
  exists e, generate_customers_df bg now cfg = Raise e.
Proof.
  intros Hbad. unfold generate_customers_df. cbv zeta.
  match goal with
  | |- exists e, match ?body ?g0 with _ => _ end = _ =>
      assert (R : exists e, body g0 = Raise e)
  end.
  { apply bind_fails. intros dates g1 _.
    destruct Hbad as [Hs|Hbad]; [apply bind_fails_now; now apply refused_mix_raises|].
    apply bind_fails. intros segments g2 _.
    destruct Hbad as [Hr|Hc]; [apply bind_fails_now; now apply refused_mix_raises|].
    apply bind_fails. intros regions g3 _.
    apply bind_fails_now. now apply refused_mix_raises. }
  destruct R as [e ->]. now exists e.
Qed.

Lemma refused_mix_rejected_witness :
  refused (segment_mix Samples.zero_segments) /\
  exists e,
    generate_customers_df Samples.lcg Samples.now_2024_06_05 Samples.zero_segments
    = Raise e.
Proof.
  assert (R : refused (segment_mix Samples.zero_segments))
    by (left; vm_compute; reflexivity).
  split; [exact R|].
  apply (refused_mix_rejected Samples.lcg Samples.now_2024_06_05 Samples.zero_segments).
  left. exact R.
Defined.

End CustomersFacts.
(** ** Reproducibility of the stages *)

Module Determinism.
Import Calendar Num Rng Table Clocked.
Import RngFacts.

(** *** Runs whose readings of the clock all fall on one day *)

Lemma follows_ret {A} (clock : Clock) (a : A) : follows clock (retT a) (ret a).
Proof. intros n g. reflexivity. Qed.

Lemma follows_draw {A} (clock : Clock) (c : M A) : follows clock (draw c) c.
Proof.
  intros n g. unfold draw, bind, ret. destruct (c g) as [[a g']|e]; reflexivity.
Qed.

Lemma follows_bind {A B} (clock : Clock) (c : T A) (mc : M A) (k : A -> T B)
      (mk : A -> M B) :
  follows clock c mc -> (forall a, follows clock (k a) (mk a)) ->
  follows clock (bindT c k) (bind mc mk).
Proof.
  intros Hc Hk n g. unfold bindT, bind. specialize (Hc n g).
  destruct (c clock n g) as [[[a n'] g']|e]; cbn [outcome] in Hc; rewrite <- Hc.
  - cbn [fst snd]. apply Hk.
  - reflexivity.
Qed.

(** A reading is used for its day only. *)
Lemma follows_today {A} (clock : Clock) (day : Z) (k : Z -> T A) (m : M A) :
  (forall j, normalize (clock j) = day) ->
  (forall now, normalize now = day -> follows clock (k now) m) ->
  follows clock (bindT today k) m.
Proof.
  intros Hday Hk n g. unfold bindT, today, bind, ret. cbn [fst snd].
  exact (Hk (clock n) (Hday n) (S n) g).
Qed.

Lemma follows_for_each {A B} (clock : Clock) (f : A -> T (list B)) (mf : A -> M (list B))
      (rows : list A) :
  (forall r, follows clock (f r) (mf r)) ->
  follows clock (Clocked.for_each f rows) (Rng.for_each mf rows).
Proof.
  intros Hf. induction rows as [|r rest IH]; [apply follows_ret|].
  cbn [Clocked.for_each Rng.for_each].
  apply follows_bind; [apply Hf|]. intros out.
  apply follows_bind; [exact IH|]. intros outs. apply follows_ret.
Qed.

Lemma run_follows {A} (clock : Clock) (t : T A) (m : M A) (g : Generator) :
  follows clock t m ->
  run t clock g = match m g with Ok (a, _) => Ok a | Raise e => Raise e end.
Proof.
  intros H. unfold run. rewrite <- (H O g).
  destruct (t clock O g) as [[[a n] g']|e]; reflexivity.
Qed.

(** Stage 1 within one day is the stage given one reading of that day. *)
Lemma customers_one_day (bg : BitGenerator) (clock : Clock) (now : Z)
      (cfg : Customers.CustomersConfig) :
  (forall j, normalize (clock j) = normalize now) ->
  Clocked.generate_customers_df bg clock cfg = Customers.generate_customers_df bg now cfg.
Proof.
  intros Hday. unfold Clocked.generate_customers_df, Customers.generate_customers_df.
  cbv zeta. apply run_follows.
  apply (follows_today clock (normalize now)); [exact Hday|]. intros now1 H1.
  replace (Customers._generate_signup_dates now1) with (Customers._generate_signup_dates now)
    by (unfold Customers._generate_signup_dates; rewrite H1; reflexivity).
  apply follows_bind; [apply follows_draw|]. intros signup_dates.
  apply follows_bind; [apply follows_draw|]. intros segments.
  apply follows_bind; [apply follows_draw|]. intros regions.
  apply follows_bind; [apply follows_draw|]. intros channels.
  apply follows_bind; [apply follows_draw|]. intros cac_values.
  apply follows_bind; [apply follows_draw|]. intros _.
  apply follows_bind; [apply follows_draw|]. intros _.
  apply (follows_today clock (normalize now)); [exact Hday|]. intros now2 H2.
  rewrite H2.
  destruct (map Customers.signup_date _) as [|d ds]; [apply follows_draw|].
  apply follows_bind; [apply follows_draw|]. intros _. apply follows_ret.
Qed.

Lemma gen_periods_one_day (clock : Clock) (now : Z) (row : Customers.Customer)
      (cfg : Subscriptions.SubsConfig) :
  (forall j, normalize (clock j) = normalize now) ->
  follows clock (Clocked._gen_periods_for_customer row cfg)
          (Subscriptions._gen_periods_for_customer now row cfg).
Proof.
  intros Hday. unfold Clocked._gen_periods_for_customer.
  apply (follows_today clock (normalize now)); [exact Hday|]. intros now1 H1.
  replace (Subscriptions._gen_periods_for_customer now1 row cfg)
    with (Subscriptions._gen_periods_for_customer now row cfg)
    by (unfold Subscriptions._gen_periods_for_customer; rewrite H1; reflexivity).
  apply follows_draw.
Qed.

(** Stage 2 within one day, whatever the instants at which the customers
    are handled. *)
Lemma subscriptions_one_day (bg : BitGenerator) (clock : Clock) (now : Z)
      (customers : list Customers.Customer) :
  (forall j, normalize (clock j) = normalize now) ->
  Clocked.subscriptions_main bg clock customers = Subscriptions.main bg now customers.
Proof.
  intros Hday. unfold Clocked.subscriptions_main, Subscriptions.main.
  destruct customers as [|c0 cs]; [reflexivity|]. cbv zeta. apply run_follows.
  apply follows_bind.
  - apply follows_for_each. intros r. apply gen_periods_one_day. exact Hday.
  - intros all_periods.
    apply follows_bind; [apply follows_draw|]. intros _.
    apply follows_bind; [apply follows_draw|]. intros _.
    apply follows_bind; [apply follows_draw|]. intros _.
    apply follows_bind; [apply follows_draw|]. intros _.
    apply follows_bind; [apply follows_draw|]. intros _.
    apply follows_ret.
Qed.

(** Stage 4 uses its one reading for the day only. *)
Lemma invoices_one_day (bg : BitGenerator) (clock : Clock) (now : Z)
      (customers : list Customers.Customer) (subs : list Subscriptions.Subscription) :
  (forall j, normalize (clock j) = normalize now) ->
  Clocked.invoices_main bg clock customers subs = Invoices.main bg now customers subs.
Proof.
  intros Hday. unfold Clocked.invoices_main, Invoices.main, Invoices.generate,
    Invoices.period_rows, Invoices.end_of_prev_month.
  rewrite (Hday O). reflexivity.
Qed.

Lemma payment_rows_one_day (clock : Clock) (now : Z) (inv : Invoices.InvoiceRow)
      (cfg : Payments.PaymentsConfig) (parts : list float64) :
  (forall j, normalize (clock j) = normalize now) ->
  follows clock (Clocked.payment_rows inv cfg parts) (Payments.payment_rows now inv cfg parts).
Proof.
  intros Hday. induction parts as [|p rest IH]; [apply follows_ret|].
  cbn [Clocked.payment_rows Payments.payment_rows].
  apply follows_bind; [apply follows_draw|]. intros lag.
  apply (follows_today clock (normalize now)); [exact Hday|]. intros now1 H1.
  cbv zeta. rewrite H1.
  apply follows_bind; [apply follows_draw|]. intros method.
  apply follows_bind; [exact IH|]. intros more. apply follows_ret.
Qed.

Lemma positive_invoice_one_day (clock : Clock) (now : Z) (inv : Invoices.InvoiceRow)
      (cfg : Payments.PaymentsConfig) :
  (forall j, normalize (clock j) = normalize now) ->
  follows clock (Clocked._emit_payments_for_positive_invoice inv cfg)
          (Payments._emit_payments_for_positive_invoice now inv cfg).
Proof.
  intros Hday. unfold Clocked._emit_payments_for_positive_invoice,
    Payments._emit_payments_for_positive_invoice. cbv zeta.
  apply follows_bind; [apply follows_draw|]. intros r.
  apply follows_bind; [apply follows_draw|]. intros parts.
  apply payment_rows_one_day. exact Hday.
Qed.

Lemma negative_invoice_one_day (clock : Clock) (now : Z) (inv : Invoices.InvoiceRow)
      (cfg : Payments.PaymentsConfig) :
  (forall j, normalize (clock j) = normalize now) ->
  follows clock (Clocked._emit_payments_for_negative_invoice inv cfg)
          (Payments._emit_payments_for_negative_invoice now inv cfg).
Proof.
  intros Hday. unfold Clocked._emit_payments_for_negative_invoice,
    Payments._emit_payments_for_negative_invoice. cbv zeta.
  apply follows_bind; [apply follows_draw|]. intros r.
  destruct (Qlt_bool r (Payments.pct_cash_refund_for_credit_memos cfg));
    [|apply follows_ret].
  apply follows_bind; [apply follows_draw|]. intros lag.
  apply (follows_today clock (normalize now)); [exact Hday|]. intros now1 H1.
  rewrite H1.
  apply follows_bind; [apply follows_draw|]. intros method. apply follows_ret.
Qed.

(** Stage 5 within one day, whatever the instants at which the payments
    are dated and checked. *)
Lemma payments_one_day (bg : BitGenerator) (clock : Clock) (now : Z)
      (invoices : list Invoices.InvoiceRow) :
  (forall j, normalize (clock j) = normalize now) ->
  Clocked.payments_main bg clock invoices = Payments.main bg now invoices.
Proof.
  intros Hday. unfold Clocked.payments_main, Payments.main.
  destruct invoices as [|i0 rest]; [reflexivity|]. cbv zeta. apply run_follows.
  apply follows_bind.
  - unfold Clocked.payments_generate, Payments.generate. cbv zeta.
    apply follows_bind.
    + apply follows_for_each. intros inv. apply positive_invoice_one_day. exact Hday.
    + intros pos_rows. apply follows_bind.
      * apply follows_for_each. intros inv. apply negative_invoice_one_day. exact Hday.
      * intros neg_rows. apply follows_ret.
  - intros payment_rows. destruct payment_rows as [|p0 more]; [apply follows_draw|].
    apply follows_bind; [apply follows_draw|]. intros _.
    apply follows_bind; [apply follows_draw|]. intros _.
    apply (follows_today clock (normalize now)); [exact Hday|]. intros now1 H1.
    rewrite H1.
    apply follows_bind; [apply follows_draw|]. intros _.
    apply follows_bind; [apply follows_draw|]. intros _.
    apply follows_ret.
Qed.

(** The claim of C9 fails as stated: with the same seed, configuration and
    bit generator, the customers stage run on 2024-06-05 and on 2025-06-05
    writes different tables, and so does the subscriptions stage run on
    2024-03-05 and on 2024-06-05 over the same customers sheet (the period
    drawn ends on 2024-04-09: active in March, canceled in June).  The day of the run is
    an input of every stage that draws. *)
Lemma another_day_another_table :
  Customers.main Samples.lcg (midnight 2024 6 5) <>
  Customers.main Samples.lcg (midnight 2025 6 5)
  /\ Subscriptions.main Samples.all_zero (midnight 2024 3 5) [Samples.c0001] <>
     Subscriptions.main Samples.all_zero (midnight 2024 6 5) [Samples.c0001].
Proof.
  split; intros E.
  - apply (f_equal (fun r => option_map Customers.signup_date
                               (hd_error (Samples.table_of r)))) in E.
    vm_compute in E. discriminate E.
  - apply (f_equal (fun r => map (fun s => Subscriptions.end_date (Subscriptions.period s))
                               (Samples.table_of r))) in E.
    vm_compute in E. discriminate E.
Qed.

(** C9, amended. Take two runs of a stage with the same bit generator and
    seed, the same configuration and the same upstream tables, each
    reading the clock call by call at instants of its own.  When all the
    readings of both runs fall on one calendar day, the two runs write
    the same table: the time of day of a reading, and the order in time
    of the two runs, have no influence.  (The events stage draws nothing
    and reads no clock.) *)
Theorem runs_of_one_day_agree (bg : BitGenerator) (clock1 clock2 : Clock) :
  (forall j k, normalize (clock1 j) = normalize (clock2 k)) ->
  (forall cfg, Clocked.generate_customers_df bg clock1 cfg
               = Clocked.generate_customers_df bg clock2 cfg) /\
  (forall customers, Clocked.subscriptions_main bg clock1 customers
                     = Clocked.subscriptions_main bg clock2 customers) /\
  (forall customers subs, Clocked.invoices_main bg clock1 customers subs
                          = Clocked.invoices_main bg clock2 customers subs) /\
  (forall invoices, Clocked.payments_main bg clock1 invoices
                    = Clocked.payments_main bg clock2 invoices).
Proof.
  intros H.
  assert (H1 : forall j, normalize (clock1 j) = normalize (clock1 O))
    by (intros j; rewrite (H j O); symmetry; apply H).
  assert (H2 : forall k, normalize (clock2 k) = normalize (clock1 O))
    by (intros k; symmetry; apply H).
  split; [|split; [|split]].
  - intros cfg.
    rewrite (customers_one_day bg clock1 (clock1 O) cfg H1).
    rewrite (customers_one_day bg clock2 (clock1 O) cfg H2). reflexivity.
  - intros customers.
    rewrite (subscriptions_one_day bg clock1 (clock1 O) customers H1).
    rewrite (subscriptions_one_day bg clock2 (clock1 O) customers H2). reflexivity.
  - intros customers subs.
    rewrite (invoices_one_day bg clock1 (clock1 O) customers subs H1).
    rewrite (invoices_one_day bg clock2 (clock1 O) customers subs H2). reflexivity.
  - intros invoices.
    rewrite (payments_one_day bg clock1 (clock1 O) invoices H1).
    rewrite (payments_one_day bg clock2 (clock1 O) invoices H2). reflexivity.
Qed.

(** A clock that moves on by a second at each reading, from 09:00 to
    10:00 at the latest, has all its readings on the day it starts. *)
Lemma ticking_clock_day (j : nat) :
  normalize (Samples.ticking j) = normalize Samples.now_2024_06_05.
Proof.
  unfold Samples.ticking, normalize.
  assert (E : Samples.now_2024_06_05 = 86400 * ymd2ord 2024 6 5 + 32400)
    by (vm_compute; reflexivity).
  rewrite E. generalize (ymd2ord 2024 6 5). intros d.
  pose proof (Z.le_min_r (Z.of_nat j) 3600).
  assert (0 <= Z.min (Z.of_nat j) 3600) by (apply Z.min_glb; lia).
  assert (A : (86400 * d + 32400 + Z.min (Z.of_nat j) 3600) / 86400 = d)
    by (symmetry; apply (Z.div_unique _ 86400 d (32400 + Z.min (Z.of_nat j) 3600)); lia).
  assert (B : (86400 * d + 32400) / 86400 = d)
    by (symmetry; apply (Z.div_unique _ 86400 d 32400); lia).
  rewrite A, B. reflexivity.
Qed.

Lemma runs_of_one_day_agree_witness :
  Clocked.subscriptions_main Samples.all_zero Samples.ticking
                             [Samples.c0001; Samples.c0002]
  = Clocked.subscriptions_main Samples.all_zero (fun _ => midnight 2024 6 5)
                               [Samples.c0001; Samples.c0002].
Proof.
  refine (proj1 (proj2 (runs_of_one_day_agree Samples.all_zero Samples.ticking
                          (fun _ => midnight 2024 6 5) _)) _).
  intros j k. rewrite ticking_clock_day. vm_compute. reflexivity.
Defined.

End Determinism.

(** ** More of the calendar: months as intervals of days *)

Module CalendarMore.
Import Calendar CalendarFacts.

Lemma month_length_ge (i : Z) : 28 <= month_length i.
Proof. apply days_in_month_ge. Qed.

Lemma month_length_le (i : Z) : month_length i <= 31.
Proof.
  unfold month_length, days_in_month.
  destruct (i mod 12 + 1) as [|p|p]; try lia;
    repeat (destruct p as [p|p|]; try lia); destruct (is_leap (i / 12)); lia.
Qed.

Lemma month_start_succ (i : Z) : month_start (i + 1) = month_start i + month_length i.
Proof. apply month_start_step. Qed.

(** Month starts grow with the month number, by at least 28 days a month. *)
Lemma month_start_lt (i j : Z) : i < j -> month_start i + month_length i <= month_start j.
Proof.
  intros H. pose proof (month_start_mono (i + 1) (Z.to_nat (j - i - 1))) as M.
  rewrite Z2Nat.id in M by lia. replace (i + 1 + (j - i - 1)) with j in M by lia.
  rewrite month_start_succ in M. lia.
Qed.

Lemma month_start_le (i j : Z) : i <= j -> month_start i <= month_start j.
Proof.
  intros H. destruct (Z.eq_dec i j) as [->|N]; [lia|].
  pose proof (month_start_lt i j ltac:(lia)). pose proof (month_length_ge i). lia.
Qed.

(** The day [d] of the month numbered [i] is read back as such. *)
Lemma month_day_read (i d : Z) :
  1 <= d <= month_length i ->
  month_index (month_start i + d - 1) = i /\ day (month_start i + d - 1) = d.
Proof.
  intros Hd. remember (month_start i + d - 1) as t eqn:Et.
  destruct (date_decompose t) as [Ht Hd']. fold (month_length (month_index t)) in Hd'.
  remember (month_index t) as i' eqn:Ei. remember (day t) as d' eqn:Ed.
  assert (E : i' = i).
  { destruct (Z.lt_trichotomy i i') as [L|[E|L]]; [|auto|].
    - pose proof (month_start_lt i i' L). lia.
    - pose proof (month_start_lt i' i L). lia. }
  split; [exact E|]. rewrite E in Ht. lia.
Qed.

Lemma month_index_start (i : Z) : month_index (month_start i) = i.
Proof.
  pose proof (month_length_ge i).
  replace (month_start i) with (month_start i + 1 - 1) by lia.
  apply month_day_read. lia.
Qed.

Lemma day_start (i : Z) : day (month_start i) = 1.
Proof.
  pose proof (month_length_ge i).
  replace (month_start i) with (month_start i + 1 - 1) by lia.
  apply month_day_read. lia.
Qed.

(** A date lies in its month. *)
Lemma in_month (t : Z) :
  month_start (month_index t) <= t < month_start (month_index t + 1).
Proof.
  destruct (date_decompose t) as [Ht Hd]. fold (month_length (month_index t)) in Hd.
  rewrite month_start_succ. lia.
Qed.

(** The month of a date is the one whose days hold it. *)
Lemma month_index_of (t i : Z) :
  month_start i <= t < month_start (i + 1) -> month_index t = i.
Proof.
  intros H. rewrite month_start_succ in H.
  replace t with (month_start i + (t - month_start i + 1) - 1) by lia.
  apply month_day_read. lia.
Qed.

Lemma month_index_mono (t t' : Z) : t <= t' -> month_index t <= month_index t'.
Proof.
  intros H. pose proof (in_month t) as A. pose proof (in_month t') as B.
  destruct (Z.le_gt_cases (month_index t) (month_index t')) as [L|L]; [exact L|].
  pose proof (month_start_le (month_index t' + 1) (month_index t) ltac:(lia)). lia.
Qed.

(** A month after the first of a month is the first of the next month. *)
Lemma add_months_start (i n : Z) : add_months (month_start i) n = month_start (i + n).
Proof.
  unfold add_months. cbv zeta. rewrite month_index_start, day_start.
  pose proof (days_in_month_ge ((i + n) / 12) ((i + n) mod 12 + 1)). lia.
Qed.

Lemma replace_day1_index (t : Z) : month_index (replace_day1 t) = month_index t.
Proof. unfold replace_day1. apply month_index_start. Qed.

Lemma month_starts_length (a : Z) (n : nat) : length (month_starts a n) = n.
Proof. revert a. induction n as [|k IH]; intros a; [reflexivity|]. cbn. now rewrite IH. Qed.

End CalendarMore.

(** ** More on rounding *)

Module NumMore.
Import Num NumFacts.
Local Open Scope Q_scope.

Lemma round_half_even_le (x : Q) (k : Z) : x <= inject_Z k -> (round_half_even x <= k)%Z.
Proof.
  intros H.
  destruct (Z.le_gt_cases (round_half_even x) k) as [L|L]; [exact L|].
  pose proof (round_half_even_int x k) as Hint.
  destruct (Qlt_le_dec x (inject_Z k)) as [Lt|Ge].
  - exfalso. unfold round_half_even in L. cbv zeta in L.
    assert (F : (Qfloor x <= k - 1)%Z).
    { assert (Qfloor x < k)%Z; [|lia].
      rewrite Zlt_Qlt. apply Qle_lt_trans with x; [apply Qfloor_le|exact Lt]. }
    destruct (Z.eq_dec (Qfloor x) (k - 1)) as [E|N].
    + pose proof (Qfloor_le x). pose proof (Qlt_floor x).
      destruct (Qcompare (x - inject_Z (Qfloor x)) (1 # 2)); try destruct (Z.even (Qfloor x)); lia.
    + destruct (Qcompare (x - inject_Z (Qfloor x)) (1 # 2)); try destruct (Z.even (Qfloor x)); lia.
  - rewrite Hint in L; [lia|]. apply Qle_antisym; assumption.
Qed.

Lemma round2_nonneg (x : Q) : 0 <= x -> 0 <= round2 x.
Proof.
  intros H. unfold round2.
  assert (K : (0 <= round_half_even (x * 100))%Z).
  { apply round_half_even_ge. change (inject_Z 0) with 0. lra. }
  rewrite Zle_Qle in K. change (inject_Z 0) with 0 in K.
  set (r := inject_Z (round_half_even (x * 100))) in *.
  assert (E : r / 100 == r * (1 # 100)) by field. rewrite E. lra.
Qed.

Lemma round2_nonpos (x : Q) : x <= 0 -> round2 x <= 0.
Proof.
  intros H. unfold round2.
  assert (K : (round_half_even (x * 100) <= 0)%Z).
  { apply round_half_even_le. change (inject_Z 0) with 0. lra. }
  rewrite Zle_Qle in K. change (inject_Z 0) with 0 in K.
  set (r := inject_Z (round_half_even (x * 100))) in *.
  assert (E : r / 100 == r * (1 # 100)) by field. rewrite E. lra.
Qed.

End NumMore.

(** ** More on the generator: loops and draws without replacement *)

Module RngMore.
Import Num Rng RngFacts.
Local Open Scope gen_scope.

Lemma for_each_total {A B} (f : A -> M (list B)) (rows : list A) :
  (forall r g, In r rows -> exists out g', f r g = Ok (out, g')) ->
  forall g, exists out g', for_each f rows g = Ok (out, g').
Proof.
  induction rows as [|r rest IH]; intros Hf g; cbn [for_each].
  - unfold ret. eauto.
  - destruct (Hf r g (or_introl eq_refl)) as (o1 & g1 & E1).
    destruct (IH (fun r' g' H => Hf r' g' (or_intror H)) g1) as (o2 & g2 & E2).
    exists (o1 ++ o2), g2. unfold bind. rewrite E1, E2. reflexivity.
Qed.

(** The output of a loop is made of the outputs of its turns, in order. *)
Lemma for_each_parts {A B} (f : A -> M (list B)) (rows : list A) :
  forall g out g',
    for_each f rows g = Ok (out, g') ->
    exists outs, out = concat outs /\
                 Forall2 (fun r o => exists g1 g2, f r g1 = Ok (o, g2)) rows outs.
Proof.
  induction rows as [|r rest IH]; intros g out g' H; cbn [for_each] in H.
  - apply ret_inv in H as [-> _]. exists []. split; [reflexivity|constructor].
  - apply bind_inv in H as (o1 & g1 & H1 & H).
    apply bind_inv in H as (o2 & g2 & H2 & H).
    apply ret_inv in H as [-> _].
    destruct (IH _ _ _ H2) as (outs & -> & Hall).
    exists (o1 :: outs). split; [reflexivity|].
    constructor; [exists g, g1; exact H1|exact Hall].
Qed.

Lemma remove_nth_length {A} (l : list A) :
  forall i, (i < length l)%nat -> length (remove_nth i l) = pred (length l).
Proof.
  induction l as [|x r IH]; intros i Hi; cbn [length] in *; [lia|].
  destruct i as [|j]; cbn [remove_nth length]; [reflexivity|].
  rewrite IH by lia. lia.
Qed.

Lemma remove_nth_In {A} (l : list A) :
  forall i y, In y (remove_nth i l) -> In y l.
Proof.
  induction l as [|x r IH]; intros i y Hy; [destruct i; exact Hy|].
  destruct i as [|j]; cbn [remove_nth] in Hy.
  - right. exact Hy.
  - destruct Hy as [E|Hy]; [left; exact E|right; exact (IH _ _ Hy)].
Qed.

Lemma remove_nth_NoDup {A} (l : list A) :
  forall i, NoDup l -> NoDup (remove_nth i l).
Proof.
  induction l as [|x r IH]; intros i H; [destruct i; exact H|].
  destruct i as [|j]; cbn [remove_nth].
  - apply NoDup_cons_iff in H as [_ Hr]. exact Hr.
  - apply NoDup_cons_iff in H as [Hx Hr]. constructor; [|exact (IH j Hr)].
    intros C. apply Hx. exact (remove_nth_In _ _ _ C).
Qed.

Lemma remove_nth_out {A} (l : list A) :
  forall i d, (i < length l)%nat -> NoDup l -> ~ In (nth i l d) (remove_nth i l).
Proof.
  induction l as [|x r IH]; intros i d Hi H; cbn [length] in Hi; [lia|].
  apply NoDup_cons_iff in H as [Hx Hr].
  destruct i as [|j]; cbn [remove_nth nth].
  - exact Hx.
  - intros [E|C].
    + apply Hx. rewrite E. apply nth_In. lia.
    + exact (IH j d ltac:(lia) Hr C).
Qed.

(** A draw of [n] entries without replacement from at least [n] distinct
    entries succeeds and returns [n] distinct entries of the population. *)
Lemma choice_no_replace_spec {A} (n : nat) :
  forall (a : list A) (g : Generator),
    (n <= length a)%nat -> NoDup a ->
    exists out g', choice_no_replace a n g = Ok (out, g') /\
                   length out = n /\ NoDup out /\ incl out a.
Proof.
  induction n as [|k IH]; intros a g Hn Hd; cbn [choice_no_replace].
  - exists [], g. split; [reflexivity|]. split; [reflexivity|].
    split; [constructor|]. intros x [].
  - destruct a as [|a0 a']; [cbn [length] in Hn; lia|].
    set (a := a0 :: a') in *.
    destruct (integers_total 0 (Z.of_nat (length a)) g) as (v & g1 & Ev);
      [unfold a; cbn [length]; lia|].
    pose proof (integers_inv _ _ _ _ _ Ev) as Hv.
    assert (Hi : (Z.to_nat v < length a)%nat) by lia.
    destruct (IH (remove_nth (Z.to_nat v) a) g1) as (rest & g2 & Er & Hl & Hnd & Hin).
    { rewrite remove_nth_length by exact Hi. lia. }
    { apply remove_nth_NoDup. exact Hd. }
    exists (nth (Z.to_nat v) a a0 :: rest), g2.
    unfold bind. rewrite Ev, Er. split; [reflexivity|].
    split; [cbn [length]; lia|].
    split.
    + constructor; [|exact Hnd]. intros C.
      exact (remove_nth_out a _ a0 Hi Hd (Hin _ C)).
    + intros x [E|Hx].
      * rewrite <- E. apply nth_In. exact Hi.
      * exact (remove_nth_In _ _ _ (Hin _ Hx)).
Qed.

End RngMore.

(** ** More on tables: identifiers and uniqueness *)

Module TableMore.
Import Table TableFacts.

Lemma append_cancel (p a b : string) : (p ++ a)%string = (p ++ b)%string -> a = b.
Proof.
  induction p as [|c p IH]; cbn [String.append]; intros H; [exact H|].
  apply IH. now inversion H.
Qed.

Lemma mem_string_In (s : string) (l : list string) : mem_string s l = true <-> In s l.
Proof.
  induction l as [|x r IH]; cbn [mem_string In]; [split; [discriminate|tauto]|].
  rewrite orb_true_iff, IH, String.eqb_eq. split; intros [H|H]; auto.
Qed.

Lemma is_unique_NoDup (l : list string) : is_unique l = true <-> NoDup l.
Proof.
  induction l as [|x r IH]; cbn [is_unique]; [split; [constructor|reflexivity]|].
  rewrite andb_true_iff, negb_true_iff, IH, NoDup_cons_iff.
  split; intros [A B]; (split; [|exact B]).
  - intros C. apply mem_string_In in C. congruence.
  - destruct (mem_string x r) eqn:E; [|reflexivity].
    apply mem_string_In in E. contradiction.
Qed.

(** Reading the digits of a string, leading zeros included. *)
Lemma read_zeros (k : nat) (s : string) :
  NilEmpty.uint_of_string (zeros k ++ s)
  = option_map (Nat.iter k Decimal.D0) (NilEmpty.uint_of_string s).
Proof.
  induction k as [|k IH]; cbn [zeros String.append Nat.iter].
  - destruct (NilEmpty.uint_of_string s); reflexivity.
  - change (NilEmpty.uint_of_string (String "0" (zeros k ++ s)))
      with (uint_of_char "0" (NilEmpty.uint_of_string (zeros k ++ s))).
    rewrite IH. destruct (NilEmpty.uint_of_string s); reflexivity.
Qed.

Lemma of_uint_zeros (k : nat) (d : Decimal.uint) :
  N.of_uint (Nat.iter k Decimal.D0 d) = N.of_uint d.
Proof. induction k as [|k IH]; [reflexivity|]. cbn [Nat.iter]. exact IH. Qed.

Lemma str_nonneg (i : Z) :
  0 <= i -> str i = NilEmpty.string_of_uint (N.to_uint (Z.to_N i)).
Proof.
  intros H. unfold str. destruct i as [|p|p]; [reflexivity| |lia].
  cbn [Z.to_int Z.to_N N.to_uint NilZero.string_of_int NilZero.string_of_uint].
  pose proof (DecimalPos.Unsigned.to_uint_nonnil p) as N.
  destruct (Pos.to_uint p); [contradiction|reflexivity..].
Qed.

(** The digits of a padded numeral read back as the number. *)
Lemma read_zfill (width : nat) (i : Z) :
  0 <= i ->
  option_map N.of_uint (NilEmpty.uint_of_string (zfill width (str i)))
  = Some (Z.to_N i).
Proof.
  intros H. unfold zfill. rewrite read_zeros, (str_nonneg i H), NilEmpty.usu.
  cbn [option_map]. rewrite of_uint_zeros, DecimalN.Unsigned.of_to. reflexivity.
Qed.

Lemma zfill_str_inj (width : nat) (i j : Z) :
  0 <= i -> 0 <= j -> zfill width (str i) = zfill width (str j) -> i = j.
Proof.
  intros Hi Hj E. pose proof (read_zfill width i Hi) as A.
  rewrite E, (read_zfill width j Hj) in A. inversion A. lia.
Qed.

Lemma make_ids_In (prefix : string) (width : nat) (n : nat) :
  forall first x,
    In x (make_ids prefix width first n) ->
    exists i, first <= i < first + Z.of_nat n /\ x = (prefix ++ zfill width (str i))%string.
Proof.
  induction n as [|k IH]; intros first x H; cbn [make_ids] in H; [destruct H|].
  destruct H as [E|H].
  - exists first. split; [lia|now symmetry].
  - destruct (IH _ _ H) as (i & Hi & E). exists i. split; [lia|exact E].
Qed.

Lemma make_ids_length (prefix : string) (width : nat) (n : nat) :
  forall first, length (make_ids prefix width first n) = n.
Proof. induction n as [|k IH]; intros first; cbn [make_ids length]; [|rewrite IH]; reflexivity. Qed.

Lemma make_ids_NoDup (prefix : string) (width : nat) (n : nat) :
  forall first, 0 <= first -> NoDup (make_ids prefix width first n).
Proof.
  induction n as [|k IH]; intros first H; cbn [make_ids]; constructor.
  - intros C. apply make_ids_In in C as (i & Hi & E).
    apply append_cancel, zfill_str_inj in E; lia.
  - apply IH. lia.
Qed.

Lemma sort_values_length {A} (leb : A -> A -> bool) (l : list A) :
  length (sort_values leb l) = length l.
Proof.
  assert (I : forall x m, length (insert_sorted leb x m) = S (length m)).
  { intros x m. induction m as [|y r IH]; cbn [insert_sorted]; [reflexivity|].
    destruct (leb x y); cbn [length]; [reflexivity|]. now rewrite IH. }
  induction l as [|x r IH]; [reflexivity|].
  unfold sort_values in *. cbn [fold_right]. rewrite I, IH. reflexivity.
Qed.

Lemma sort_values_Forall {A} (leb : A -> A -> bool) (P : A -> Prop) (l : list A) :
  Forall P l -> Forall P (sort_values leb l).
Proof.
  intros H. apply Forall_forall. intros x Hx. apply sort_values_In in Hx.
  exact (proj1 (Forall_forall _ _) H x Hx).
Qed.

Lemma insert_sorted_perm {A} (leb : A -> A -> bool) (x : A) (l : list A) :
  Permutation (insert_sorted leb x l) (x :: l).
Proof.
  induction l as [|y r IH]; cbn [insert_sorted]; [reflexivity|].
  destruct (leb x y); [reflexivity|].
  rewrite IH. apply perm_swap.
Qed.

Lemma sort_values_perm {A} (leb : A -> A -> bool) (l : list A) :
  Permutation (sort_values leb l) l.
Proof.
  induction l as [|x r IH]; [reflexivity|].
  unfold sort_values in *. cbn [fold_right]. rewrite insert_sorted_perm, IH. reflexivity.
Qed.

Lemma filter_perm {A} (f : A -> bool) (l l' : list A) :
  Permutation l l' -> Permutation (filter f l) (filter f l').
Proof.
  induction 1 as [|x l l' _ IH|x y l|l l' l'' _ IH1 _ IH2]; cbn [filter].
  - reflexivity.
  - destruct (f x); [constructor|]; exact IH.
  - destruct (f x), (f y); try reflexivity. apply perm_swap.
  - now rewrite IH1.
Qed.

Lemma filter_all {A} (f : A -> bool) (l : list A) :
  Forall (fun x => f x = true) l -> filter f l = l.
Proof.
  induction l as [|x r IH]; intros H; cbn [filter]; [reflexivity|].
  rewrite (Forall_inv H), (IH (Forall_inv_tail H)). reflexivity.
Qed.

Lemma filter_none {A} (f : A -> bool) (l : list A) :
  Forall (fun x => f x = false) l -> filter f l = [].
Proof.
  induction l as [|x r IH]; intros H; cbn [filter]; [reflexivity|].
  rewrite (Forall_inv H), (IH (Forall_inv_tail H)). reflexivity.
Qed.

Lemma filter_other_chunks {R B} (key : R -> string) (bkey : B -> string)
      (rel : R -> list B -> Prop) (rows : list R) (outs : list (list B)) (k : string) :
  Forall2 (fun r o => rel r o /\ Forall (fun b => bkey b = key r) o) rows outs ->
  ~ In k (map key rows) ->
  filter (fun b => String.eqb (bkey b) k) (concat outs) = [].
Proof.
  induction 1 as [|r o rows' outs' [_ Ho] _ IH]; intros Hn; [reflexivity|].
  cbn [concat]. rewrite filter_app, IH, app_nil_r.
  - apply filter_none. eapply Forall_impl; [|exact Ho]. cbv beta. intros p Hp.
    rewrite Hp. apply String.eqb_neq. intros E. apply Hn. left. exact E.
  - intros C. apply Hn. right. exact C.
Qed.

(** In a table made of one chunk of rows for each of pairwise different
    keys, the rows under a key are one of the chunks, or none. *)
Lemma filter_chunks {R B} (key : R -> string) (bkey : B -> string)
      (rel : R -> list B -> Prop) (rows : list R) (outs : list (list B)) (k : string) :
  Forall2 (fun r o => rel r o /\ Forall (fun b => bkey b = key r) o) rows outs ->
  NoDup (map key rows) ->
  filter (fun b => String.eqb (bkey b) k) (concat outs) = [] \/
  exists r o, In r rows /\ rel r o /\
              filter (fun b => String.eqb (bkey b) k) (concat outs) = o.
Proof.
  induction 1 as [|r o rows' outs' [Hrel Ho] Hrest IH]; intros Hnd.
  - left. reflexivity.
  - cbn [map] in Hnd. apply NoDup_cons_iff in Hnd as [Hr Hnd].
    cbn [concat]. rewrite filter_app.
    destruct (String.eqb_spec (key r) k) as [E|N].
    + right. exists r, o. split; [left; reflexivity|]. split; [exact Hrel|].
      rewrite filter_all.
      * rewrite <- E in *.
        rewrite (filter_other_chunks key bkey rel rows' outs' (key r) Hrest Hr), app_nil_r.
        reflexivity.
      * eapply Forall_impl; [|exact Ho]. cbv beta. intros p Hp.
        rewrite Hp. apply String.eqb_eq. exact E.
    + rewrite filter_none.
      * cbn [app]. destruct (IH Hnd) as [Z|(r' & o' & Hin & Hrel' & Z)];
          [left; exact Z|right].
        exists r', o'. split; [right; exact Hin|]. split; [exact Hrel'|exact Z].
      * eapply Forall_impl; [|exact Ho]. cbv beta. intros p Hp.
        rewrite Hp. apply String.eqb_neq. exact N.
Qed.

Lemma map_fst_combine {A B} (l1 : list A) :
  forall l2 : list B, length l1 = length l2 -> map fst (combine l1 l2) = l1.
Proof.
  induction l1 as [|a r IH]; intros [|b l2] H; try discriminate H; [reflexivity|].
  cbn [combine map fst]. f_equal. apply IH. now inversion H.
Qed.

Lemma map_snd_combine {A B} (l1 : list A) :
  forall l2 : list B, length l1 = length l2 -> map snd (combine l1 l2) = l2.
Proof.
  induction l1 as [|a r IH]; intros [|b l2] H; try discriminate H; [reflexivity|].
  cbn [combine map snd]. f_equal. apply IH. now inversion H.
Qed.

Lemma lift_assert_ok (b : bool) (msg : string) (g : Rng.Generator) :
  b = true -> Rng.lift (Rng.assert b msg) g = Rng.Ok (tt, g).
Proof. intros ->. reflexivity. Qed.

Lemma key_inj {R} (key : R -> string) (rows : list R) (a b : R) :
  NoDup (map key rows) -> In a rows -> In b rows -> key a = key b -> a = b.
Proof.
  induction rows as [|c r IH]; intros Hnd Ha Hb E; [destruct Ha|].
  cbn [map] in Hnd. apply NoDup_cons_iff in Hnd as [Hc Hnd].
  destruct Ha as [<-|Ha], Hb as [<-|Hb].
  - reflexivity.
  - exfalso. apply Hc. rewrite E. apply in_map. exact Hb.
  - exfalso. apply Hc. rewrite <- E. apply in_map. exact Ha.
  - exact (IH Hnd Ha Hb E).
Qed.

Lemma NoDup_map_filter {R} (key : R -> string) (f : R -> bool) (rows : list R) :
  NoDup (map key rows) -> NoDup (map key (filter f rows)).
Proof.
  induction rows as [|c r IH]; intros Hnd; [constructor|].
  cbn [map] in Hnd. apply NoDup_cons_iff in Hnd as [Hc Hnd]. cbn [filter].
  destruct (f c); [|exact (IH Hnd)].
  cbn [map]. constructor; [|exact (IH Hnd)].
  intros C. apply Hc. apply in_map_iff in C as (x & E & Hx).
  apply filter_In in Hx as [Hx _]. rewrite <- E. apply in_map. exact Hx.
Qed.

Lemma list_max_le (bound : Z) (l : list Z) :
  forall x, x <= bound -> Forall (fun y => y <= bound) l -> list_max x l <= bound.
Proof.
  induction l as [|y r IH]; intros x Hx Hl; cbn [list_max]; [exact Hx|].
  apply IH; [pose proof (Forall_inv Hl); cbv beta in *; lia|exact (Forall_inv_tail Hl)].
Qed.

(** X5. The identifiers [prefix + str(i).zfill(width)] given to the rows
    i = first, first + 1, ... of a table are pairwise distinct, also once
    the numbers outgrow the padded width: the primary-key check
    [is_unique] on a column of such identifiers holds, and there is one
    identifier for each row. *)
Theorem sequential_ids_unique (prefix : string) (width : nat) (first : Z) (n : nat) :
  0 <= first ->
  is_unique (make_ids prefix width first n) = true /\
  length (make_ids prefix width first n) = n.
Proof.
  intros H. split; [|apply make_ids_length].
  apply is_unique_NoDup, make_ids_NoDup, H.
Qed.

Lemma sequential_ids_unique_witness :
  is_unique (make_ids "I" 2 98 4) = true /\ make_ids "I" 2 98 4 = ["I98"; "I99"; "I100"; "I101"]%string.
Proof.
  split; [apply (sequential_ids_unique "I" 2 98 4); lia | vm_compute; reflexivity].
Defined.

(** *** Group keys *)

Lemma distinct_In (l : list string) (x : string) : In x (distinct l) <-> In x l.
Proof.
  induction l as [|y r IH]; [reflexivity|]. cbn [distinct In].
  rewrite filter_In, IH, negb_true_iff, String.eqb_neq.
  destruct (string_dec y x) as [E|N]; tauto.
Qed.

Lemma distinct_NoDup (l : list string) : NoDup (distinct l).
Proof.
  induction l as [|y r IH]; cbn [distinct]; constructor.
  - intros C. apply filter_In in C as [_ C]. rewrite String.eqb_refl in C. discriminate C.
  - apply NoDup_filter. exact IH.
Qed.

Lemma string_leb_total (a b : string) : string_leb a b = false -> string_leb b a = true.
Proof.
  unfold string_leb. pose proof (String.compare_antisym a b) as H.
  destruct (String.compare a b), (String.compare b a); cbn in H; congruence.
Qed.

Lemma insert_sorted_sorted {A} (leb : A -> A -> bool) (x : A) (l : list A) :
  (forall a b, leb a b = false -> leb b a = true) ->
  locally_sorted leb l -> locally_sorted leb (insert_sorted leb x l).
Proof.
  intros T. induction l as [|y r IH]; intros H; [exact I|].
  cbn [insert_sorted]. destruct (leb x y) eqn:E.
  - split; [exact E|exact H].
  - assert (Hr : locally_sorted leb r) by (destruct r; [exact I|exact (proj2 H)]).
    specialize (IH Hr). destruct r as [|z r'].
    + cbn [insert_sorted]. split; [apply T; exact E|exact I].
    + cbn [insert_sorted] in *. destruct (leb x z) eqn:E2.
      * split; [apply T; exact E|exact IH].
      * split; [exact (proj1 H)|exact IH].
Qed.

Lemma sort_values_locally_sorted {A} (leb : A -> A -> bool) (l : list A) :
  (forall a b, leb a b = false -> leb b a = true) ->
  locally_sorted leb (sort_values leb l).
Proof.
  intros T. induction l as [|x r IH]; [exact I|].
  unfold sort_values in *. cbn [fold_right]. apply insert_sorted_sorted; assumption.
Qed.

Lemma group_keys_In (l : list string) (x : string) : In x (group_keys l) <-> In x l.
Proof. unfold group_keys. rewrite sort_values_In. apply distinct_In. Qed.

Lemma group_keys_NoDup (l : list string) : NoDup (group_keys l).
Proof.
  unfold group_keys.
  apply (Permutation_NoDup (Permutation_sym (sort_values_perm string_leb (distinct l)))).
  apply distinct_NoDup.
Qed.

(** The group keys come in strictly increasing order. *)
Lemma group_keys_increase (l : list string) :
  locally_sorted (fun a b => match String.compare a b with Lt => true | _ => false end)
                 (group_keys l).
Proof.
  pose proof (group_keys_NoDup l) as N.
  assert (S : locally_sorted string_leb (group_keys l))
    by (apply sort_values_locally_sorted, string_leb_total).
  induction (group_keys l) as [|a r IH]; [exact I|].
  destruct r as [|b r']; [exact I|].
  apply NoDup_cons_iff in N as [Na N]. destruct S as [L S].
  split; [|exact (IH N S)].
  unfold string_leb in L. destruct (String.compare a b) eqn:C; [|reflexivity|discriminate L].
  apply String.compare_eq_iff in C. exfalso. apply Na. left. symmetry. exact C.
Qed.

Lemma sorted_app {A} (leb : A -> A -> bool) (a b : list A) :
  locally_sorted leb a -> locally_sorted leb b ->
  (forall x y, In x a -> hd_error b = Some y -> leb x y = true) ->
  locally_sorted leb (a ++ b).
Proof.
  induction a as [|x a' IH]; intros Ha Hb H; [exact Hb|].
  destruct a' as [|x' a''].
  - cbn [app]. destruct b as [|y b']; [exact I|].
    split; [apply H; [left; reflexivity|reflexivity]|exact Hb].
  - cbn [app] in *. split; [exact (proj1 Ha)|].
    apply IH; [exact (proj2 Ha)|exact Hb|].
    intros u v Hu Hv. apply H; [right; exact Hu|exact Hv].
Qed.

Lemma chunk_keys {R B} (key : R -> string) (bkey : B -> string)
      (rel : R -> list B -> Prop) (rows : list R) (outs : list (list B)) :
  Forall2 (fun r o => rel r o /\ Forall (fun b => bkey b = key r) o) rows outs ->
  forall b, In b (concat outs) -> exists r o, In r rows /\ rel r o /\ In b o /\ bkey b = key r.
Proof.
  induction 1 as [|r o rows' outs' [Hrel Ho] _ IH]; intros b Hb; [destruct Hb|].
  cbn [concat] in Hb. apply in_app_or in Hb as [Hb|Hb].
  - exists r, o. split; [left; reflexivity|]. split; [exact Hrel|]. split; [exact Hb|].
    exact (proj1 (Forall_forall _ _) Ho b Hb).
  - destruct (IH b Hb) as (r' & o' & Hin & Hrest). exists r', o'.
    split; [right; exact Hin|exact Hrest].
Qed.

Lemma chunk_keys_NoDup {R B} (key : R -> string) (bkey : B -> string)
      (rel : R -> list B -> Prop) (rows : list R) (outs : list (list B)) :
  Forall2 (fun r o => (rel r o /\ (length o <= 1)%nat) /\
                      Forall (fun b => bkey b = key r) o) rows outs ->
  NoDup (map key rows) -> NoDup (map bkey (concat outs)).
Proof.
  induction 1 as [|r o rows' outs' [[Hrel Hlen] Ho] Hrest IH]; intros Hnd; [constructor|].
  cbn [map] in Hnd. apply NoDup_cons_iff in Hnd as [Hr Hnd]. cbn [concat].
  destruct o as [|b [|b' o']]; [exact (IH Hnd)| |cbn [length] in Hlen; lia].
  cbn [app map]. constructor; [|exact (IH Hnd)].
  intros C. apply in_map_iff in C as (x & Ex & Hx).
  destruct (chunk_keys key bkey _ rows' outs' Hrest x Hx) as (r' & _ & Hin & _ & _ & Ek).
  apply Hr. rewrite <- (Forall_inv Ho), <- Ex, Ek. apply in_map. exact Hin.
Qed.

(** With pairwise different keys, the rows of a key in the concatenation
    are the chunk built for it. *)
Lemma filter_own_chunk {R B} (key : R -> string) (bkey : B -> string)
      (rel : R -> list B -> Prop) (rows : list R) (outs : list (list B)) :
  Forall2 (fun r o => rel r o /\ Forall (fun b => bkey b = key r) o) rows outs ->
  NoDup (map key rows) ->
  forall r, In r rows ->
    exists o, rel r o /\ filter (fun b => String.eqb (bkey b) (key r)) (concat outs) = o.
Proof.
  induction 1 as [|r0 o0 rows' outs' [Hrel Ho] Hrest IH]; intros Hnd r Hr; [destruct Hr|].
  cbn [map] in Hnd. apply NoDup_cons_iff in Hnd as [Hr0 Hnd].
  cbn [concat]. rewrite filter_app. destruct Hr as [<-|Hr].
  - exists o0. split; [exact Hrel|].
    rewrite (filter_other_chunks key bkey rel rows' outs' (key r0) Hrest Hr0), app_nil_r.
    apply filter_all. eapply Forall_impl; [|exact Ho]. cbv beta. intros b Hb.
    rewrite Hb. apply String.eqb_refl.
  - destruct (IH Hnd r Hr) as (o & Hro & Ef). exists o. split; [exact Hro|].
    rewrite Ef. replace (filter _ o0) with (@nil B); [reflexivity|].
    symmetry. apply filter_none. eapply Forall_impl; [|exact Ho]. cbv beta. intros b Hb.
    rewrite Hb. apply String.eqb_neq. intros E. apply Hr0. rewrite E. apply in_map. exact Hr.
Qed.

Lemma filter_map_length {A B} (h : A -> B) (f : B -> bool) (l : list A) :
  length (filter (fun x => f (h x)) l) = length (filter f (map h l)).
Proof.
  induction l as [|x r IH]; [reflexivity|]. cbn [filter map].
  destruct (f (h x)); cbn [length]; rewrite IH; reflexivity.
Qed.

Lemma Forall2_graph {A B} (R : A -> B -> Prop) (f : A -> B) (l : list A) :
  Forall (fun a => R a (f a)) l -> Forall2 R l (map f l).
Proof. induction 1; cbn [map]; constructor; assumption. Qed.

End TableMore.

(** ** Stage 4: months, coverage windows and credit memos *)

Module InvoicesMore.
Import Calendar Num Rng Table Subscriptions Invoices.
Import CalendarFacts CalendarMore NumFacts NumMore RngFacts RngMore TableFacts TableMore.
Import InvoicesFacts.
Local Open Scope gen_scope.

Lemma month_range_loop_starts (fuel : nat) :
  forall a j : Z,
    j - a + 1 <= Z.of_nat fuel ->
    month_range_loop fuel (month_start a) (month_start j)
    = month_starts a (Z.to_nat (j - a + 1)).
Proof.
  induction fuel as [|k IH]; intros a j Hf.
  - replace (Z.to_nat (j - a + 1)) with 0%nat by lia. reflexivity.
  - cbn [month_range_loop].
    destruct (Z.leb_spec (month_start a) (month_start j)) as [L|L].
    + assert (a <= j).
      { destruct (Z.le_gt_cases a j) as [H|H]; [exact H|].
        pose proof (month_start_lt j a ltac:(lia)). pose proof (month_length_ge j). lia. }
      replace (Z.to_nat (j - a + 1)) with (S (Z.to_nat (j - (a + 1) + 1))) by lia.
      cbn [month_starts]. f_equal. rewrite add_months_start. apply IH. lia.
    + assert (j < a).
      { destruct (Z.le_gt_cases a j) as [H|H]; [|lia].
        pose proof (month_start_le a j H). lia. }
      replace (Z.to_nat (j - a + 1)) with 0%nat by lia. reflexivity.
Qed.

Lemma month_range_starts (start stop : Z) :
  _month_range start stop
  = month_starts (month_index start)
                 (Z.to_nat (month_index stop - month_index start + 1)).
Proof.
  unfold _month_range, replace_day1. cbv zeta.
  set (a := month_index start). set (j := month_index stop).
  destruct (Z.le_gt_cases a j) as [L|L].
  - apply month_range_loop_starts.
    pose proof (month_start_mono a (Z.to_nat (j - a))) as M.
    rewrite Z2Nat.id in M by lia. replace (a + (j - a)) with j in M by lia. lia.
  - pose proof (month_start_lt j a ltac:(lia)). pose proof (month_length_ge j).
    replace (Z.to_nat (month_start j - month_start a + 1)) with 0%nat by lia.
    replace (Z.to_nat (j - a + 1)) with 0%nat by lia. reflexivity.
Qed.

Lemma month_starts_facts (n : nat) :
  forall a : Z,
    strictly_increasing (month_starts a n) /\
    Forall (fun m => day m = 1 /\ a <= month_index m < a + Z.of_nat n) (month_starts a n).
Proof.
  induction n as [|k IH]; intros a; [split; [exact I|constructor]|].
  destruct (IH (a + 1)) as [Hinc Hall]. cbn [month_starts]. split.
  - destruct k as [|k']; [exact I|].
    cbn [month_starts strictly_increasing] in *. split; [|exact Hinc].
    pose proof (month_start_lt a (a + 1) ltac:(lia)). pose proof (month_length_ge a). lia.
  - constructor.
    + rewrite day_start, month_index_start. lia.
    + eapply Forall_impl; [|exact Hall]. cbv beta. intros m [D R]. split; [exact D|lia].
Qed.

(** X1. [_month_range(start, end)] is the list of the first days of the
    calendar months from the month of [start] to the month of [end], both
    included: one entry a month, in increasing order, each the first day
    of its month; it is empty when [end] falls in an earlier month than
    [start]. *)
Theorem month_range_months (start stop : Z) :
  let months := _month_range start stop in
  months = month_starts (month_index start)
                        (Z.to_nat (month_index stop - month_index start + 1)) /\
  Z.of_nat (length months) = Z.max 0 (month_index stop - month_index start + 1) /\
  strictly_increasing months /\
  Forall (fun m => day m = 1 /\ month_index start <= month_index m <= month_index stop)
         months.
Proof.
  cbv zeta. rewrite month_range_starts.
  set (a := month_index start). set (j := month_index stop).
  destruct (month_starts_facts (Z.to_nat (j - a + 1)) a) as [Hinc Hall].
  split; [reflexivity|]. split; [rewrite month_starts_length; lia|].
  split; [exact Hinc|].
  eapply Forall_impl; [|exact Hall]. cbv beta. intros m [D R]. split; [exact D|lia].
Qed.

Lemma monthly_rows_tile (cid : string) (price : Q) (start stop : Z) (m : nat) :
  forall b : Z,
    start <= stop ->
    month_index start <= b ->
    b + Z.of_nat m = month_index stop ->
    let rows := monthly_rows cid price start stop (month_starts b (S m)) in
    length rows = S m /\
    hd stop (map period_start rows) = Z.max start (month_start b) /\
    last (map period_end rows) start = stop /\
    contiguous rows /\
    Forall (fun i => customer_id i = cid /\ invoice_date i = period_start i /\
                     amount i = round2 price /\ is_refund i = false /\
                     period_start i <= period_end i /\
                     month_index (period_start i) = b + Z.of_nat (length rows) - 1
                                                    - (month_index stop - month_index (period_end i)) /\
                     month_index (period_end i) = month_index (period_start i)) rows.
Proof.
  induction m as [|m IH]; intros b Hle Hb Hm.
  - cbn [month_starts monthly_rows]. unfold _coverage_window_for_month, _bounded.
    rewrite add_months_start. cbv zeta.
    pose proof (in_month stop) as Is. pose proof (in_month start) as Ia.
    replace b with (month_index stop) in * by lia.
    set (i := month_index stop) in *.
    pose proof (month_start_le (month_index start) i Hb).
    rewrite (Z.min_l (month_start i) stop) by lia.
    rewrite (Z.min_r (month_start (i + 1) - 1) stop) by lia.
    rewrite (Z.max_r start stop) by lia.
    destruct (Z.ltb_spec stop (Z.max start (month_start i))) as [L|L]; [lia|].
    cbn [length map hd last contiguous period_start period_end].
    split; [reflexivity|]. split; [reflexivity|]. split; [reflexivity|].
    split; [exact I|]. constructor; [|constructor].
    cbn [customer_id invoice_date amount is_refund period_start period_end length].
    assert (month_index (Z.max start (month_start i)) = i) as Em
        by (apply month_index_of; lia).
    fold i. rewrite Em.
    split; [reflexivity|]. split; [reflexivity|]. split; [reflexivity|].
    split; [reflexivity|]. split; [lia|]. split; [lia|]. reflexivity.
  - change (month_starts b (S (S m)))
      with (month_start b :: month_starts (b + 1) (S m)).
    cbn [monthly_rows]. unfold _coverage_window_for_month, _bounded.
    rewrite add_months_start. cbv zeta.
    pose proof (in_month stop) as Is. pose proof (in_month start) as Ia.
    set (i := month_index stop) in *. set (a := month_index start) in *.
    pose proof (month_start_le (a + 1) (b + 1) ltac:(lia)).
    pose proof (month_start_le (b + 1) i ltac:(lia)).
    pose proof (month_start_lt b (b + 1) ltac:(lia)). pose proof (month_length_ge b).
    rewrite (Z.min_l (month_start b) stop) by lia.
    rewrite (Z.min_l (month_start (b + 1) - 1) stop) by lia.
    rewrite (Z.max_r start (month_start (b + 1) - 1)) by lia.
    destruct (Z.ltb_spec (month_start (b + 1) - 1) (Z.max start (month_start b))) as [L|L];
      [lia|].
    specialize (IH (b + 1) Hle ltac:(fold a; lia) ltac:(fold i; lia)).
    cbv zeta in IH. fold i in IH.
    set (rest := monthly_rows cid price start stop (month_starts (b + 1) (S m))) in *.
    destruct IH as (Hlen & Hhd & Hlast & Hcont & Hall).
    destruct rest as [|r rest']; [discriminate Hlen|].
    cbn [map hd] in Hhd. rewrite (Z.max_r start (month_start (b + 1))) in Hhd by lia.
    split; [cbn [length] in *; lia|].
    split; [reflexivity|].
    split; [exact Hlast|].
    split; [cbn [contiguous period_end]; split; [lia|exact Hcont]|].
    constructor.
    + cbn [customer_id invoice_date amount is_refund period_start period_end].
      assert (month_index (Z.max start (month_start b)) = b) as Em
          by (apply month_index_of; lia).
      assert (month_index (month_start (b + 1) - 1) = b) as Ee
          by (apply month_index_of; lia).
      rewrite Em, Ee.
      split; [reflexivity|]. split; [reflexivity|]. split; [reflexivity|].
      split; [reflexivity|]. split; [lia|].
      split; [cbn [length] in *; lia|]. reflexivity.
    + eapply Forall_impl; [|exact Hall]. cbv beta.
      intros x (A & B & C & D & E & F & G).
      split; [exact A|]. split; [exact B|]. split; [exact C|]. split; [exact D|].
      split; [exact E|]. split; [|exact G].
      rewrite F. cbn [length]. lia.
Qed.

(** X2. A period billed monthly from [start] to [stop] gets exactly one
    invoice for each calendar month it touches: the first window opens on
    [start], the last one closes on [stop], each window opens the day
    after the one before closes, and every invoice is issued on the first
    day of its window, stays within one calendar month and bills the
    rounded monthly price. *)
Theorem monthly_invoices_tile (cid : string) (price : Q) (start stop : Z) :
  start <= stop ->
  let rows := monthly_rows cid price start stop (_month_range start stop) in
  Z.of_nat (length rows) = month_index stop - month_index start + 1 /\
  hd stop (map period_start rows) = start /\
  last (map period_end rows) start = stop /\
  contiguous rows /\
  Forall (fun i => customer_id i = cid /\ invoice_date i = period_start i /\
                   amount i = round2 price /\ is_refund i = false /\
                   period_start i <= period_end i /\
                   month_index (period_end i) = month_index (period_start i)) rows.
Proof.
  intros Hle. rewrite month_range_starts.
  pose proof (month_index_mono start stop Hle) as Hm.
  set (a := month_index start) in *. set (j := month_index stop) in *.
  replace (Z.to_nat (j - a + 1)) with (S (Z.to_nat (j - a))) by lia.
  pose proof (monthly_rows_tile cid price start stop (Z.to_nat (j - a)) a Hle
                                ltac:(fold a; lia) ltac:(fold j; lia)) as T.
  cbv zeta in T |- *.
  set (rows := monthly_rows cid price start stop (month_starts a (S (Z.to_nat (j - a))))) in *.
  destruct T as (Hlen & Hhd & Hlast & Hcont & Hall).
  pose proof (in_month start) as Ia. fold a in Ia.
  split; [rewrite Hlen; lia|].
  split; [rewrite Hhd; lia|].
  split; [exact Hlast|]. split; [exact Hcont|].
  eapply Forall_impl; [|exact Hall]. cbv beta.
  intros x (A & B & C & D & E & F & G).
  split; [exact A|]. split; [exact B|]. split; [exact C|]. split; [exact D|].
  split; [exact E|exact G].
Qed.

Lemma monthly_invoices_tile_witness :
  let rows := monthly_rows "C0001" 50.00 (ymd2ord 2024 2 1) (ymd2ord 2024 4 30)
                           (_month_range (ymd2ord 2024 2 1) (ymd2ord 2024 4 30)) in
  Z.of_nat (length rows) = 3 /\ contiguous rows.
Proof.
  pose proof (monthly_invoices_tile "C0001" 50.00 (ymd2ord 2024 2 1) (ymd2ord 2024 4 30)
                                    ltac:(vm_compute; discriminate)) as T.
  cbv zeta in T. destruct T as (A & _ & _ & B & _).
  split; [rewrite A; vm_compute; reflexivity | exact B].
Defined.

Lemma period_rows_annual (cfg : InvoicesConfig) (now : Z) (r : Period)
      (g g' : Generator) (u : Q) (start stop raw_end covered_end n : Z) :
  start = start_date r ->
  raw_end = match end_date r with
            | Some e => e
            | None => end_of_prev_month now
            end ->
  stop = Z.min raw_end (end_of_prev_month now) ->
  covered_end = Z.min (add_months start 12 - 1) stop ->
  n = month_index covered_end - month_index start + 1 ->
  random g = Ok (u, g') ->
  Qlt_bool u (pct_annual_prepay cfg) = true ->
  start <= stop -> 1 <= n ->
  period_rows cfg now r g
  = Ok ([mkInvoice (Subscriptions.customer_id r) start
                   (round2 (price_mrr r * inject_Z n)) false start covered_end], g').
Proof.
  intros Es Er Est Ec En Hu Hlt Hle Hn.
  unfold period_rows. rewrite <- Es, <- Er. cbv zeta. rewrite <- Est.
  destruct (Z.ltb_spec stop start) as [L|L]; [lia|].
  rewrite (SubscriptionsFacts.bind_ok _ _ _ _ _ Hu). rewrite Hlt. rewrite <- Ec.
  replace (Z.max 1 ((year covered_end - year start) * 12
                    + (month covered_end - month start) + 1)) with n
    by (unfold month_index in *; lia).
  reflexivity.
Qed.

(** X3. When the cadence draw falls below [pct_annual_prepay], a billable
    period gets a single invoice, issued on its first day and covering up
    to a year; it bills the monthly price once for every calendar month
    the window touches: between 1 and 13 months, and, when a whole year
    is billable, 12 months if the period starts on the first day of a
    month and 13 months otherwise. *)
Theorem annual_invoice_months (cfg : InvoicesConfig) (now : Z) (r : Period)
        (g g' : Generator) (u : Q) :
  let start := start_date r in
  let stop := Z.min (match end_date r with
                     | Some e => e
                     | None => end_of_prev_month now
                     end) (end_of_prev_month now) in
  let covered_end := Z.min (add_months start 12 - 1) stop in
  let n := month_index covered_end - month_index start + 1 in
  random g = Ok (u, g') ->
  Qlt_bool u (pct_annual_prepay cfg) = true ->
  start <= stop ->
  period_rows cfg now r g
  = Ok ([mkInvoice (Subscriptions.customer_id r) start
                   (round2 (price_mrr r * inject_Z n)) false start covered_end], g') /\
  1 <= n <= 13 /\
  (add_months start 12 - 1 <= stop -> n = if day start =? 1 then 12 else 13).
Proof.
  intros start stop covered_end n Hu Hlt Hle.
  pose proof (add_months_ge start 12 ltac:(lia)) as Hge.
  assert (start <= covered_end) as Hsc by (unfold covered_end; lia).
  pose proof (month_index_mono start covered_end Hsc) as Hmono.
  assert (add_months start 12 - 1 < month_start (month_index start + 13)) as Hup.
  { unfold add_months. cbv zeta.
    replace (month_index start + 13) with (month_index start + 12 + 1) by lia.
    rewrite month_start_succ. unfold month_length. lia. }
  assert (month_index covered_end <= month_index start + 12) as Hhi.
  { pose proof (in_month covered_end) as Ic.
    destruct (Z.le_gt_cases (month_index covered_end) (month_index start + 12)) as [L|L];
      [exact L|].
    pose proof (month_start_le (month_index start + 13) (month_index covered_end)
                               ltac:(lia)).
    unfold covered_end in *. lia. }
  split; [|split].
  - apply (period_rows_annual cfg now r g g' u start stop _ covered_end n
                              eq_refl eq_refl eq_refl eq_refl eq_refl Hu Hlt Hle).
    unfold n. lia.
  - lia.
  - intros Hfull. unfold n, covered_end. rewrite Z.min_l by exact Hfull.
    destruct (date_decompose start) as [Hs Hd].
    pose proof (days_in_month_ge ((month_index start + 12) / 12)
                                 ((month_index start + 12) mod 12 + 1)) as Hdim.
    pose proof (month_length_ge (month_index start + 11)) as Hl11.
    pose proof (month_start_succ (month_index start + 11)) as Hs11.
    replace (month_index start + 11 + 1) with (month_index start + 12) in Hs11 by lia.
    pose proof (month_start_succ (month_index start + 12)) as Hs12.
    unfold month_length in Hs12.
    destruct (Z.eqb_spec (day start) 1) as [E|E].
    + assert (month_index (add_months start 12 - 1) = month_index start + 11) as ->.
      { apply month_index_of. unfold add_months. cbv zeta.
        replace (month_index start + 11 + 1) with (month_index start + 12) by lia.
        rewrite E. lia. }
      lia.
    + assert (month_index (add_months start 12 - 1) = month_index start + 12) as ->.
      { apply month_index_of. unfold add_months. cbv zeta. lia. }
      lia.
Qed.

Lemma annual_invoice_months_witness :
  map (fun i => (period_end i, Qeq_bool (amount i) 260))
      (Samples.rows_of_run (period_rows default_config Samples.now_2024_06_05
                                        Samples.since_mid_january Samples.pays_at_once))
  = [(ymd2ord 2024 1 14, true)].
Proof.
  edestruct (annual_invoice_months default_config Samples.now_2024_06_05
               Samples.since_mid_january Samples.pays_at_once) as (R & _ & _).
  - reflexivity.
  - vm_compute. reflexivity.
  - vm_compute. discriminate.
  - rewrite R. vm_compute. reflexivity.
Defined.

Lemma period_rows_total (cfg : InvoicesConfig) (now : Z) (r : Period) (g : Generator) :
  exists rows g', period_rows cfg now r g = Ok (rows, g').
Proof.
  unfold period_rows. cbv zeta.
  destruct (_ <? start_date r); [unfold ret; eauto|].
  destruct (random_total g) as (u & g1 & Eu).
  rewrite (SubscriptionsFacts.bind_ok _ _ _ _ _ Eu).
  destruct (Qlt_bool u (pct_annual_prepay cfg)); unfold ret; eauto.
Qed.

(** The credit memo the refund loop builds for an invoice and a drawn
    fraction. *)
Lemma refund_rows_spec (invoices : list Invoice) (idxs : list nat) :
  forall g,
    Forall (fun idx => (idx < length invoices)%nat) idxs ->
    exists rows g',
      refund_rows invoices idxs g = Ok (rows, g') /\
      Forall2 (fun idx r =>
                 exists base pct,
                   nth_error invoices idx = Some base /\
                   (0.05 <= pct <= 0.20)%Q /\
                   r = mkInvoice (customer_id base) (invoice_date base)
                                 (round2 (- amount base * pct)) true
                                 (period_start base) (period_end base))
              idxs rows.
Proof.
  induction idxs as [|idx rest IH]; intros g Hall; cbn [refund_rows].
  - exists [], g. split; [reflexivity|constructor].
  - pose proof (Forall_inv Hall) as Hidx. cbv beta in Hidx.
    pose proof (Forall_inv_tail Hall) as Hrest.
    destruct (nth_error invoices idx) as [base|] eqn:E;
      [|apply nth_error_None in E; lia].
    destruct (uniform_total (fst (refund_pct_of_invoice default_config))
                            (snd (refund_pct_of_invoice default_config)) g)
      as (pct & g1 & Ep).
    destruct (IH g1 Hrest) as (more & g2 & Em & Hm).
    rewrite (SubscriptionsFacts.bind_ok _ _ _ _ _ Ep).
    rewrite (SubscriptionsFacts.bind_ok _ _ _ _ _ Em).
    eexists _, g2. split; [reflexivity|].
    constructor; [|exact Hm].
    exists base, pct. split; [exact E|]. split; [|reflexivity].
    apply uniform_inv in Ep; [exact Ep|]. now compute.
Qed.

Lemma generate_spec (cfg : InvoicesConfig) (now : Z) (subs : list Period) (g : Generator) :
  exists std g1 idxs refunds g',
    for_each (period_rows cfg now) subs g = Ok (std, g1) /\
    generate cfg now subs g = Ok (std ++ refunds, g') /\
    Z.of_nat (length refunds)
    = Qfloor (inject_Z (Z.of_nat (length std)) * refund_rate default_config) /\
    NoDup idxs /\
    Forall2 (fun idx r =>
               exists base pct,
                 nth_error std idx = Some base /\
                 (0.05 <= pct <= 0.20)%Q /\
                 r = mkInvoice (customer_id base) (invoice_date base)
                               (round2 (- amount base * pct)) true
                               (period_start base) (period_end base))
            idxs refunds.
Proof.
  destruct (for_each_total (period_rows cfg now) subs
              (fun r g _ => period_rows_total cfg now r g) g) as (std & g1 & Estd).
  exists std, g1. unfold generate.
  rewrite (SubscriptionsFacts.bind_ok _ _ _ _ _ Estd). cbv zeta.
  set (len := length std).
  set (n := Qfloor (inject_Z (Z.of_nat len) * refund_rate default_config)).
  assert (Hn0 : 0 <= n).
  { unfold n. rewrite <- (Qfloor_Z 0). apply Qfloor_resp_le.
    assert (0 <= inject_Z (Z.of_nat len))%Q
      by (change 0%Q with (inject_Z 0); rewrite <- Zle_Qle; lia).
    change (refund_rate default_config) with 0.03%Q.
    change (inject_Z 0) with 0%Q. lra. }
  assert (Hnl : n <= Z.of_nat len).
  { unfold n. rewrite <- (Qfloor_Z (Z.of_nat len)) at 2. apply Qfloor_resp_le.
    assert (0 <= inject_Z (Z.of_nat len))%Q
      by (change 0%Q with (inject_Z 0); rewrite <- Zle_Qle; lia).
    change (refund_rate default_config) with 0.03%Q.
    change (inject_Z 0) with 0%Q. lra. }
  destruct ((0 <? n) && negb (Nat.eqb len 0)) eqn:Eb.
  - destruct (choice_no_replace_spec (Z.to_nat n) (seq 0 len) g1) as
        (idxs & g2 & Ei & Hl & Hnd & Hin).
    { rewrite length_seq. lia. }
    { apply seq_NoDup. }
    destruct (refund_rows_spec std idxs g2) as (refunds & g3 & Er & Hr).
    { apply Forall_forall. intros i Hi. apply Hin in Hi. apply in_seq in Hi.
      fold len. lia. }
    exists idxs, refunds, g3.
    rewrite (SubscriptionsFacts.bind_ok _ _ _ _ _ Ei).
    rewrite (SubscriptionsFacts.bind_ok _ _ _ _ _ Er).
    split; [exact Estd|]. split; [reflexivity|].
    split; [rewrite <- (Forall2_length Hr), Hl; lia|].
    split; [exact Hnd|exact Hr].
  - exists [], [], g1. rewrite app_nil_r.
    split; [exact Estd|]. split; [reflexivity|].
    split; [|split; [constructor|constructor]].
    cbn [length]. apply andb_false_iff in Eb as [Eb|Eb].
    + apply Z.ltb_ge in Eb. lia.
    + apply negb_false_iff, Nat.eqb_eq in Eb.
      unfold n. rewrite Eb. reflexivity.
Qed.

Lemma monthly_rows_rows (cid : string) (price : Q) (start stop : Z) (months : list Z) :
  Forall (fun i => customer_id i = cid /\ is_refund i = false /\ amount i = round2 price)
         (monthly_rows cid price start stop months).
Proof.
  induction months as [|m0 rest IH]; [constructor|].
  cbn [monthly_rows]. unfold _coverage_window_for_month.
  destruct (_ <? _); [exact IH|].
  constructor; [|exact IH]. cbn [customer_id is_refund amount].
  split; [reflexivity|]. split; reflexivity.
Qed.

(** The standard invoices of a period name its customer and, at a price
    of 5 or more, bill 5 or more. *)
Lemma period_rows_rows (cfg : InvoicesConfig) (now : Z) (r : Period)
      (g g' : Generator) (rows : list Invoice) :
  period_rows cfg now r g = Ok (rows, g') ->
  Forall (fun i => customer_id i = Subscriptions.customer_id r /\
                   is_refund i = false /\
                   (5 <= price_mrr r -> 5 <= amount i)%Q) rows.
Proof.
  unfold period_rows. cbv zeta.
  destruct (_ <? start_date r); intros H.
  - apply ret_inv in H as [-> _]. constructor.
  - apply bind_inv in H as (u & g1 & _ & H).
    destruct (Qlt_bool u (pct_annual_prepay cfg)); apply ret_inv in H as [-> _].
    + constructor; [|constructor]. cbn [customer_id is_refund amount].
      split; [reflexivity|]. split; [reflexivity|]. intros Hp.
      apply round2_ge5.
      match goal with |- (_ <= _ * inject_Z ?k)%Q => set (months := k) end.
      assert (1 <= inject_Z months)%Q
        by (change 1%Q with (inject_Z 1); rewrite <- Zle_Qle; unfold months; lia).
      nra.
    + eapply Forall_impl; [|apply monthly_rows_rows]. cbv beta.
      intros i (A & B & C). split; [exact A|]. split; [exact B|].
      intros Hp. rewrite C. apply round2_ge5. exact Hp.
Qed.

Lemma period_rows_nonempty (cfg : InvoicesConfig) (now : Z) (r : Period)
      (g g' : Generator) (rows : list Invoice) :
  start_date r <= Z.min (match end_date r with
                         | Some e => e
                         | None => end_of_prev_month now
                         end) (end_of_prev_month now) ->
  period_rows cfg now r g = Ok (rows, g') -> rows <> [].
Proof.
  unfold period_rows. cbv zeta. intros Hle.
  destruct (Z.ltb_spec (Z.min (match end_date r with
                               | Some e => e
                               | None => end_of_prev_month now
                               end) (end_of_prev_month now)) (start_date r)) as [L|L];
    [lia|].
  intros H. apply bind_inv in H as (u & g1 & _ & H).
  destruct (Qlt_bool u (pct_annual_prepay cfg)); apply ret_inv in H as [-> _];
    [discriminate|].
  rewrite month_range_starts.
  match goal with |- monthly_rows ?c ?p ?a ?b _ <> [] =>
    pose proof (month_index_mono a b L) as Hm;
    pose proof (monthly_rows_tile c p a b (Z.to_nat (month_index b - month_index a))
                                  (month_index a) L ltac:(lia) ltac:(lia)) as T;
    replace (Z.to_nat (month_index b - month_index a + 1))
      with (S (Z.to_nat (month_index b - month_index a))) by lia
  end.
  cbv zeta in T. destruct T as (Hlen & _). intros E. rewrite E in Hlen. discriminate Hlen.
Qed.

Lemma for_each_nonempty {A B} (f : A -> M (list B)) (rows : list A) :
  forall g out g',
    for_each f rows g = Ok (out, g') ->
    Exists (fun r => forall g1 o g2, f r g1 = Ok (o, g2) -> o <> []) rows ->
    out <> [].
Proof.
  induction rows as [|r rest IH]; intros g out g' H Hex; [inversion Hex|].
  cbn [for_each] in H.
  apply bind_inv in H as (o1 & g1 & H1 & H).
  apply bind_inv in H as (o2 & g2 & H2 & H).
  apply ret_inv in H as [-> _].
  apply Exists_cons in Hex as [Hr|Hex].
  - specialize (Hr _ _ _ H1). destruct o1; [contradiction|discriminate].
  - specialize (IH _ _ _ H2 Hex). destruct o1; [exact IH|discriminate].
Qed.

Lemma for_each_skipped {A B} (f : A -> M (list B)) (rows : list A) (g : Generator) :
  Forall (fun r => f r g = Ok ([], g)) rows -> for_each f rows g = Ok ([], g).
Proof.
  induction rows as [|r rest IH]; intros H; cbn [for_each]; [reflexivity|].
  rewrite (SubscriptionsFacts.bind_ok _ _ _ _ _ (Forall_inv H)).
  rewrite (SubscriptionsFacts.bind_ok _ _ _ _ _ (IH (Forall_inv_tail H))).
  reflexivity.
Qed.

(** X4. The invoice stage never fails while it builds its rows, whatever
    the subscriptions and the random words: it returns the standard
    invoices, none of them flagged as a refund, followed by the credit
    memos, all flagged. The credit memos number the integer part of
    [refund_rate] times the number of standard invoices; they credit
    pairwise different invoices, and each one copies the customer, the
    date and the window of its invoice and amounts to minus the invoice
    amount times a fraction between 5% and 20%, rounded to the cent. *)
Theorem refunds_credit_distinct_invoices (cfg : InvoicesConfig) (now : Z)
        (subs : list Period) (g : Generator) :
  exists std idxs refunds g',
    generate cfg now subs g = Ok (std ++ refunds, g') /\
    Forall (fun i => is_refund i = false) std /\
    Forall (fun i => is_refund i = true) refunds /\
    Z.of_nat (length refunds)
    = Qfloor (inject_Z (Z.of_nat (length std)) * refund_rate default_config) /\
    NoDup idxs /\
    Forall2 (fun idx r =>
               exists base pct,
                 nth_error std idx = Some base /\
                 (0.05 <= pct <= 0.20)%Q /\
                 r = mkInvoice (customer_id base) (invoice_date base)
                               (round2 (- amount base * pct)) true
                               (period_start base) (period_end base))
            idxs refunds.
Proof.
  destruct (generate_spec cfg now subs g)
    as (std & g1 & idxs & refunds & g' & Estd & Eg & Hlen & Hnd & Hr).
  exists std, idxs, refunds, g'.
  split; [exact Eg|]. split; [|split; [|split; [exact Hlen|split; [exact Hnd|exact Hr]]]].
  - apply Forall_forall. intros i Hi.
    destruct (for_each_inv _ _ _ _ _ Estd i Hi) as (r & ga & rows & gb & _ & Er & Hin).
    apply period_rows_rows in Er.
    exact (proj1 (proj2 (proj1 (Forall_forall _ _) Er i Hin))).
  - clear - Hr. induction Hr as [|idx r idxs' refunds' (base & pct & _ & _ & ->) _ IH];
      constructor; [reflexivity|exact IH].
Qed.

Lemma invoice_ids_in_order (invoices : list Invoice) :
  map invoice_id (with_ids invoices) = make_ids "I" 6 1 (length invoices).
Proof.
  unfold with_ids. rewrite map_map. cbn [invoice_id].
  change (fun x : string * Invoice => fst x) with (@fst string Invoice).
  apply map_fst_combine, make_ids_length.
Qed.

Lemma with_ids_length (invoices : list Invoice) :
  length (with_ids invoices) = length invoices.
Proof.
  unfold with_ids. rewrite length_map, length_combine, make_ids_length. lia.
Qed.

Lemma generate_rows (cfg : InvoicesConfig) (now : Z) (subs : list Period)
      (valid : list string) (g g' : Generator) (invoices : list Invoice) :
  Forall (fun r => In (Subscriptions.customer_id r) valid /\ (5 <= price_mrr r)%Q) subs ->
  generate cfg now subs g = Ok (invoices, g') ->
  Forall (fun i => In (customer_id i) valid /\ ~ (amount i == 0)%Q) invoices.
Proof.
  intros Hsubs Hg.
  destruct (generate_spec cfg now subs g)
    as (std & g1 & idxs & refunds & g2 & Estd & Eg & _ & _ & Hr).
  rewrite Eg in Hg.
  apply (f_equal (fun o => match o with Ok (l, _) => l | Raise _ => [] end)) in Hg.
  cbv beta iota in Hg. subst invoices.
  assert (Hstd : Forall (fun i => In (customer_id i) valid /\ (5 <= amount i)%Q) std).
  { apply Forall_forall. intros i Hi.
    destruct (for_each_inv _ _ _ _ _ Estd i Hi) as (r & ga & rows & gb & Hin & Er & Hi').
    apply period_rows_rows in Er.
    destruct (proj1 (Forall_forall _ _) Er i Hi') as (A & _ & C).
    destruct (proj1 (Forall_forall _ _) Hsubs r Hin) as (V & P).
    split; [rewrite A; exact V|exact (C P)]. }
  apply Forall_app. split.
  - eapply Forall_impl; [|exact Hstd]. cbv beta. intros i [A B]. split; [exact A|].
    intros E. rewrite E in B. revert B. now compute.
  - clear - Hr Hstd.
    induction Hr as [|idx r idxs' refunds' (base & pct & Eb & Hp & ->) _ IH];
      constructor; [|exact IH].
    cbn [customer_id amount].
    destruct (proj1 (Forall_forall _ _) Hstd base (nth_error_In _ _ Eb)) as [A B].
    split; [exact A|].
    pose proof (round2_near (- amount base * pct)) as N.
    intros E. rewrite E in N.
    assert (5 * 0.05 <= amount base * pct)%Q by nra.
    assert (- amount base * pct == - (amount base * pct))%Q as X by ring.
    rewrite X in N. lra.
Qed.

(** X6. Given a customers sheet and subscriptions whose customers are on
    it, priced 5 or more, at least one of which has billable history (it
    starts no later than the last day of the previous month and no later
    than its end), [main] passes its three acceptance checks and returns
    a table: it is not empty, its identifiers are I000001, I000002, ... in
    row order, and every row names a customer of the sheet and has a
    non-zero amount. *)
Theorem invoice_sheet_written (bg : BitGenerator) (now : Z)
        (customers : list Customers.Customer) (subs : list Subscription) :
  Forall (fun s => In (Subscriptions.customer_id (period s))
                      (map Customers.customer_id customers) /\
                   (5 <= price_mrr (period s))%Q) subs ->
  Exists (fun s => start_date (period s)
                   <= Z.min (match end_date (period s) with
                             | Some e => e
                             | None => end_of_prev_month now
                             end) (end_of_prev_month now)) subs ->
  exists table,
    main bg now customers subs = Ok table /\
    table <> [] /\
    map invoice_id table = make_ids "I" 6 1 (length table) /\
    Forall (fun row => In (customer_id (invoice row))
                          (map Customers.customer_id customers) /\
                       ~ (amount (invoice row) == 0)%Q) table.
Proof.
  intros Hall Hex.
  destruct subs as [|s0 subs']; [inversion Hex|].
  destruct customers as [|c0 customers'].
  { apply Forall_inv in Hall. destruct Hall as [[] _]. }
  set (customers := c0 :: customers') in *. set (subs := s0 :: subs') in *.
  set (valid := map Customers.customer_id customers) in *.
  set (g := default_rng bg (random_seed default_config)).
  destruct (generate_spec default_config now (map period subs) g)
    as (std & g1 & idxs & refunds & g2 & Estd & Eg & _).
  assert (Hrows : Forall (fun i => In (customer_id i) valid /\ ~ (amount i == 0)%Q)
                         (std ++ refunds)).
  { apply (generate_rows default_config now (map period subs) valid g g2); [|exact Eg].
    apply Forall_map. exact Hall. }
  assert (Hne : std ++ refunds <> []).
  { assert (std <> []) as N.
    { apply (for_each_nonempty _ _ _ _ _ Estd).
      apply Exists_exists in Hex as (s & Hin & Hs).
      apply Exists_exists. exists (period s). split; [apply in_map; exact Hin|].
      intros ga o gb Ho. exact (period_rows_nonempty _ _ _ _ _ _ Hs Ho). }
    destruct std; [contradiction|discriminate]. }
  set (invoices := std ++ refunds) in *.
  set (sorted := sort_values invoice_leb invoices).
  assert (Hsorted : Forall (fun i => In (customer_id i) valid /\ ~ (amount i == 0)%Q) sorted).
  { apply Forall_forall. intros i Hi. apply sort_values_In in Hi.
    exact (proj1 (Forall_forall _ _) Hrows i Hi). }
  assert (Hlen : sorted <> []).
  { destruct invoices as [|i0 rest] eqn:E; [contradiction|].
    intros C. assert (In i0 sorted) as Hin by (apply sort_values_In; left; reflexivity).
    rewrite C in Hin. destruct Hin. }
  assert (U : is_unique (map invoice_id (with_ids sorted)) = true)
    by (rewrite invoice_ids_in_order; apply is_unique_NoDup, make_ids_NoDup; lia).
  assert (F : forallb (fun i => mem_string (customer_id i) valid) sorted = true).
  { apply forallb_forall. intros i Hi. apply mem_string_In.
    exact (proj1 (proj1 (Forall_forall _ _) Hsorted i Hi)). }
  assert (Z0 : forallb (fun i => negb (Qeq_bool (amount i) 0)) sorted = true).
  { apply forallb_forall. intros i Hi. apply negb_true_iff.
    destruct (Qeq_bool (amount i) 0) eqn:Q; [|reflexivity].
    apply Qeq_bool_iff in Q.
    destruct (proj2 (proj1 (Forall_forall _ _) Hsorted i Hi) Q). }
  exists (with_ids sorted).
  split.
  - unfold main. cbv zeta. fold customers subs. unfold customers at 1, subs at 1.
    fold customers subs g.
    rewrite (SubscriptionsFacts.bind_ok _ _ _ _ _ Eg). fold invoices.
    destruct invoices as [|i0 rest] eqn:E; [contradiction|].
    fold sorted.
    rewrite (SubscriptionsFacts.bind_ok _ _ _ _ _ (lift_assert_ok _ _ g2 U)).
    fold valid.
    rewrite (SubscriptionsFacts.bind_ok _ _ _ _ _ (lift_assert_ok _ _ g2 F)).
    rewrite (SubscriptionsFacts.bind_ok _ _ _ _ _ (lift_assert_ok _ _ g2 Z0)).
    reflexivity.
  - split; [|split].
    + intros C. apply (f_equal (@length _)) in C. rewrite with_ids_length in C.
      destruct sorted; [contradiction|discriminate C].
    + rewrite invoice_ids_in_order, with_ids_length. reflexivity.
    + apply Forall_forall. intros row Hrow. apply with_ids_invoice in Hrow.
      exact (proj1 (Forall_forall _ _) Hsorted _ Hrow).
Qed.

Lemma invoice_sheet_written_witness :
  exists table,
    main Samples.all_zero Samples.now_2024_06_05 [Samples.c0001]
         [mkSubscription "S000001" Samples.feb_to_apr] = Ok table /\
    table <> [].
Proof.
  destruct (invoice_sheet_written Samples.all_zero Samples.now_2024_06_05 [Samples.c0001]
              [mkSubscription "S000001" Samples.feb_to_apr]) as (table & E & N & _).
  - constructor; [|constructor]. split; [left; reflexivity|now compute].
  - left. vm_compute. discriminate.
  - exists table. split; [exact E|exact N].
Defined.

(** X7. When both sheets have rows but no subscription has billable
    history yet (each starts after the last day of the previous month, or
    after its own end), no invoice is built, no random word is drawn for
    the cadence, and [main] stops with [KeyError('customer_id')] raised by
    sorting a frame that has no columns: no sheet is written. *)
Theorem no_billable_history_fails (bg : BitGenerator) (now : Z)
        (customers : list Customers.Customer) (subs : list Subscription) :
  customers <> [] -> subs <> [] ->
  Forall (fun s => Z.min (match end_date (period s) with
                          | Some e => e
                          | None => end_of_prev_month now
                          end) (end_of_prev_month now)
                   < start_date (period s)) subs ->
  generate default_config now (map period subs) (default_rng bg (random_seed default_config))
  = Ok ([], default_rng bg (random_seed default_config)) /\
  main bg now customers subs = Raise (KeyError "customer_id").
Proof.
  intros Hc Hs Hall.
  set (g := default_rng bg (random_seed default_config)).
  assert (Eg : generate default_config now (map period subs) g = Ok ([], g)).
  { unfold generate.
    rewrite (SubscriptionsFacts.bind_ok _ _ _ _ _
               (for_each_skipped (period_rows default_config now) (map period subs) g
                  ltac:(apply Forall_map; eapply Forall_impl; [|exact Hall]; cbv beta;
                        intros s L; unfold period_rows; cbv zeta;
                        apply Z.ltb_lt in L; rewrite L; reflexivity))).
    reflexivity. }
  split; [exact Eg|].
  destruct customers as [|c0 customers']; [contradiction|].
  destruct subs as [|s0 subs']; [contradiction|].
  unfold main. cbv zeta. fold g.
  rewrite (SubscriptionsFacts.bind_ok _ _ _ _ _ Eg). reflexivity.
Qed.

Lemma no_billable_history_fails_witness :
  main Samples.all_zero Samples.now_2024_06_05 [Samples.c0001]
       [mkSubscription "S000001" Samples.since_june_3] = Raise (KeyError "customer_id").
Proof.
  apply (no_billable_history_fails Samples.all_zero Samples.now_2024_06_05 [Samples.c0001]
           [mkSubscription "S000001" Samples.since_june_3]).
  - discriminate.
  - discriminate.
  - constructor; [|constructor]. vm_compute. reflexivity.
Defined.

End InvoicesMore.

(** ** Stage 2: allocated periods, the eager default and the overlap check *)

Module SubscriptionsMore.
Import Calendar Num Rng Table Subscriptions.
Import CalendarFacts CalendarMore NumFacts RngFacts RngMore TableFacts TableMore.
Import SubscriptionsFacts.
Local Open Scope gen_scope.

Lemma choice_with_mix_inv (mix : list (string * Q)) (g g' : Generator) (label : string) :
  _choice_with_mix mix g = Ok (label, g') -> In label (map fst mix).
Proof.
  unfold _choice_with_mix, choice. cbv zeta. intros H.
  apply bind_inv in H as (ps & g1 & _ & H).
  destruct (map fst mix) as [|a0 rest]; [discriminate H|].
  apply bind_inv in H as (u & g2 & _ & H). apply ret_inv in H as [-> _].
  unfold pick.
  destruct (nth_in_or_default (searchsorted_right (normalized_cdf ps) u) (a0 :: rest) a0)
    as [Hin | ->]; [exact Hin | now left].
Qed.

Lemma sample_price_plan (plan : string) (cfg : SubsConfig) (g g' : Generator) (price : Q) :
  _sample_price_mrr plan cfg g = Ok (price, g') ->
  exists band, dict_lookup plan (plan_prices cfg) = Ok band.
Proof.
  unfold _sample_price_mrr. intros H.
  apply bind_inv in H as (band & g1 & Hb & _).
  apply lift_inv in Hb as [Hb _]. exists band. exact Hb.
Qed.

Lemma two_rows_inv {A} (a b p q : A) : [a; b] = [p; q] -> a = p /\ b = q.
Proof. intros E. inversion E. split; reflexivity. Qed.

Lemma one_row_inv {A} (a p : A) (l : list A) : hd_error (a :: l) = Some p -> a = p.
Proof. cbn [hd_error]. intros E. now inversion E. Qed.

(** What the allocator returns, with the ranges its draws come from. *)
Lemma gen_periods_detail (now : Z) (row : Customers.Customer) (cfg : SubsConfig)
      (g g' : Generator) (ps : list Period) :
  _gen_periods_for_customer now row cfg g = Ok (ps, g') ->
  exists delay m1 pl1 pr1 a1 smb,
    start_delay_days_min cfg <= delay <= start_delay_days_max cfg /\
    min_months cfg <= m1 <= max_months cfg /\
    (5 <= pr1)%Q /\ cents pr1 /\
    dict_lookup "SMB" (segment_plan_mix cfg) = Ok smb /\
    In pl1 (map fst (dict_get (Customers.segment row) (segment_plan_mix cfg) smb)) /\
    (exists band, dict_lookup pl1 (plan_prices cfg) = Ok band) /\
    (ps = [mkPeriod (Customers.customer_id row) (Customers.signup_date row + delay)
                    (if a1 : bool then None
                     else Some (add_months (Customers.signup_date row + delay) m1 - 1))
                    pl1 pr1
                    (status_of (if a1 then None
                                else Some (add_months (Customers.signup_date row + delay) m1
                                           - 1)))] \/
     (a1 = false /\
      exists gap m2 pl2 pr2 a2,
        reactivation_gap_min cfg <= gap <= reactivation_gap_max cfg /\
        min_months cfg <= m2 <= max_months cfg /\
        (5 <= pr2)%Q /\ cents pr2 /\
        In pl2 (map fst (dict_get (Customers.segment row) (segment_plan_mix cfg) smb)) /\
        (exists band, dict_lookup pl2 (plan_prices cfg) = Ok band) /\
        ps = [mkPeriod (Customers.customer_id row) (Customers.signup_date row + delay)
                       (Some (add_months (Customers.signup_date row + delay) m1 - 1))
                       pl1 pr1 "canceled";
              mkPeriod (Customers.customer_id row)
                       (add_months (Customers.signup_date row + delay) m1 - 1 + gap)
                       (if a2 : bool then None
                        else Some (add_months (add_months (Customers.signup_date row + delay)
                                                          m1 - 1 + gap) m2 - 1))
                       pl2 pr2
                       (status_of (if a2 then None
                                   else Some (add_months
                                                (add_months (Customers.signup_date row + delay)
                                                            m1 - 1 + gap) m2 - 1)))])).
Proof.
  unfold _gen_periods_for_customer. intros H.
  apply bind_inv in H as (delay & g1 & Hd & H). apply integers_inv in Hd.
  apply bind_inv in H as (m1 & g2 & Hm & H). apply integers_inv in Hm.
  apply bind_inv in H as (smb & g3 & Hsmb & H). apply lift_inv in Hsmb as [Hsmb _].
  apply bind_inv in H as (pl1 & g4 & Hpl & H). apply choice_with_mix_inv in Hpl.
  apply bind_inv in H as (pr1 & g5 & Hp & H).
  pose proof (sample_price_plan _ _ _ _ _ Hp) as Hband.
  apply sample_price_inv in Hp as [Hp5 Hpc].
  apply bind_inv in H as (u1 & g6 & _ & H).
  apply bind_inv in H as (wants & g7 & Hw & H).
  set (a1 := Qlt_bool u1 0.55 &&
             (add_months (Customers.signup_date row + delay) m1 - 1 >? normalize now)) in *.
  exists delay, m1, pl1, pr1, a1, smb.
  split; [lia|]. split; [lia|]. split; [exact Hp5|]. split; [exact Hpc|].
  split; [exact Hsmb|]. split; [exact Hpl|]. split; [exact Hband|].
  destruct wants.
  - right.
    apply bind_inv in H as (gap & g8 & Hg & H). apply integers_inv in Hg.
    apply bind_inv in H as (m2 & g9 & Hm2 & H). apply integers_inv in Hm2.
    apply bind_inv in H as (smb2 & g10 & Hsmb2 & H). apply lift_inv in Hsmb2 as [Hsmb2 _].
    assert (smb2 = smb) as -> by congruence.
    apply bind_inv in H as (pl2 & g11 & Hpl2 & H). apply choice_with_mix_inv in Hpl2.
    apply bind_inv in H as (pr2 & g12 & Hp2 & H).
    pose proof (sample_price_plan _ _ _ _ _ Hp2) as Hband2.
    apply sample_price_inv in Hp2 as [Hp25 Hp2c].
    apply bind_inv in H as (u2 & g13 & _ & H).
    apply ret_inv in H as [-> _].
    assert (Ea : a1 = false).
    { destruct a1; [|reflexivity]. cbn [negb] in Hw. now apply ret_inv in Hw as [? _]. }
    split; [exact Ea|].
    exists gap, m2, pl2, pr2,
      (Qlt_bool u2 0.65 &&
       (add_months (add_months (Customers.signup_date row + delay) m1 - 1 + gap) m2 - 1
        >? normalize now)).
    split; [lia|]. split; [lia|]. split; [exact Hp25|]. split; [exact Hp2c|].
    split; [exact Hpl2|]. split; [exact Hband2|].
    rewrite Ea. reflexivity.
  - left. apply ret_inv in H as [-> _]. reflexivity.
Qed.

(** X8. Whatever the configuration and the random words, a customer for
    whom the allocator returns gets one or two periods. Each carries the
    customer's identifier, a plan drawn from the mix of the customer's
    segment (or the SMB mix) that is priced in the catalog, a price of at
    least 5 in whole cents, the status "active" exactly when it has no end
    date, and an end date, if any, that is the day before the start moved
    on by a whole number of months within the configured range. The first
    period starts within the configured delay after signup; a second
    period exists only after the first has ended, and starts within the
    configured gap after that end. *)
Theorem allocated_periods_well_formed (now : Z) (row : Customers.Customer)
        (cfg : SubsConfig) (g g' : Generator) (ps : list Period) :
  _gen_periods_for_customer now row cfg g = Ok (ps, g') ->
  (1 <= length ps <= 2)%nat /\
  Forall (fun p =>
            customer_id p = Customers.customer_id row /\
            status p = status_of (end_date p) /\
            (5 <= price_mrr p)%Q /\ cents (price_mrr p) /\
            (exists smb, dict_lookup "SMB" (segment_plan_mix cfg) = Ok smb /\
                         In (plan p)
                            (map fst (dict_get (Customers.segment row)
                                               (segment_plan_mix cfg) smb))) /\
            (exists band, dict_lookup (plan p) (plan_prices cfg) = Ok band) /\
            (forall e, end_date p = Some e ->
                       exists m, min_months cfg <= m <= max_months cfg /\
                                 e = add_months (start_date p) m - 1)) ps /\
  (forall p, hd_error ps = Some p ->
             Customers.signup_date row + start_delay_days_min cfg <= start_date p
             <= Customers.signup_date row + start_delay_days_max cfg) /\
  (forall p q, ps = [p; q] ->
               exists e, end_date p = Some e /\
                         reactivation_gap_min cfg <= start_date q - e
                         <= reactivation_gap_max cfg).
Proof.
  intros H.
  apply gen_periods_detail in H
    as (delay & m1 & pl1 & pr1 & a1 & smb & Hd & Hm & Hp5 & Hpc & Hsmb & Hpl & Hband & H).
  remember (Customers.signup_date row + delay) as s1 eqn:Es1.
  remember (add_months s1 m1 - 1) as e1 eqn:Ee1.
  destruct H as [Hps | (Ea & gap & m2 & pl2 & pr2 & a2 & Hg & Hm2 & Hp25 & Hp2c & Hpl2
                        & Hband2 & Hps)].
  - subst ps. split; [cbn [length]; lia|]. split; [|split].
    + constructor; [|constructor].
      cbn [customer_id status end_date price_mrr plan start_date].
      split; [reflexivity|]. split; [reflexivity|]. split; [exact Hp5|]. split; [exact Hpc|].
      split; [exists smb; split; [exact Hsmb|exact Hpl]|]. split; [exact Hband|].
      intros e He. exists m1. split; [lia|].
      destruct a1; [discriminate He|].
      apply (f_equal (fun o => match o with Some x => x | None => 0 end)) in He.
      cbv beta iota in He. rewrite <- He. exact Ee1.
    + intros p Hp. apply one_row_inv in Hp as <-. cbn [start_date]. lia.
    + intros p q E. apply (f_equal (@length _)) in E. discriminate E.
  - remember (e1 + gap) as s2 eqn:Es2.
    remember (add_months s2 m2 - 1) as e2 eqn:Ee2.
    subst ps. split; [cbn [length]; lia|]. split; [|split].
    + constructor; [|constructor; [|constructor]];
        cbn [customer_id status end_date price_mrr plan start_date].
      * split; [reflexivity|]. split; [reflexivity|]. split; [exact Hp5|].
        split; [exact Hpc|].
        split; [exists smb; split; [exact Hsmb|exact Hpl]|]. split; [exact Hband|].
        intros e He. exists m1. split; [lia|].
        apply (f_equal (fun o => match o with Some x => x | None => 0 end)) in He.
        cbv beta iota in He. rewrite <- He. exact Ee1.
      * split; [reflexivity|]. split; [reflexivity|]. split; [exact Hp25|].
        split; [exact Hp2c|].
        split; [exists smb; split; [exact Hsmb|exact Hpl2]|]. split; [exact Hband2|].
        intros e He. exists m2. split; [lia|].
        destruct a2; [discriminate He|].
        apply (f_equal (fun o => match o with Some x => x | None => 0 end)) in He.
        cbv beta iota in He. rewrite <- He. exact Ee2.
    + intros p Hp. apply one_row_inv in Hp as <-. cbn [start_date]. lia.
    + intros p q E. apply two_rows_inv in E as [<- <-].
      cbn [start_date end_date].
      exists e1. split; [reflexivity|]. lia.
Qed.

Lemma allocated_periods_well_formed_witness :
  (1 <= length Samples.c0001_periods <= 2)%nat.
Proof.
  eapply (allocated_periods_well_formed Samples.now_2024_06_05 Samples.c0001
            default_config Samples.churn_and_return).
  vm_compute. reflexivity.
Defined.

Lemma dict_lookup_missing {V} (k : string) (d : list (string * V)) :
  ~ In k (map fst d) -> dict_lookup k d = Raise (KeyError k).
Proof.
  induction d as [|[k' v] r IH]; intros H; cbn [dict_lookup]; [reflexivity|].
  destruct (String.eqb_spec k k') as [->|N].
  - exfalso. apply H. left. reflexivity.
  - apply IH. intros C. apply H. right. exact C.
Qed.

(** X9. The fallback mix [cfg.segment_plan_mix["SMB"]] is looked up before
    the customer's own segment is tried: with valid draw ranges and no
    "SMB" entry in the configuration, the allocator raises
    [KeyError('SMB')] for every customer, also for one whose segment has
    a mix of its own. *)
Theorem smb_fallback_is_eager (now : Z) (row : Customers.Customer) (cfg : SubsConfig)
        (g : Generator) :
  start_delay_days_min cfg <= start_delay_days_max cfg ->
  min_months cfg <= max_months cfg ->
  ~ In "SMB"%string (map fst (segment_plan_mix cfg)) ->
  _gen_periods_for_customer now row cfg g = Raise (KeyError "SMB").
Proof.
  intros Hd Hm Hsmb. unfold _gen_periods_for_customer. cbv zeta.
  destruct (integers_total (start_delay_days_min cfg) (start_delay_days_max cfg + 1) g
                           ltac:(lia)) as (delay & g1 & E1).
  rewrite (bind_ok _ _ _ _ _ E1).
  destruct (integers_total (min_months cfg) (max_months cfg + 1) g1 ltac:(lia))
    as (m1 & g2 & E2).
  rewrite (bind_ok _ _ _ _ _ E2).
  unfold bind at 1. unfold lift. rewrite (dict_lookup_missing _ _ Hsmb). reflexivity.
Qed.

Lemma smb_fallback_is_eager_witness :
  In (Customers.segment Samples.c0002) (map fst (segment_plan_mix Samples.mid_only)) /\
  _gen_periods_for_customer Samples.now_2024_06_05 Samples.c0002 Samples.mid_only
                            Samples.churn_and_return = Raise (KeyError "SMB").
Proof.
  split; [left; reflexivity|].
  apply (smb_fallback_is_eager Samples.now_2024_06_05 Samples.c0002 Samples.mid_only
           Samples.churn_and_return).
  - vm_compute. discriminate.
  - vm_compute. discriminate.
  - intros [C|[]]. discriminate C.
Defined.

Lemma scan_open (l : list Period) :
  Forall (fun p => end_date p = None) l -> no_overlap_scan None l = true.
Proof.
  induction l as [|p r IH]; intros H; cbn [no_overlap_scan]; [reflexivity|].
  rewrite (Forall_inv H). exact (IH (Forall_inv_tail H)).
Qed.

(** X10. The overlap check never rejects open-ended periods: a group of
    periods none of which has an end date passes [_check] however many
    they are and whenever they start, although two or more of them are
    never temporally disjoint. *)
Theorem open_periods_pass_overlap_check (group : list Period) :
  Forall (fun p => end_date p = None) group ->
  _check group = true /\
  ((2 <= length group)%nat -> ~ disjoint (sort_values start_leb group)).
Proof.
  intros H. split.
  - unfold _check. apply scan_open, sort_values_Forall, H.
  - intros Hlen D.
    pose proof (sort_values_Forall start_leb _ _ H) as Hs.
    pose proof (sort_values_length start_leb group) as Hl.
    destruct (sort_values start_leb group) as [|p [|q r]];
      cbn [length] in Hl; try lia.
    destruct D as [(e & He & _) _]. rewrite (Forall_inv Hs) in He. discriminate He.
Qed.

Lemma open_periods_pass_overlap_check_witness :
  _check Samples.two_active = true /\
  ~ disjoint (sort_values start_leb Samples.two_active).
Proof.
  destruct (open_periods_pass_overlap_check Samples.two_active) as [A B].
  - constructor; [reflexivity|]. constructor; [reflexivity|constructor].
  - split; [exact A|]. apply B. cbn [length Samples.two_active]. lia.
Defined.

Lemma scan_ended (l : list Period) :
  Forall (fun p => end_date p <> None) l ->
  forall pe,
    no_overlap_scan (Some pe) l = true <->
    match l with [] => True | p :: _ => pe < start_date p end /\ disjoint l.
Proof.
  induction l as [|p r IH]; intros H pe; cbn [no_overlap_scan].
  - split; [intros _; split; exact I|reflexivity].
  - pose proof (Forall_inv H) as Hp. cbv beta in Hp.
    destruct (end_date p) as [e|] eqn:Ee; [|contradiction].
    destruct (Z.leb_spec (start_date p) pe) as [L|L].
    + split; [discriminate|]. intros [C _]. lia.
    + rewrite (IH (Forall_inv_tail H) e).
      destruct r as [|q r'].
      * cbn [disjoint]. split; [intros _; split; [lia|exact I]|intros _; split; exact I].
      * cbn [disjoint]. rewrite Ee. split.
        -- intros [A B]. split; [lia|]. split; [exists e; split; [reflexivity|exact A]|exact B].
        -- intros [_ [(e' & E' & A) B]].
           assert (e' = e) as -> by congruence. split; [exact A|exact B].
Qed.

(** X11. On periods that have all ended the overlap check is exact: a
    group passes [_check] if and only if, listed by start date, each
    period ends strictly before the next one starts. *)
Theorem overlap_check_exact_on_ended (group : list Period) :
  Forall (fun p => end_date p <> None) group ->
  (_check group = true <-> disjoint (sort_values start_leb group)).
Proof.
  intros H. unfold _check.
  pose proof (sort_values_Forall start_leb _ _ H) as Hs.
  destruct (sort_values start_leb group) as [|p r]; [cbn; tauto|].
  cbn [no_overlap_scan].
  pose proof (Forall_inv Hs) as Hp. cbv beta in Hp.
  destruct (end_date p) as [e|] eqn:Ee; [|contradiction].
  rewrite (scan_ended r (Forall_inv_tail Hs) e).
  destruct r as [|q r'].
  - cbn [disjoint]. tauto.
  - cbn [disjoint]. rewrite Ee. split.
    + intros [A B]. split; [exists e; split; [reflexivity|exact A]|exact B].
    + intros [(e' & E' & A) B]. assert (e' = e) as -> by congruence.
      split; [exact A|exact B].
Qed.

Lemma overlap_check_exact_on_ended_witness :
  sort_values start_leb Samples.ended_apart = [Samples.feb_to_apr; Samples.jun_to_aug] /\
  _check Samples.ended_apart = true /\
  _check Samples.ended_overlapping = false.
Proof.
  assert (S : sort_values start_leb Samples.ended_apart
              = [Samples.feb_to_apr; Samples.jun_to_aug]) by (vm_compute; reflexivity).
  split; [exact S|]. split.
  - apply (overlap_check_exact_on_ended Samples.ended_apart).
    + constructor; [discriminate|constructor; [discriminate|constructor]].
    + rewrite S. cbn [disjoint]. split; [|exact I].
      eexists. split; [reflexivity|]. vm_compute. reflexivity.
  - destruct (_check Samples.ended_overlapping) eqn:E; [|reflexivity].
    apply (overlap_check_exact_on_ended Samples.ended_overlapping) in E.
    + assert (S' : sort_values start_leb Samples.ended_overlapping
                   = [Samples.feb_to_apr; Samples.mar_to_may]) by (vm_compute; reflexivity).
      rewrite S' in E. destruct E as [(e & He & Hlt) _].
      injection He as <-. vm_compute in Hlt. discriminate Hlt.
    + constructor; [discriminate|constructor; [discriminate|constructor]].
Defined.

(** The periods of one customer: they carry its identifier, start on or
    after signup and end after they start; a second one starts after the
    end of the first. *)
Lemma gen_periods_summary (now : Z) (row : Customers.Customer) (cfg : SubsConfig)
      (g g' : Generator) (ps : list Period) :
  0 <= start_delay_days_min cfg -> 1 <= min_months cfg -> 1 <= reactivation_gap_min cfg ->
  _gen_periods_for_customer now row cfg g = Ok (ps, g') ->
  Forall (fun p => customer_id p = Customers.customer_id row /\
                   Customers.signup_date row <= start_date p /\
                   forall e, end_date p = Some e -> start_date p < e) ps /\
  ((exists p, ps = [p]) \/
   (exists p q e, ps = [p; q] /\ end_date p = Some e /\ start_date p < e /\
                  e < start_date q)).
Proof.
  intros H0 H1 H2 H.
  apply gen_periods_detail in H
    as (delay & m1 & pl1 & pr1 & a1 & smb & Hd & Hm & _ & _ & _ & _ & _ & H).
  remember (Customers.signup_date row + delay) as s1 eqn:Es1.
  pose proof (add_months_ge s1 m1 ltac:(lia)) as G1.
  remember (add_months s1 m1 - 1) as e1 eqn:Ee1.
  destruct H as [Hps | (Ea & gap & m2 & pl2 & pr2 & a2 & Hg & Hm2 & _ & _ & _ & _ & Hps)].
  - subst ps. split.
    + constructor; [|constructor]. cbn [customer_id start_date end_date].
      split; [reflexivity|]. split; [lia|].
      intros e He. destruct a1; [discriminate He|].
      assert (e1 = e) by congruence. lia.
    + left. eexists. reflexivity.
  - remember (e1 + gap) as s2 eqn:Es2.
    pose proof (add_months_ge s2 m2 ltac:(lia)) as G2.
    remember (add_months s2 m2 - 1) as e2 eqn:Ee2.
    subst ps. split.
    + constructor; [|constructor; [|constructor]]; cbn [customer_id start_date end_date].
      * split; [reflexivity|]. split; [lia|].
        intros e He. assert (e1 = e) by congruence. lia.
      * split; [reflexivity|]. split; [lia|].
        intros e He. destruct a2; [discriminate He|].
        assert (e2 = e) by congruence. lia.
    + right. eexists _, _, e1. split; [reflexivity|]. cbn [end_date start_date].
      split; [reflexivity|]. lia.
Qed.

Lemma check_of_perm (ps group : list Period) :
  Permutation ps group ->
  ((exists p, ps = [p]) \/
   (exists p q e, ps = [p; q] /\ end_date p = Some e /\ start_date p < e /\
                  e < start_date q)) ->
  _check group = true.
Proof.
  intros Hperm [(p & ->) | (p & q & e & -> & He & L1 & L2)].
  - apply Permutation_length_1_inv in Hperm as ->.
    unfold _check, sort_values. cbn [fold_right insert_sorted no_overlap_scan].
    destruct (end_date p); reflexivity.
  - assert (Hpq : start_leb p q = true) by (unfold start_leb; apply Z.leb_le; lia).
    assert (Hqp : start_leb q p = false) by (unfold start_leb; apply Z.leb_gt; lia).
    assert (S : sort_values start_leb group = [p; q]).
    { apply Permutation_length_2_inv in Hperm as [-> | ->];
        unfold sort_values; cbn [fold_right insert_sorted].
      - rewrite Hpq. reflexivity.
      - rewrite Hqp. reflexivity. }
    unfold _check. rewrite S. cbn [no_overlap_scan]. rewrite He.
    destruct (Z.leb_spec (start_date q) e) as [L|L]; [lia|].
    destruct (end_date q); reflexivity.
Qed.

Lemma customer_of_id (customers : list Customers.Customer) (a b : Customers.Customer) :
  NoDup (map Customers.customer_id customers) ->
  In a customers -> In b customers ->
  Customers.customer_id a = Customers.customer_id b -> a = b.
Proof.
  induction customers as [|c r IH]; intros Hnd Ha Hb E; [destruct Ha|].
  cbn [map] in Hnd. apply NoDup_cons_iff in Hnd as [Hc Hnd].
  destruct Ha as [<-|Ha], Hb as [<-|Hb].
  - reflexivity.
  - exfalso. apply Hc. rewrite E. apply in_map. exact Hb.
  - exfalso. apply Hc. rewrite <- E. apply in_map. exact Ha.
  - exact (IH Hnd Ha Hb E).
Qed.

Lemma subscription_ids_in_order (subs : list Period) :
  map subscription_id (with_ids subs) = make_ids "S" 6 1 (length subs).
Proof.
  unfold with_ids. rewrite map_map. cbn [subscription_id].
  change (fun x : string * Period => fst x) with (@fst string Period).
  apply map_fst_combine, make_ids_length.
Qed.

Lemma with_ids_periods (subs : list Period) : map period (with_ids subs) = subs.
Proof.
  unfold with_ids. rewrite map_map. cbn [period].
  change (fun x : string * Period => snd x) with (@snd string Period).
  apply map_snd_combine, make_ids_length.
Qed.

Lemma concat_length_bounds {A} (outs : list (list A)) :
  Forall (fun o => (1 <= length o <= 2)%nat) outs ->
  (length outs <= length (concat outs) <= 2 * length outs)%nat.
Proof.
  induction 1 as [|o r Ho _ IH]; cbn [concat length]; [lia|].
  rewrite length_app. lia.
Qed.

(** X12. Given a customers sheet that is not empty and whose customer
    identifiers are pairwise different, stage 2 never fails: whatever the
    random words and the clock, [main] passes its five acceptance checks
    (primary key, foreign key, start on or after signup, end after start,
    no overlap within a customer) and returns a table. Each customer of
    the sheet has one or two rows in the table, so the table has between
    one and two rows per customer in all; the rows are numbered S000001,
    S000002, ... in row order and each names a customer of the sheet. *)
Theorem subscription_sheet_written (bg : BitGenerator) (now : Z)
        (customers : list Customers.Customer) :
  customers <> [] ->
  NoDup (map Customers.customer_id customers) ->
  exists table,
    main bg now customers = Ok table /\
    Forall (fun c =>
              (1 <= length (filter (fun s => String.eqb (customer_id (period s))
                                                        (Customers.customer_id c)) table)
               <= 2)%nat) customers /\
    (length customers <= length table <= 2 * length customers)%nat /\
    map subscription_id table = make_ids "S" 6 1 (length table) /\
    Forall (fun s => In (customer_id (period s))
                        (map Customers.customer_id customers)) table.
Proof.
  intros Hne Hnd.
  destruct customers as [|c0 cs]; [contradiction|]. set (customers := c0 :: cs) in *.
  set (g := default_rng bg (random_seed default_config)).
  set (f := fun row => _gen_periods_for_customer now row default_config).
  destruct (for_each_total f customers
              (fun r g0 _ => gen_periods_total now r g0) g) as (all & g1 & Eall).
  destruct (for_each_parts f customers g all g1 Eall) as (outs & Ec & Hparts).
  assert (Hsum : Forall2 (fun r o =>
              (Forall (fun p => Customers.signup_date r <= start_date p /\
                                forall e, end_date p = Some e -> start_date p < e) o /\
               ((exists p, o = [p]) \/
                (exists p q e, o = [p; q] /\ end_date p = Some e /\ start_date p < e /\
                               e < start_date q))) /\
              Forall (fun p => customer_id p = Customers.customer_id r) o) customers outs).
  { eapply Forall2_impl; [|exact Hparts]. cbv beta.
    intros r o (ga & gb & Hrun).
    destruct (gen_periods_summary now r default_config ga gb o
                ltac:(vm_compute; discriminate) ltac:(vm_compute; discriminate)
                ltac:(vm_compute; discriminate) Hrun) as [Hall Hshape].
    split; [split; [|exact Hshape]|].
    - eapply Forall_impl; [|exact Hall]. cbv beta. intros p (_ & A & B). split; assumption.
    - eapply Forall_impl; [|exact Hall]. cbv beta. intros p (A & _). exact A. }
  set (valid := map Customers.customer_id customers).
  set (subs := sort_values customer_start_leb all).
  assert (Hrow : forall p, In p subs ->
              exists r o, In r customers /\ In p o /\
                          customer_id p = Customers.customer_id r /\
                          Customers.signup_date r <= start_date p /\
                          (forall e, end_date p = Some e -> start_date p < e)).
  { intros p Hp. apply sort_values_In in Hp. rewrite Ec in Hp.
    clear - Hp Hsum. induction Hsum as [|r o rs os [[Ho _] Hk] _ IH]; [destruct Hp|].
    cbn [concat] in Hp. apply in_app_or in Hp as [Hp|Hp].
    - exists r, o. split; [left; reflexivity|]. split; [exact Hp|].
      destruct (proj1 (Forall_forall _ _) Ho p Hp) as [A B].
      split; [exact (proj1 (Forall_forall _ _) Hk p Hp)|]. split; [exact A|exact B].
    - destruct (IH Hp) as (r' & o' & Hin & Hrest). exists r', o'.
      split; [right; exact Hin|exact Hrest]. }
  assert (U : is_unique (map subscription_id (with_ids subs)) = true)
    by (rewrite subscription_ids_in_order; apply is_unique_NoDup, make_ids_NoDup; lia).
  assert (F : forallb (fun p => mem_string (customer_id p) valid) subs = true).
  { apply forallb_forall. intros p Hp. apply mem_string_In.
    destruct (Hrow p Hp) as (r & o & Hr & _ & E & _). rewrite E. apply in_map. exact Hr. }
  assert (S : forallb (fun p =>
                forallb (fun c => negb (String.eqb (Customers.customer_id c) (customer_id p))
                                  || (Customers.signup_date c <=? start_date p))
                        customers) subs = true).
  { apply forallb_forall. intros p Hp. apply forallb_forall. intros c Hc.
    destruct (Hrow p Hp) as (r & o & Hr & _ & E & Hs & _).
    destruct (String.eqb_spec (Customers.customer_id c) (customer_id p)) as [Ecp|N];
      [|reflexivity].
    cbn [negb orb].
    assert (c = r) as -> by (apply (customer_of_id customers); congruence).
    apply Z.leb_le. exact Hs. }
  assert (D : forallb (fun p => match end_date p with
                                | Some e => start_date p <? e
                                | None => true
                                end) subs = true).
  { apply forallb_forall. intros p Hp.
    destruct (Hrow p Hp) as (r & o & _ & _ & _ & _ & He).
    destruct (end_date p) as [e|]; [|reflexivity]. apply Z.ltb_lt, He. reflexivity. }
  assert (V : _validate_no_overlap subs = Ok tt).
  { unfold _validate_no_overlap.
    assert (forallb (fun cid => _check (rows_of cid subs))
                    (group_keys (map customer_id subs)) = true) as ->; [|reflexivity].
    apply forallb_forall. intros cid _.
    assert (Hperm : Permutation (rows_of cid all) (rows_of cid subs)).
    { unfold rows_of. apply filter_perm. symmetry. apply sort_values_perm. }
    rewrite Ec in Hperm.
    destruct (filter_chunks Customers.customer_id customer_id _ customers outs cid Hsum Hnd)
      as [Z|(r & o & _ & [_ Hshape] & Z)]; fold (rows_of cid (concat outs)) in Z.
    - rewrite Z in Hperm. apply Permutation_nil in Hperm. rewrite Hperm. reflexivity.
    - rewrite Z in Hperm. exact (check_of_perm o _ Hperm Hshape). }
  exists (with_ids subs). split; [|split; [|split; [|split]]].
  - unfold main. cbv zeta. fold customers. unfold customers at 1.
    fold f g. rewrite (bind_ok _ _ _ _ _ Eall). fold subs.
    rewrite (bind_ok _ _ _ _ _ (lift_assert_ok _ _ g1 U)). fold valid.
    rewrite (bind_ok _ _ _ _ _ (lift_assert_ok _ _ g1 F)).
    rewrite (bind_ok _ _ _ _ _ (lift_assert_ok _ _ g1 S)).
    rewrite (bind_ok _ _ _ _ _ (lift_assert_ok _ _ g1 D)).
    unfold bind, lift. rewrite V. reflexivity.
  - apply Forall_forall. intros c Hc.
    rewrite (filter_map_length period
               (fun p => String.eqb (customer_id p) (Customers.customer_id c))),
      with_ids_periods.
    assert (Hperm : Permutation (rows_of (Customers.customer_id c) subs)
                                (rows_of (Customers.customer_id c) all)).
    { unfold rows_of. apply filter_perm. apply sort_values_perm. }
    unfold rows_of in Hperm. rewrite (Permutation_length Hperm), Ec.
    destruct (filter_own_chunk Customers.customer_id customer_id _ customers outs Hsum Hnd
                               c Hc) as (o & [_ Hshape] & ->).
    destruct Hshape as [(p & ->)|(p & q & e & -> & _)]; cbn [length]; lia.
  - assert (length (with_ids subs) = length all) as ->.
    { rewrite <- (length_map period), with_ids_periods. apply sort_values_length. }
    rewrite Ec, (Forall2_length Hparts).
    apply concat_length_bounds.
    clear - Hsum. induction Hsum as [|r o rs os [[_ Hshape] _] _ IH]; constructor;
      [|exact IH].
    destruct Hshape as [(p & ->)|(p & q & e & -> & _)]; cbn [length]; lia.
  - rewrite subscription_ids_in_order. rewrite <- (length_map period (with_ids subs)), with_ids_periods.
    reflexivity.
  - apply Forall_forall. intros s Hs.
    assert (In (period s) subs) as Hp
        by (rewrite <- (with_ids_periods subs); apply in_map; exact Hs).
    destruct (Hrow _ Hp) as (r & o & Hr & _ & E & _). rewrite E. apply in_map. exact Hr.
Qed.

Lemma subscription_sheet_written_witness :
  exists table,
    main Samples.all_zero Samples.now_2024_06_05 [Samples.c0001; Samples.c0002] = Ok table /\
    Forall (fun c =>
              (1 <= length (filter (fun s => String.eqb (customer_id (period s))
                                                        (Customers.customer_id c)) table)
               <= 2)%nat) [Samples.c0001; Samples.c0002] /\
    (2 <= length table <= 4)%nat.
Proof.
  destruct (subscription_sheet_written Samples.all_zero Samples.now_2024_06_05
              [Samples.c0001; Samples.c0002]) as (table & E & P & L & _).
  - discriminate.
  - constructor; [intros [C|[]]; discriminate C|].
    constructor; [intros []|constructor].
  - exists table. split; [exact E|]. split; [exact P|exact L].
Defined.

End SubscriptionsMore.

(** ** Stage 1: the signup window and the customers table *)

Module CustomersMore.
Import Calendar Num Rng Table Customers.
Import CalendarFacts CalendarMore NumFacts NumMore RngFacts RngMore TableFacts TableMore.
Import SubscriptionsFacts.
Local Open Scope gen_scope.

Lemma random_n_total (n : nat) : forall g, exists us g', random_n n g = Ok (us, g').
Proof.
  induction n as [|k IH]; intros g; cbn [random_n]; [unfold ret; eauto|].
  destruct (random_total g) as (u & g1 & Eu). rewrite (bind_ok _ _ _ _ _ Eu).
  destruct (IH g1) as (us & g2 & Eus). rewrite (bind_ok _ _ _ _ _ Eus).
  unfold ret. eauto.
Qed.

(** [rng.choice(a, size=n, p=p)] returns [n] entries of [a]. *)
Lemma choice_n_inv {A} (a : list A) (p : float_array) (size : Z) (g g' : Generator)
      (out : list A) :
  choice_n a p size g = Ok (out, g') ->
  0 <= size /\ length out = Z.to_nat size /\ Forall (fun x => In x a) out.
Proof.
  unfold choice_n. intros H.
  apply bind_inv in H as (ps & g1 & _ & H).
  destruct a as [|a0 rest]; [discriminate H|].
  apply bind_inv in H as (n & g2 & Hn & H). apply lift_inv in Hn as [Hn _].
  unfold size_of in Hn. destruct (Z.ltb_spec size 0) as [L|L]; [discriminate Hn|].
  assert (n = Z.to_nat size) as -> by congruence.
  apply bind_inv in H as (us & g3 & Hus & H). apply ret_inv in H as [-> _].
  apply random_n_inv in Hus as [Hl _].
  split; [exact L|]. split; [rewrite length_map; exact Hl|].
  apply Forall_forall. intros x Hx. apply in_map_iff in Hx as (u & <- & _).
  unfold pick.
  destruct (nth_in_or_default (searchsorted_right (normalized_cdf ps) u) (a0 :: rest) a0)
    as [Hin | ->]; [exact Hin | now left].
Qed.

Lemma choice_n_total {A} (a : list A) (p : float_array) (ps : list Q) (size : Z)
      (g : Generator) :
  check_choice a p = Ok ps -> 0 <= size ->
  exists out g', choice_n a p size g = Ok (out, g').
Proof.
  intros Hc Hs. unfold choice_n. unfold bind at 1. unfold lift at 1. rewrite Hc.
  destruct a as [|a0 rest]; [discriminate Hc|].
  unfold bind at 1. unfold lift, size_of.
  destruct (Z.ltb_spec size 0) as [L|L]; [lia|].
  destruct (random_n_total (Z.to_nat size) g) as (us & g1 & Eus).
  rewrite (bind_ok _ _ _ _ _ Eus). unfold ret. eauto.
Qed.

Lemma days_from_In (n : nat) :
  forall start d, In d (days_from start n) <-> start <= d < start + Z.of_nat n.
Proof.
  induction n as [|k IH]; intros start d; cbn [days_from In]; [lia|].
  rewrite IH. lia.
Qed.

Lemma date_range_In (start stop d : Z) : In d (date_range start stop) <-> start <= d <= stop.
Proof. unfold date_range. rewrite days_from_In. lia. Qed.

Lemma days_from_length (n : nat) : forall start, length (days_from start n) = n.
Proof. induction n as [|k IH]; intros start; cbn [days_from length]; [|rewrite IH]; reflexivity. Qed.

(** The bounds of the signup window for a run on day [today]. *)
Lemma signup_window (today i e s months_back : Z) :
  i = month_index today ->
  e = replace_day1 today - 1 ->
  s = replace_day1 (add_months e (- (months_back - 1))) ->
  e = month_start i - 1 /\ s = month_start (i - 1 - (months_back - 1)) /\ e < today.
Proof.
  intros Ei Ee Es.
  assert (E1 : e = month_start i - 1) by (rewrite Ee, Ei; reflexivity).
  assert (Eend : month_index e = i - 1).
  { rewrite E1. apply month_index_of. replace (i - 1 + 1) with i by lia.
    pose proof (month_start_lt (i - 1) i ltac:(lia)). pose proof (month_length_ge (i - 1)).
    lia. }
  split; [exact E1|]. split.
  - rewrite Es. unfold replace_day1. f_equal.
    apply month_index_of. unfold add_months. cbv zeta. rewrite Eend.
    remember (i - 1 + - (months_back - 1)) as j eqn:Ej.
    replace (i - 1 - (months_back - 1)) with j by lia.
    rewrite month_start_succ. fold (month_length j).
    destruct (date_decompose e) as [_ Hd]. pose proof (month_length_ge j). lia.
  - pose proof (in_month today) as It. rewrite <- Ei in It. lia.
Qed.

Lemma window_days (i a d today : Z) :
  month_start a <= d < month_start i ->
  month_start i <= today ->
  a <= month_index d <= i - 1 /\ d < today.
Proof.
  intros [Hlo Hhi] Ht. split; [|lia].
  pose proof (month_index_mono _ _ Hlo) as M1. rewrite month_index_start in M1.
  assert (d <= month_start i - 1) as Hhi' by lia.
  pose proof (month_index_mono _ _ Hhi') as M2.
  assert (month_index (month_start i - 1) = i - 1) as E.
  { apply month_index_of. replace (i - 1 + 1) with i by lia.
    pose proof (month_start_lt (i - 1) i ltac:(lia)). pose proof (month_length_ge (i - 1)).
    lia. }
  rewrite E in M2. lia.
Qed.

(** The draw behind [_generate_signup_dates], written out. *)
Lemma signup_dates_choice (now n months_back : Z) (g : Generator) :
  _generate_signup_dates now n months_back g
  = choice_n (date_range (replace_day1 (add_months (replace_day1 (normalize now) - 1)
                                                   (- (months_back - 1))))
                         (replace_day1 (normalize now) - 1))
             (divide_all
                (linspace 0.6 1.0
                          (length (date_range
                                     (replace_day1 (add_months (replace_day1 (normalize now) - 1)
                                                               (- (months_back - 1))))
                                     (replace_day1 (normalize now) - 1))))
                (Qsum (linspace 0.6 1.0
                          (length (date_range
                                     (replace_day1 (add_months (replace_day1 (normalize now) - 1)
                                                               (- (months_back - 1))))
                                     (replace_day1 (normalize now) - 1))))))
             n g.
Proof. unfold _generate_signup_dates. reflexivity. Qed.

Lemma signup_dates_window_aux (now n months_back : Z) (g : Generator) (dates : list Z)
      (g' : Generator) :
  _generate_signup_dates now n months_back g = Ok (dates, g') ->
  length dates = Z.to_nat n /\
  Forall (fun d => month_start (month_index (normalize now) - 1 - (months_back - 1)) <= d
                   < month_start (month_index (normalize now))) dates.
Proof.
  intros H. rewrite signup_dates_choice in H.
  apply choice_n_inv in H as (_ & Hl & Hall). split; [exact Hl|].
  destruct (signup_window (normalize now) _ _ _ months_back eq_refl eq_refl eq_refl)
    as (Ee & Es & _).
  rewrite Es, Ee in Hall.
  eapply Forall_impl; [|exact Hall]. cbv beta. intros d Hd.
  apply date_range_In in Hd. lia.
Qed.

(** X19. The signup dates drawn are [n] days of the window that runs from
    the first day of the month [months_back - 1] months before last month
    to the last day of last month: every signup date falls within
    [months_back] calendar months and strictly before the first day of the
    current month, hence before today. *)
Theorem signup_dates_in_window (now n months_back : Z) (g g' : Generator) (dates : list Z) :
  _generate_signup_dates now n months_back g = Ok (dates, g') ->
  let today := normalize now in
  let last_month := month_index today - 1 in
  length dates = Z.to_nat n /\
  Forall (fun d => month_start (last_month - (months_back - 1)) <= d
                   < month_start (month_index today) /\
                   last_month - (months_back - 1) <= month_index d <= last_month /\
                   d < today) dates.
Proof.
  intros H. cbv zeta.
  destruct (signup_dates_window_aux _ _ _ _ _ _ H) as [Hl Hall].
  split; [exact Hl|].
  eapply Forall_impl; [|exact Hall]. cbv beta. intros d Hd.
  pose proof (in_month (normalize now)) as It.
  destruct (window_days (month_index (normalize now)) _ d (normalize now)
                        Hd ltac:(lia)) as [A B].
  split; [|split; [lia|exact B]].
  lia.
Qed.

Lemma signup_dates_in_window_witness :
  Samples.succeeded (_generate_signup_dates Samples.now_2024_06_05 3 2
                                            (Samples.replay [5; 40; 17])) = true /\
  Forall (fun d => Calendar.ymd2ord 2024 4 1 <= d < Calendar.ymd2ord 2024 6 1)
         (Samples.rows_of_run (_generate_signup_dates Samples.now_2024_06_05 3 2
                                                      (Samples.replay [5; 40; 17]))).
Proof.
  assert (S : Samples.succeeded
                (_generate_signup_dates Samples.now_2024_06_05 3 2
                                        (Samples.replay [5; 40; 17])) = true)
    by (vm_compute; reflexivity).
  split; [exact S|].
  destruct (_generate_signup_dates Samples.now_2024_06_05 3 2
                                   (Samples.replay [5; 40; 17])) as [[dates g']|e] eqn:E;
    [|discriminate S].
  destruct (signup_dates_in_window _ _ _ _ _ _ E) as [_ W].
  cbn [Samples.rows_of_run]. eapply Forall_impl; [|exact W].
  cbv beta. intros d (A & _).
  change (month_start (month_index (normalize Samples.now_2024_06_05) - 1 - (2 - 1)))
    with (Calendar.ymd2ord 2024 4 1) in A.
  change (month_start (month_index (normalize Samples.now_2024_06_05)))
    with (Calendar.ymd2ord 2024 6 1) in A.
  exact A.
Defined.

Lemma cac_loop_inv (cfg : CustomersConfig) (channels : list string) :
  forall g vs g',
    cac_loop cfg channels g = Ok (vs, g') ->
    Forall2 (fun ch v => exists low high,
                 dict_lookup ch (cac_ranges_by_channel cfg) = Ok (low, high) /\
                 ((low <= high)%Q -> (low <= v <= high)%Q)) channels vs.
Proof.
  induction channels as [|ch rest IH]; intros g vs g' H; cbn [cac_loop] in H.
  - apply ret_inv in H as [-> _]. constructor.
  - apply bind_inv in H as ([low high] & g1 & Hl & H). apply lift_inv in Hl as [Hl _].
    apply bind_inv in H as (v & g2 & Hv & H).
    apply bind_inv in H as (vs' & g3 & Hvs & H).
    apply ret_inv in H as [-> _].
    constructor; [|exact (IH _ _ _ Hvs)].
    exists low, high. split; [exact Hl|]. intros L. exact (uniform_inv _ _ _ _ _ Hv L).
Qed.

Lemma zip_rows_In (ids : list string) :
  forall (dates : list Z) (segs regs chans : list string) (cacs : list Q) (c : Customer),
    In c (zip_rows ids dates segs regs chans cacs) ->
    In (signup_date c) dates /\ In (segment c) segs /\ In (region c) regs /\
    In (acquisition_channel c, cac c) (combine chans cacs).
Proof.
  induction ids as [|i ids' IH]; intros dates segs regs chans cacs c H; [destruct H|].
  destruct dates as [|d dates'], segs as [|s segs'], regs as [|r regs'],
           chans as [|ch chans'], cacs as [|v cacs']; try contradiction.
  cbn [zip_rows] in H. destruct H as [<-|H].
  - cbn [signup_date segment region acquisition_channel cac combine].
    split; [left; reflexivity|]. split; [left; reflexivity|].
    split; left; reflexivity.
  - destruct (IH _ _ _ _ _ _ H) as (A & B & C & D).
    split; [right; exact A|]. split; [right; exact B|]. split; right; assumption.
Qed.

Lemma zip_rows_ids (ids : list string) :
  forall (dates : list Z) (segs regs chans : list string) (cacs : list Q),
    map customer_id (zip_rows ids dates segs regs chans cacs)
    = firstn (length (zip_rows ids dates segs regs chans cacs)) ids.
Proof.
  induction ids as [|i ids' IH]; intros dates segs regs chans cacs; [reflexivity|].
  destruct dates as [|d dates'], segs as [|s segs'], regs as [|r regs'],
           chans as [|ch chans'], cacs as [|v cacs']; try reflexivity.
  cbn [zip_rows map length firstn customer_id]. f_equal. apply IH.
Qed.


Lemma make_ids_firstn (prefix : string) (width : nat) (n : nat) :
  forall first k, (k <= n)%nat ->
                  firstn k (make_ids prefix width first n) = make_ids prefix width first k.
Proof.
  induction n as [|m IH]; intros first k Hk.
  - replace k with 0%nat by lia. reflexivity.
  - destruct k as [|k']; [reflexivity|].
    cbn [make_ids firstn]. f_equal. apply IH. lia.
Qed.

Lemma zip_rows_length_le (ids : list string) :
  forall (dates : list Z) (segs regs chans : list string) (cacs : list Q),
    (length (zip_rows ids dates segs regs chans cacs) <= length ids)%nat.
Proof.
  induction ids as [|i ids' IH]; intros dates segs regs chans cacs; [cbn; lia|].
  destruct dates as [|d dates'], segs as [|s segs'], regs as [|r regs'],
           chans as [|ch chans'], cacs as [|v cacs']; cbn [zip_rows length]; try lia.
  specialize (IH dates' segs' regs' chans' cacs'). lia.
Qed.

Lemma combine_rounded {R : string -> Q -> Prop} (chans : list string) (vs : list Q) :
  Forall2 R chans vs ->
  forall ch x, In (ch, x) (combine chans (map round2 vs)) ->
               exists v, x = round2 v /\ R ch v.
Proof.
  induction 1 as [|c v chans' vs' Hr _ IH]; intros ch x Hin; [destruct Hin|].
  cbn [map combine] in Hin. destruct Hin as [E|Hin].
  - exists v. split; [congruence|]. assert (ch = c) as -> by congruence. exact Hr.
  - exact (IH _ _ Hin).
Qed.

(** X20. Every customers table the stage returns has [num_customers]
    rows with the identifiers C0001, C0002, ... in row order. Each row
    has a segment, a region and a channel that are labels of the
    configured mixes, a signup date within the [months_back] calendar
    months that end with last month (hence before today), and an
    acquisition cost in whole cents that is the rounded value of a draw
    from the range configured for its channel. *)
Theorem customers_rows_well_formed (bg : BitGenerator) (now : Z) (cfg : CustomersConfig)
        (df : list Customer) :
  generate_customers_df bg now cfg = Ok df ->
  Z.of_nat (length df) = num_customers cfg /\
  map customer_id df = make_ids "C" 4 1 (length df) /\
  Forall (fun c =>
            In (segment c) (map fst (segment_mix cfg)) /\
            In (region c) (map fst (region_mix cfg)) /\
            In (acquisition_channel c) (map fst (channel_mix cfg)) /\
            (month_index (normalize now) - months_back cfg <= month_index (signup_date c)
             < month_index (normalize now)) /\
            signup_date c < normalize now /\
            cents (cac c) /\
            exists low high,
              dict_lookup (acquisition_channel c) (cac_ranges_by_channel cfg)
              = Ok (low, high) /\
              ((low <= high)%Q -> (low - (1 # 200) <= cac c <= high + (1 # 200))%Q)) df.
Proof.
  unfold generate_customers_df. cbv zeta.
  set (g := default_rng bg (random_seed cfg)). intros H.
  destruct (bind _ _ g) as [[df' g']|e] eqn:E; [|discriminate H].
  assert (df' = df) as -> by congruence. clear H.
  apply bind_inv in E as (dates & g1 & Hdates & E).
  apply bind_inv in E as (segs & g2 & Hsegs & E).
  apply bind_inv in E as (regs & g3 & Hregs & E).
  apply bind_inv in E as (chans & g4 & Hchans & E).
  apply bind_inv in E as (cacs & g5 & Hcacs & E).
  apply bind_inv in E as ([] & g6 & Hcount & E). apply lift_inv in Hcount as [Hcount _].
  apply bind_inv in E as ([] & g7 & Huniq & E). clear Huniq.
  set (ids := make_ids "C" 4 1 (Z.to_nat (num_customers cfg))) in *.
  set (rows := zip_rows ids dates segs regs chans (map round2 cacs)) in *.
  assert (Hdf : df = rows).
  { destruct (map signup_date rows) as [|d ds]; [discriminate E|].
    apply bind_inv in E as ([] & g8 & _ & E). apply ret_inv in E as [E _].
    exact E. }
  clear E. subst df.
  assert (Hlen : Z.of_nat (length rows) = num_customers cfg).
  { unfold assert in Hcount.
    destruct (Z.eqb_spec (Z.of_nat (length rows)) (num_customers cfg)) as [Eq|N];
      [exact Eq|discriminate Hcount]. }
  split; [exact Hlen|]. split.
  - unfold rows at 1. rewrite zip_rows_ids. fold rows. unfold ids.
    apply make_ids_firstn. lia.
  - destruct (signup_dates_window_aux now (num_customers cfg) (months_back cfg)
                                      g dates g1 Hdates) as [_ Hwin].
    unfold _choice_with_mix in Hsegs, Hregs, Hchans. cbv zeta in Hsegs, Hregs, Hchans.
    apply choice_n_inv in Hsegs as (_ & _ & Hsegs).
    apply choice_n_inv in Hregs as (_ & _ & Hregs).
    apply choice_n_inv in Hchans as (_ & _ & Hchans).
    apply cac_loop_inv in Hcacs.
    apply Forall_forall. intros c Hc. apply zip_rows_In in Hc as (A & B & C & D).
    destruct (combine_rounded chans cacs Hcacs _ _ D) as (v & Ev & (low & high & Hl & Hv)).
    split; [exact (proj1 (Forall_forall _ _) Hsegs _ B)|].
    split; [exact (proj1 (Forall_forall _ _) Hregs _ C)|].
    split; [exact (proj1 (Forall_forall _ _) Hchans _ (in_combine_l _ _ _ _ D))|].
    pose proof (in_month (normalize now)) as It.
    destruct (window_days (month_index (normalize now)) _ _ (normalize now)
                          (proj1 (Forall_forall _ _) Hwin _ A) ltac:(lia)) as (W1 & W2).
    split; [lia|]. split; [exact W2|].
    split; [rewrite Ev; apply round2_cents|].
    exists low, high. split; [exact Hl|]. intros L. specialize (Hv L).
    rewrite Ev. pose proof (round2_near v). lra.
Qed.

Lemma customers_rows_well_formed_witness :
  Samples.succeeded (generate_customers_df Samples.all_zero Samples.now_2024_06_05
                                           Samples.three_customers) = true /\
  map customer_id (Samples.table_of
                     (generate_customers_df Samples.all_zero Samples.now_2024_06_05
                                            Samples.three_customers))
  = ["C0001"; "C0002"; "C0003"]%string.
Proof.
  assert (S : Samples.succeeded
                (generate_customers_df Samples.all_zero Samples.now_2024_06_05
                                       Samples.three_customers) = true)
    by (vm_compute; reflexivity).
  split; [exact S|].
  destruct (generate_customers_df Samples.all_zero Samples.now_2024_06_05
                                  Samples.three_customers) as [df|e] eqn:E;
    [|discriminate S].
  destruct (customers_rows_well_formed _ _ _ _ E) as (L & I & _).
  cbn [Samples.table_of]. rewrite I.
  assert (length df = 3%nat) as -> by (change (num_customers Samples.three_customers) with 3 in L; lia).
  vm_compute. reflexivity.
Defined.

Local Open Scope Q_scope.

Lemma Qsum_nil : Qsum [] == 0.
Proof. unfold Qsum. cbn [fold_left]. reflexivity. Qed.

Lemma Qsum_scaled (s : Q) (xs : list Q) :
  ~ s == 0 -> Qsum (map (fun x => Qred (x / s)) xs) == Qsum xs / s.
Proof.
  intros Hs. induction xs as [|x r IH]; cbn [map].
  - rewrite Qsum_nil. field. exact Hs.
  - rewrite !Qsum_cons, IH, Qred_correct. field. exact Hs.
Qed.

Lemma Qsum_lower (b : Q) (xs : list Q) :
  0 <= b -> Forall (fun x => b <= x) xs -> 0 <= Qsum xs /\ (xs <> [] -> b <= Qsum xs).
Proof.
  intros Hb. induction 1 as [|x r Hx _ [IH _]].
  - split; [rewrite Qsum_nil; lra|intros C; contradiction].
  - rewrite Qsum_cons. split; [lra|intros _; lra].
Qed.

Lemma linspace_length (a b : Q) (n : nat) : length (linspace a b n) = n.
Proof.
  unfold linspace. destruct n as [|[|k]]; [reflexivity..|].
  cbv zeta. rewrite length_map, length_seq. reflexivity.
Qed.

Lemma linspace_lower (a b : Q) (n : nat) :
  a <= b -> Forall (fun x => a <= x) (linspace a b n).
Proof.
  intros Hab. unfold linspace. destruct n as [|[|k]]; [constructor| |].
  - constructor; [lra|constructor].
  - cbv zeta. apply Forall_forall. intros x Hx.
    apply in_map_iff in Hx as (i & <- & _). rewrite Qred_correct.
    assert (Hi : 0 <= inject_Z (Z.of_nat i))
      by (change 0 with (inject_Z 0); rewrite <- Zle_Qle; lia).
    assert (Hd : 0 < inject_Z (Z.of_nat (S (S k)) - 1))
      by (change 0 with (inject_Z 0); rewrite <- Zlt_Qlt; lia).
    assert (Hstep : 0 <= (b - a) / inject_Z (Z.of_nat (S (S k)) - 1)).
    { apply Qle_shift_div_l; [exact Hd|]. lra. }
    nra.
Qed.

(** Positive weights, normalised by their sum, pass the checks of
    [Generator.choice] for a list of as many entries. *)
Lemma positive_weights_accepted {A} (a : list A) (ws : list Q) (b : Q) :
  0 < b -> Forall (fun x => b <= x) ws -> a <> [] -> length ws = length a ->
  exists ps, check_choice a (divide_all ws (Qsum ws)) = Ok ps.
Proof.
  intros Hb Hws Ha Hl.
  assert (Hne : ws <> []) by (intros ->; destruct a; [contradiction|discriminate Hl]).
  destruct (Qsum_lower b ws ltac:(lra) Hws) as [_ Hs]. specialize (Hs Hne).
  assert (Hs0 : ~ Qsum ws == 0) by lra.
  unfold divide_all.
  destruct (Qeq_bool (Qsum ws) 0) eqn:E; [apply Qeq_bool_iff in E; contradiction|].
  unfold check_choice. destruct a as [|a0 rest]; [contradiction|].
  rewrite length_map, Hl, Nat.eqb_refl. cbn [negb].
  assert (E1 : existsb (fun x => Qlt_bool x 0) (map (fun x => Qred (x / Qsum ws)) ws)
               = false).
  { destruct (existsb _ _) eqn:Ex; [|reflexivity].
    apply existsb_exists in Ex as (x & Hx & Hneg).
    apply in_map_iff in Hx as (w & <- & Hw). apply Qlt_bool_iff in Hneg.
    rewrite Qred_correct in Hneg.
    pose proof (proj1 (Forall_forall _ _) Hws w Hw) as Hwb. cbv beta in Hwb.
    assert (0 <= w / Qsum ws) by (apply Qle_shift_div_l; lra). lra. }
  rewrite E1.
  assert (E2 : Qlt_bool (1 # 2 ^ 26)
                        (Qabs (Qsum (map (fun x => Qred (x / Qsum ws)) ws) - 1)) = false).
  { apply Qlt_bool_false. rewrite (Qsum_scaled _ _ Hs0).
    assert (Qsum ws / Qsum ws - 1 == 0) as -> by (field; exact Hs0).
    now compute. }
  rewrite E2. eexists. reflexivity.
Qed.

Lemma date_range_length (start stop : Z) :
  length (date_range start stop) = Z.to_nat (stop - start + 1).
Proof. unfold date_range. apply days_from_length. Qed.

Lemma signup_dates_total (now n months_back : Z) (g : Generator) :
  (1 <= months_back)%Z -> (0 <= n)%Z ->
  exists dates g', _generate_signup_dates now n months_back g = Ok (dates, g').
Proof.
  intros Hm Hn. rewrite signup_dates_choice.
  destruct (signup_window (normalize now) _ _ _ months_back eq_refl eq_refl eq_refl)
    as (Ee & Es & _).
  rewrite Es, Ee.
  remember (month_index (normalize now)) as i eqn:Ei.
  pose proof (month_start_le (i - 1 - (months_back - 1)) (i - 1) ltac:(lia)) as L1.
  pose proof (month_start_lt (i - 1) i ltac:(lia)) as L2.
  pose proof (month_length_ge (i - 1)) as L3.
  remember (date_range (month_start (i - 1 - (months_back - 1))) (month_start i - 1))
    as days eqn:Ed.
  assert (Hlen : (1 <= length days)%nat) by (rewrite Ed, date_range_length; lia).
  destruct (positive_weights_accepted days (linspace 0.6 1.0 (length days)) 0.6)
    as (ps & Hps).
  - now compute.
  - apply linspace_lower. now compute.
  - intros ->. cbn [length] in Hlen. lia.
  - apply linspace_length.
  - exact (choice_n_total days _ ps n g Hps Hn).
Qed.

Lemma customer_mix_total (mix : list (string * Q)) (size : Z) (g : Generator) :
  accepted mix -> (0 <= size)%Z ->
  exists out g', _choice_with_mix mix size g = Ok (out, g').
Proof.
  intros [ps Hps] Hs. unfold _choice_with_mix. cbv zeta.
  exact (choice_n_total _ _ ps size g Hps Hs).
Qed.

Lemma choice_with_mix_labels (mix : list (string * Q)) (size : Z) (g g' : Generator)
      (out : list string) :
  _choice_with_mix mix size g = Ok (out, g') ->
  length out = Z.to_nat size /\ Forall (fun x => In x (map fst mix)) out.
Proof.
  unfold _choice_with_mix. cbv zeta. intros H.
  apply choice_n_inv in H as (_ & A & B). split; assumption.
Qed.



Local Open Scope Z_scope.



Lemma length_zero {A} (l : list A) : length l = 0%nat -> l = [].
Proof. destruct l; [reflexivity|discriminate]. Qed.

(** X22. Asked for no customer at all, with at least one month and mixes
    that pass the checks of [Generator.choice], the stage builds an empty
    table that passes the row-count and primary-key checks, then stops
    with a [TypeError]: the latest signup date of no row is not a date
    that can be compared with today. *)
Theorem no_customer_fails (bg : BitGenerator) (now : Z) (cfg : CustomersConfig) :
  num_customers cfg = 0 ->
  1 <= months_back cfg ->
  accepted (segment_mix cfg) -> accepted (region_mix cfg) -> accepted (channel_mix cfg) ->
  generate_customers_df bg now cfg
  = Raise (TypeError "'<=' not supported between 'float' and 'datetime.date'").
Proof.
  intros Hn Hm Hseg Hreg Hch.
  unfold generate_customers_df. cbv zeta.
  remember (default_rng bg (random_seed cfg)) as g eqn:Eg. clear Eg.
  rewrite Hn.
  destruct (signup_dates_total now 0 (months_back cfg) g Hm ltac:(lia))
    as (dates & g1 & Edates).
  destruct (signup_dates_window_aux _ _ _ _ _ _ Edates) as [Ldates _].
  apply length_zero in Ldates. subst dates.
  destruct (customer_mix_total _ 0 g1 Hseg ltac:(lia)) as (segs & g2 & Esegs).
  destruct (choice_with_mix_labels _ _ _ _ _ Esegs) as [Lsegs _].
  apply length_zero in Lsegs. subst segs.
  destruct (customer_mix_total _ 0 g2 Hreg ltac:(lia)) as (regs & g3 & Eregs).
  destruct (choice_with_mix_labels _ _ _ _ _ Eregs) as [Lregs _].
  apply length_zero in Lregs. subst regs.
  destruct (customer_mix_total _ 0 g3 Hch ltac:(lia)) as (chans & g4 & Echans).
  destruct (choice_with_mix_labels _ _ _ _ _ Echans) as [Lchans _].
  apply length_zero in Lchans. subst chans.
  rewrite (bind_ok _ _ _ _ _ Edates), (bind_ok _ _ _ _ _ Esegs),
    (bind_ok _ _ _ _ _ Eregs), (bind_ok _ _ _ _ _ Echans).
  reflexivity.
Qed.

Lemma no_customer_fails_witness :
  Samples.error_of
    (generate_customers_df Samples.all_zero Samples.now_2024_06_05
       (mkCustomersConfig 42 0 18 (segment_mix default_config) (region_mix default_config)
                          (channel_mix default_config)
                          (cac_ranges_by_channel default_config)))
  = Some (TypeError "'<=' not supported between 'float' and 'datetime.date'").
Proof.
  rewrite (no_customer_fails Samples.all_zero Samples.now_2024_06_05
             (mkCustomersConfig 42 0 18 (segment_mix default_config)
                                (region_mix default_config) (channel_mix default_config)
                                (cac_ranges_by_channel default_config))).
  - reflexivity.
  - reflexivity.
  - vm_compute. discriminate.
  - eexists. vm_compute. reflexivity.
  - eexists. vm_compute. reflexivity.
  - eexists. vm_compute. reflexivity.
Defined.

End CustomersMore.

(** ** Stage 3: plan changes, the census of events and their signs *)

Module EventsMore.
Import Calendar Num Rng Table Subscriptions Events.
Import CalendarFacts NumFacts NumMore TableFacts TableMore SubscriptionsFacts EventsFacts.
Import SubscriptionsMore.
Local Open Scope Q_scope.

(** One turn of the loop when [cur] takes over from [prev]: a
    reactivation after a gap, an upgrade or a downgrade when the price
    moves while service continues, then the churn if [cur] ends. *)
Lemma follow_on_step_ok (cid : string) (out : list Event) (prev cur : Period) (d : Z) :
  follows_on prev cur ->
  cents (price_mrr prev) ->
  customer_id cur = cid -> cents (price_mrr cur) -> 0 <= price_mrr cur ->
  (forall e, end_date cur = Some e -> (start_date cur < e)%Z) ->
  (d <= last_date prev)%Z ->
  stream_ok cid out d (mrr_after prev) ->
  exists d', (d' <= last_date cur)%Z /\
             stream_ok cid (subsequent_step out prev cur) d' (mrr_after cur).
Proof.
  intros Hf Hpp Hc Hp H0 He Hd H. unfold subsequent_step. cbv zeta.
  unfold follows_on in Hf. unfold last_date, mrr_after in Hd, H.
  destruct (end_date prev) as [pe|].
  - destruct (Z.gtb_spec (start_date cur) pe) as [_|C]; [|lia].
    exists (last_date cur). split; [lia|].
    apply churn_ok; auto.
    rewrite Hc. apply stream_ok_total with (0 + price_mrr cur); [lra|].
    apply stream_ok_append with (d := d); auto. lia. lra.
  - set (delta := price_mrr cur - price_mrr prev).
    assert (Hcd : cents delta) by (apply cents_minus; assumption).
    destruct (Qlt_bool 0 delta) eqn:Eup.
    + exists (last_date cur). split; [lia|].
      apply churn_ok; auto.
      rewrite Hc. apply stream_ok_total with (price_mrr prev + delta);
        [unfold delta; lra|].
      apply stream_ok_append with (d := d); auto. lia. unfold delta. lra.
    + destruct (Qlt_bool delta 0) eqn:Edown.
      * exists (last_date cur). split; [lia|].
        apply churn_ok; auto.
        rewrite Hc. apply stream_ok_total with (price_mrr prev + delta);
          [unfold delta; lra|].
        apply stream_ok_append with (d := d); auto. lia. unfold delta. lra.
      * apply Qlt_bool_false in Eup. apply Qlt_bool_false in Edown.
        assert (Eq : price_mrr prev == price_mrr cur) by (unfold delta in *; lra).
        unfold last_date, mrr_after.
        destruct (end_date cur) as [e|] eqn:Ee.
        -- exists e. split; [lia|]. rewrite Hc.
           apply stream_ok_total with (price_mrr prev + - price_mrr cur); [lra|].
           apply stream_ok_append with (d := d); auto using cents_opp.
           ++ specialize (He e eq_refl). lia.
           ++ lra.
        -- exists d. split; [lia|]. apply stream_ok_total with (price_mrr prev); auto.
Qed.

Lemma follow_on_loop_ok (cid : string) (rest : list Period) :
  forall (prev : Period) (out : list Event) (d : Z),
    Forall (fun p => customer_id p = cid /\ cents (price_mrr p) /\ 0 <= price_mrr p /\
                     forall e, end_date p = Some e -> (start_date p < e)%Z) (prev :: rest) ->
    chained (prev :: rest) ->
    (d <= last_date prev)%Z ->
    stream_ok cid out d (mrr_after prev) ->
    exists d', stream_ok cid (subsequent_loop out prev rest) d' (mrr_after (last rest prev)).
Proof.
  induction rest as [|cur rest IH]; intros prev out d Hall Hch Hd H;
    [exists d; exact H|].
  cbn [subsequent_loop]. rewrite last_cons_shift.
  destruct Hch as [Hf Hch].
  pose proof (Forall_inv Hall) as (_ & Hpp & _ & _).
  pose proof (Forall_inv_tail Hall) as Hrest.
  destruct (Forall_inv Hrest) as (Hc & Hp & H0 & He).
  destruct (follow_on_step_ok cid out prev cur d Hf Hpp Hc Hp H0 He Hd H) as (d' & Hd' & H').
  exact (IH cur _ d' Hrest Hch Hd' H').
Qed.

Lemma chained_sorted (ps : list Period) :
  Forall (fun p => forall e, end_date p = Some e -> (start_date p < e)%Z) ps ->
  chained ps -> locally_sorted start_leb ps.
Proof.
  induction ps as [|p r IH]; intros Hall Hch; [exact I|].
  destruct r as [|q r']; [exact I|].
  destruct Hch as [Hf Hch]. split; [|exact (IH (Forall_inv_tail Hall) Hch)].
  unfold start_leb. apply Z.leb_le. unfold follows_on in Hf.
  pose proof (Forall_inv Hall) as He. cbv beta in He.
  destruct (end_date p) as [e|]; [specialize (He e eq_refl)|]; lia.
Qed.

Lemma strictly_monotonic (l : list Z) :
  strictly_increasing l -> is_monotonic_increasing l = true.
Proof.
  induction l as [|x r IH]; intros H; [reflexivity|].
  destruct r as [|y r']; [reflexivity|].
  destruct H as [L H]. cbn [is_monotonic_increasing].
  apply andb_true_iff. split; [apply Z.leb_le; lia|exact (IH H)].
Qed.

Lemma Forall_prefix {A} (P : A -> Prop) (l : list A) :
  Forall P l -> forall k, Forall P (firstn k l).
Proof.
  induction 1 as [|x r Hx _ IH]; intros k; [rewrite firstn_nil; constructor|].
  destruct k as [|k]; cbn [firstn]; constructor; [exact Hx|apply IH].
Qed.

(** Every delta is written rounded to the cent. *)
Lemma append_event_cents (out : list Event) (cid : string) (dt : Z) (etype : string)
      (pf pt : option string) (delta : Q) :
  Forall (fun e => cents (delta_mrr e)) out ->
  Forall (fun e => cents (delta_mrr e)) (_append_event out cid dt etype pf pt delta).
Proof.
  intros H. unfold _append_event. apply Forall_app. split; [exact H|].
  constructor; [apply round2_cents|constructor].
Qed.

Lemma subsequent_loop_cents (rest : list Period) :
  forall (prev : Period) (out : list Event),
    Forall (fun e => cents (delta_mrr e)) out ->
    Forall (fun e => cents (delta_mrr e)) (subsequent_loop out prev rest).
Proof.
  induction rest as [|cur more IH]; intros prev out H; [exact H|].
  cbn [subsequent_loop]. apply IH. unfold subsequent_step. cbv zeta.
  assert (H1 : Forall (fun e => cents (delta_mrr e))
                 (if match end_date prev with
                     | Some pe => (start_date cur >? pe)%Z
                     | None => false
                     end
                  then _append_event out (customer_id cur) (start_date cur) "reactivation"
                                     None (Some (plan cur)) (price_mrr cur)
                  else if Qlt_bool 0 (price_mrr cur - price_mrr prev)
                       then _append_event out (customer_id cur) (start_date cur) "upgrade"
                              (Some (plan prev)) (Some (plan cur))
                              (price_mrr cur - price_mrr prev)
                       else if Qlt_bool (price_mrr cur - price_mrr prev) 0
                            then _append_event out (customer_id cur) (start_date cur)
                                   "downgrade" (Some (plan prev)) (Some (plan cur))
                                   (price_mrr cur - price_mrr prev)
                            else out)).
  { destruct (match end_date prev with
              | Some pe => (start_date cur >? pe)%Z
              | None => false
              end); [apply append_event_cents; exact H|].
    destruct (Qlt_bool 0 (price_mrr cur - price_mrr prev));
      [apply append_event_cents; exact H|].
    destruct (Qlt_bool (price_mrr cur - price_mrr prev) 0);
      [apply append_event_cents; exact H|exact H]. }
  destruct (end_date cur); [apply append_event_cents; exact H1|exact H1].
Qed.

Lemma build_events_cents (subs_cust : list Period) :
  Forall (fun e => cents (delta_mrr e)) (_build_events_for_customer subs_cust).
Proof.
  unfold _build_events_for_customer.
  destruct (sort_values start_leb subs_cust) as [|first rest]; [constructor|].
  cbv zeta. apply subsequent_loop_cents.
  destruct (end_date first); repeat apply append_event_cents; constructor.
Qed.

(** The events of a chained group, with their deltas as exact decimals. *)
Lemma chained_stream (cid : string) (first : Period) (rest : list Period) :
  Forall (fun p => customer_id p = cid /\ cents (price_mrr p) /\ 0 <= price_mrr p /\
                   forall e, end_date p = Some e -> (start_date p < e)%Z) (first :: rest) ->
  chained (first :: rest) ->
  strictly_increasing (map event_date (_build_events_for_customer (first :: rest))) /\
  never_below 0 0 (map delta_mrr (_build_events_for_customer (first :: rest))) /\
  Qsum (map delta_mrr (_build_events_for_customer (first :: rest)))
  == mrr_after (last rest first).
Proof.
  intros Hall Hch.
  assert (Hs : locally_sorted start_leb (first :: rest)).
  { apply chained_sorted; [|exact Hch].
    eapply Forall_impl; [|exact Hall]. cbv beta. intros p (_ & _ & _ & He). exact He. }
  unfold _build_events_for_customer. rewrite (sort_values_sorted _ _ Hs). cbv zeta.
  destruct (Forall_inv Hall) as (Hc & Hp & H0 & He).
  destruct (follow_on_loop_ok cid rest first
              (match end_date first with
               | Some e => _append_event
                             (_append_event [] (customer_id first) (start_date first) "new"
                                            None (Some (plan first)) (price_mrr first))
                             (customer_id first) e "churn" (Some (plan first)) None
                             (- price_mrr first)
               | None => _append_event [] (customer_id first) (start_date first) "new"
                                       None (Some (plan first)) (price_mrr first)
               end) (last_date first) Hall Hch ltac:(lia)) as (d & _ & Hinc & _ & Hnb & Hsum).
  { apply churn_ok; auto.
    rewrite Hc. apply stream_ok_total with (0 + price_mrr first); [lra|].
    apply stream_ok_append with (d := (start_date first - 1)%Z); auto.
    - apply stream_ok_nil.
    - lia.
    - lra. }
  split; [exact Hinc|]. split; [exact Hnb|exact Hsum].
Qed.

Lemma mrr_after_cents (p : Period) : cents (price_mrr p) -> cents (mrr_after p).
Proof.
  intros H. unfold mrr_after. destruct (end_date p); [exists 0%Z; reflexivity|exact H].
Qed.

(** X13. Periods of one customer in which each period takes over from the
    one before (after its end or, while it is still open, from a later
    start), priced in whole cents from zero up and ending after they
    start: the events derived, upgrades and downgrades included, have
    strictly increasing dates and pass both per-customer checks of
    [main]; counted in whole cents ([round(100 * delta_mrr)]), the running
    MRR is never negative and the deltas add up to the price of the last
    period if it is open and to zero if it has ended. *)
Theorem chained_periods_conserve_mrr (cid : string) (first : Period) (rest : list Period) :
  Forall (fun p => customer_id p = cid /\ cents (price_mrr p) /\ 0 <= price_mrr p /\
                   forall e, end_date p = Some e -> (start_date p < e)%Z) (first :: rest) ->
  chained (first :: rest) ->
  let events := _build_events_for_customer (first :: rest) in
  let moves := map (fun e => to_cents (delta_mrr e)) events in
  strictly_increasing (map event_date events) /\
  _check_monotonic events = true /\
  (forall k, (0 <= Zsum (firstn k moves))%Z) /\
  _rolling_ok events = true /\
  Zsum moves = to_cents (mrr_after (last rest first)).
Proof.
  intros Hall Hch. cbv zeta.
  destruct (chained_stream cid first rest Hall Hch) as (Hinc & Hnb & Hsum).
  pose proof (build_events_cents (first :: rest)) as Hc.
  assert (Hc' : Forall cents (map delta_mrr (_build_events_for_customer (first :: rest))))
    by (apply Forall_map; exact Hc).
  rewrite <- (map_map delta_mrr to_cents).
  split; [exact Hinc|]. split; [apply strictly_monotonic; exact Hinc|].
  split; [|split].
  - intros k. rewrite firstn_map. apply Qsum_cents_nonneg.
    + apply Forall_prefix. exact Hc'.
    + apply never_below_prefix; [exact Hnb|lra].
  - apply never_below_rolling. apply never_below_weaken with 0; [now compute|exact Hnb].
  - apply Qsum_cents_total; [exact Hc'|exact Hsum].
Qed.

Lemma chained_periods_conserve_mrr_witness :
  let events := _build_events_for_customer Samples.up_then_down in
  map event_type events = ["new"; "upgrade"; "downgrade"; "churn"]%string /\
  map (fun e => to_cents (delta_mrr e)) events = [2000; 3000; -3000; -2000]%Z /\
  _rolling_ok events = true /\
  Zsum (map (fun e => to_cents (delta_mrr e)) events) = 0%Z.
Proof.
  cbv zeta. split; [vm_compute; reflexivity|]. split; [vm_compute; reflexivity|].
  refine ((fun H => conj (proj1 (proj2 (proj2 (proj2 H)))) (proj2 (proj2 (proj2 (proj2 H)))))
            (chained_periods_conserve_mrr "C0001" _ _ _ _)).
  - repeat constructor; try (vm_compute; discriminate);
      try (exists 2000%Z; vm_compute; reflexivity);
      try (exists 5000%Z; vm_compute; reflexivity);
      try discriminate.
    intros e E. inversion E. vm_compute. reflexivity.
  - vm_compute. auto.
Defined.

Local Open Scope Z_scope.

(** What one turn of the loop appends: at most one start-side event, then
    the churn of the period if it has ended. *)
Lemma subsequent_step_shape (out : list Event) (prev cur : Period) :
  exists mid,
    subsequent_step out prev cur
    = out ++ mid ++
      (if has_ended cur
       then [mkEvent (customer_id cur) (last_date cur) "churn" (Some (plan cur)) None
                     (round2 (- price_mrr cur))]
       else []) /\
    (mid = [] \/
     exists e, mid = [e] /\
               In (event_type e) ["reactivation"; "upgrade"; "downgrade"]%string).
Proof.
  unfold subsequent_step, _append_event, has_ended, last_date. cbv zeta.
  destruct (match end_date prev with Some pe => start_date cur >? pe | None => false end).
  - eexists [_]. split.
    + destruct (end_date cur); rewrite <- ?app_assoc; reflexivity.
    + right. eexists. split; [reflexivity|]. left. reflexivity.
  - destruct (Qlt_bool 0 (price_mrr cur - price_mrr prev)).
    + eexists [_]. split.
      * destruct (end_date cur); rewrite <- ?app_assoc; reflexivity.
      * right. eexists. split; [reflexivity|]. right. left. reflexivity.
    + destruct (Qlt_bool (price_mrr cur - price_mrr prev) 0).
      * eexists [_]. split.
        -- destruct (end_date cur); rewrite <- ?app_assoc; reflexivity.
        -- right. eexists. split; [reflexivity|]. right. right. left. reflexivity.
      * exists []. split; [|left; reflexivity].
        destruct (end_date cur); cbn [app]; rewrite ?app_nil_r; reflexivity.
Qed.

Lemma count_type_app (t : string) (a b : list Event) :
  count_type t (a ++ b) = (count_type t a + count_type t b)%nat.
Proof. unfold count_type. rewrite filter_app, length_app. reflexivity. Qed.

Lemma count_mid (t : string) (mid : list Event) :
  (mid = [] \/
   exists e, mid = [e] /\
             In (event_type e) ["reactivation"; "upgrade"; "downgrade"]%string) ->
  (t = "new" \/ t = "churn")%string ->
  count_type t mid = 0%nat /\ (length mid <= 1)%nat /\
  Forall (fun e => In (event_type e)
                      ["new"; "upgrade"; "downgrade"; "churn"; "reactivation"]%string) mid.
Proof.
  intros [->|(e & -> & Hin)] Ht; [split; [reflexivity|split; [cbn; lia|constructor]]|].
  unfold count_type. cbn [filter length].
  split; [|split; [lia|]].
  - destruct Hin as [<-|[<-|[<-|[]]]], Ht as [->| ->]; reflexivity.
  - constructor; [|constructor].
    destruct Hin as [<-|[<-|[<-|[]]]]; cbn; auto 6.
Qed.

Lemma subsequent_loop_census (rest : list Period) :
  forall (prev : Period) (out : list Event),
    let events := subsequent_loop out prev rest in
    count_type "new" events = count_type "new" out /\
    count_type "churn" events
    = (count_type "churn" out + length (filter has_ended rest))%nat /\
    (length events <= length out + 2 * length rest)%nat /\
    (length out + length (filter has_ended rest) <= length events)%nat /\
    hd_error events = match out with [] => hd_error events | e :: _ => Some e end /\
    (Forall (fun e => In (event_type e)
                         ["new"; "upgrade"; "downgrade"; "churn"; "reactivation"]%string) out ->
     Forall (fun e => In (event_type e)
                         ["new"; "upgrade"; "downgrade"; "churn"; "reactivation"]%string)
            events).
Proof.
  induction rest as [|cur rest IH]; intros prev out; cbv zeta.
  - cbn [subsequent_loop filter length]. rewrite !Nat.add_0_r.
    split; [reflexivity|]. split; [reflexivity|]. split; [lia|]. split; [lia|].
    split; [destruct out; reflexivity|]. intros H. exact H.
  - cbn [subsequent_loop].
    destruct (subsequent_step_shape out prev cur) as (mid & -> & Hmid).
    specialize (IH cur (out ++ mid ++
      (if has_ended cur
       then [mkEvent (customer_id cur) (last_date cur) "churn" (Some (plan cur)) None
                     (round2 (- price_mrr cur))]
       else []))).
    cbv zeta in IH. destruct IH as (A & B & C & D & E & F).
    destruct (count_mid "new" mid Hmid ltac:(left; reflexivity)) as (Mn & Ml & Mt).
    destruct (count_mid "churn" mid Hmid ltac:(right; reflexivity)) as (Mc & _ & _).
    rewrite !length_app in C, D. cbn [filter length].
    destruct (has_ended cur); cbn [length] in *.
    + match type of A with context [?x :: nil] => set (ce := x) in * end.
      assert (N0 : count_type "new" [ce] = 0%nat) by reflexivity.
      assert (C1 : count_type "churn" [ce] = 1%nat) by reflexivity.
      rewrite A, B, !count_type_app, Mn, Mc, N0, C1.
      split; [lia|]. split; [lia|]. split; [lia|]. split; [lia|].
      split; [destruct out; [reflexivity|exact E]|].
      intros H. apply F. apply Forall_app. split; [exact H|].
      apply Forall_app. split; [exact Mt|].
      constructor; [cbn; auto 6|constructor].
    + assert (N0 : count_type "new" [] = 0%nat) by reflexivity.
      assert (C1 : count_type "churn" [] = 0%nat) by reflexivity.
      rewrite A, B, !count_type_app, Mn, Mc, N0, C1.
      split; [lia|]. split; [lia|]. split; [lia|]. split; [lia|].
      split; [destruct out; [reflexivity|exact E]|].
      intros H. apply F. apply Forall_app. split; [exact H|].
      apply Forall_app. split; [exact Mt|constructor].
Qed.

(** X14. The census of the events derived for the periods of a customer,
    whatever they are: none for no period; otherwise the first event is
    the only "new" event, there is exactly one "churn" event for each
    period that has an end date, every event has one of the five types,
    and the events number at least one plus the periods that have ended
    and at most two per period. *)
Theorem event_census (subs_cust : list Period) :
  let events := _build_events_for_customer subs_cust in
  (subs_cust = [] -> events = []) /\
  (subs_cust <> [] ->
   count_type "new" events = 1%nat /\
   option_map event_type (hd_error events) = Some "new"%string /\
   (1 + length (filter has_ended subs_cust) <= length events)%nat) /\
  count_type "churn" events = length (filter has_ended subs_cust) /\
  (length events <= 2 * length subs_cust)%nat /\
  Forall (fun e => In (event_type e)
                      ["new"; "upgrade"; "downgrade"; "churn"; "reactivation"]%string) events.
Proof.
  cbv zeta. unfold _build_events_for_customer.
  pose proof (sort_values_perm start_leb subs_cust) as Hperm.
  pose proof (Permutation_length (filter_perm has_ended _ _ Hperm)) as Hended.
  pose proof (sort_values_length start_leb subs_cust) as Hlen.
  destruct (sort_values start_leb subs_cust) as [|first rest] eqn:Es.
  - destruct subs_cust as [|p r]; [|discriminate Hlen].
    split; [reflexivity|]. split; [intros C; contradiction|].
    split; [reflexivity|]. split; [cbn; lia|constructor].
  - assert (Hne : subs_cust <> []) by (intros ->; discriminate Hlen).
    cbv zeta. rewrite <- Hended, <- Hlen. clear Hperm Hended Hlen Es.
    unfold _append_event. cbn [app filter length].
    match goal with |- context [subsequent_loop ?o first rest] => set (out := o) end.
    destruct (subsequent_loop_census rest first out) as (A & B & C & D & E & F).
    assert (Hout : count_type "new" out = 1%nat /\
                   count_type "churn" out = (if has_ended first then 1 else 0)%nat /\
                   length out = (if has_ended first then 2 else 1)%nat /\
                   (exists e r, out = e :: r /\ event_type e = "new"%string) /\
                   Forall (fun e => In (event_type e)
                             ["new"; "upgrade"; "downgrade"; "churn"; "reactivation"]%string)
                          out).
    { unfold out, has_ended. destruct (end_date first).
      - split; [reflexivity|]. split; [reflexivity|]. split; [reflexivity|].
        split; [eexists _, _; split; reflexivity|].
        constructor; [cbn; auto 6|constructor; [cbn; auto 6|constructor]].
      - split; [reflexivity|]. split; [reflexivity|]. split; [reflexivity|].
        split; [eexists _, _; split; reflexivity|].
        constructor; [cbn; auto 6|constructor]. }
    destruct Hout as (On & Oc & Ol & (e0 & r0 & Eo & Et) & Of).
    split; [intros Hnil; contradiction|].
    split; [intros _; split; [rewrite A; exact On|split]|].
    + rewrite E, Eo. cbn [option_map]. rewrite Et. reflexivity.
    + destruct (has_ended first); cbn [length] in *; lia.
    + split; [rewrite B, Oc; destruct (has_ended first); cbn [length]; lia|].
      split; [destruct (has_ended first); cbn [length] in *; lia|].
      exact (F Of).
Qed.

(** X15. When every period is priced above zero in whole cents, each
    event derived has the plan fields and the sign of its type: "new" and
    "reactivation" have no plan before, a plan after and a positive
    delta; "upgrade" has both plans and a positive delta; "downgrade" has
    both plans and a negative delta; "churn" has a plan before, none
    after and a negative delta. No event has a zero delta. *)
Theorem events_signed_by_type (subs_cust : list Period) :
  Forall (fun p => cents (price_mrr p) /\ (0 < price_mrr p)%Q) subs_cust ->
  Forall well_typed (_build_events_for_customer subs_cust).
Proof.
  intros Hall. unfold _build_events_for_customer.
  pose proof (sort_values_Forall start_leb _ _ Hall) as Hs.
  destruct (sort_values start_leb subs_cust) as [|first rest]; [constructor|].
  cbv zeta.
  assert (Hnew : forall p, cents (price_mrr p) -> (0 < price_mrr p)%Q ->
            forall cid d t, (t = "new" \/ t = "reactivation")%string ->
              well_typed (mkEvent cid d t None (Some (plan p)) (round2 (price_mrr p)))).
  { intros p Hc Hp cid d t Ht. left. cbn [event_type plan_from plan_to delta_mrr].
    split; [exact Ht|]. split; [reflexivity|]. split; [discriminate|].
    rewrite (round2_id _ Hc). exact Hp. }
  assert (Hchurn : forall p, cents (price_mrr p) -> (0 < price_mrr p)%Q ->
            forall cid d,
              well_typed (mkEvent cid d "churn" (Some (plan p)) None
                                  (round2 (- price_mrr p)))).
  { intros p Hc Hp cid d. right. right. right.
    cbn [event_type plan_from plan_to delta_mrr].
    split; [reflexivity|]. split; [discriminate|]. split; [reflexivity|].
    rewrite (round2_id _ (cents_opp _ Hc)). lra. }
  assert (Hstep : forall out prev cur,
            cents (price_mrr prev) -> cents (price_mrr cur) -> (0 < price_mrr cur)%Q ->
            Forall well_typed out -> Forall well_typed (subsequent_step out prev cur)).
  { intros out prev cur Hcp Hcc Hpc Hout. unfold subsequent_step, _append_event. cbv zeta.
    assert (Htail : forall o, Forall well_typed o ->
              Forall well_typed
                (match end_date cur with
                 | Some e => o ++ [mkEvent (customer_id cur) e "churn" (Some (plan cur)) None
                                           (round2 (- price_mrr cur))]
                 | None => o
                 end)).
    { intros o Ho. destruct (end_date cur); [|exact Ho].
      apply Forall_app. split; [exact Ho|]. constructor; [|constructor].
      apply Hchurn; assumption. }
    apply Htail.
    destruct (match end_date prev with Some pe => start_date cur >? pe | None => false end).
    - apply Forall_app. split; [exact Hout|]. constructor; [|constructor].
      apply Hnew; [assumption..|right; reflexivity].
    - pose proof (round2_id _ (cents_minus _ _ Hcc Hcp)) as Hr.
      destruct (Qlt_bool 0 (price_mrr cur - price_mrr prev)) eqn:Eup.
      + apply Forall_app. split; [exact Hout|]. constructor; [|constructor].
        right. left. cbn [event_type plan_from plan_to delta_mrr].
        split; [reflexivity|]. split; [discriminate|]. split; [discriminate|].
        rewrite Hr. apply Qlt_bool_iff. exact Eup.
      + destruct (Qlt_bool (price_mrr cur - price_mrr prev) 0) eqn:Edown; [|exact Hout].
        apply Forall_app. split; [exact Hout|]. constructor; [|constructor].
        right. right. left. cbn [event_type plan_from plan_to delta_mrr].
        split; [reflexivity|]. split; [discriminate|]. split; [discriminate|].
        rewrite Hr. apply Qlt_bool_iff. exact Edown. }
  assert (Hloop : forall more prev out,
            Forall (fun p => cents (price_mrr p) /\ (0 < price_mrr p)%Q) (prev :: more) ->
            Forall well_typed out -> Forall well_typed (subsequent_loop out prev more)).
  { induction more as [|cur more' IH]; intros prev out Hpr Hout; [exact Hout|].
    cbn [subsequent_loop]. pose proof (Forall_inv_tail Hpr) as Hr.
    apply IH; [exact Hr|].
    apply Hstep; [exact (proj1 (Forall_inv Hpr))|exact (proj1 (Forall_inv Hr))
                  |exact (proj2 (Forall_inv Hr))|exact Hout]. }
  destruct (Forall_inv Hs) as [Hc Hp].
  apply Hloop; [exact Hs|].
  unfold _append_event. cbn [app].
  destruct (end_date first).
  - constructor; [apply Hnew; [assumption..|left; reflexivity]|].
    constructor; [apply Hchurn; assumption|constructor].
  - constructor; [apply Hnew; [assumption..|left; reflexivity]|constructor].
Qed.

Lemma events_signed_by_type_witness :
  Forall well_typed (_build_events_for_customer Samples.up_then_down).
Proof.
  apply (events_signed_by_type Samples.up_then_down).
  constructor; [split; [exists 2000; vm_compute; reflexivity|vm_compute; reflexivity]|].
  constructor; [split; [exists 5000; vm_compute; reflexivity|vm_compute; reflexivity]|].
  constructor; [split; [exists 2000; vm_compute; reflexivity|vm_compute; reflexivity]|].
  constructor.
Defined.

(** *** The whole stage *)

Lemma block_sorted (cid : string) (out : list Event) :
  Forall (fun e => e_customer_id e = cid) out ->
  strictly_increasing (map event_date out) ->
  locally_sorted customer_date_leb out.
Proof.
  intros Hc Hs.
  induction out as [|x r IH]; [exact I|].
  destruct r as [|y r']; [exact I|].
  pose proof (Forall_inv Hc) as Hx. pose proof (Forall_inv_tail Hc) as Hr.
  pose proof (Forall_inv Hr) as Hy. cbv beta in Hx, Hy.
  destruct Hs as [Hxy Hs]. split; [|exact (IH Hr Hs)].
  unfold customer_date_leb, key2_leb. cbn [fst snd].
  rewrite Hx, Hy, string_compare_refl. apply Z.leb_le. lia.
Qed.

(** The events of a chained group: some, all of the customer, in date
    order, and passing both per-customer checks. *)
Lemma chained_block (cid : string) (ps : list Period) :
  ps <> [] ->
  Forall (fun p => customer_id p = cid /\ cents (price_mrr p) /\ (0 <= price_mrr p)%Q /\
                   forall e, end_date p = Some e -> (start_date p < e)%Z) ps ->
  chained ps ->
  _build_events_for_customer ps <> [] /\
  Forall (fun e => e_customer_id e = cid) (_build_events_for_customer ps) /\
  locally_sorted customer_date_leb (_build_events_for_customer ps) /\
  _check_monotonic (_build_events_for_customer ps) = true /\
  _rolling_ok (_build_events_for_customer ps) = true.
Proof.
  intros Hne Hall Hch. destruct ps as [|first rest]; [contradiction|]. clear Hne.
  assert (Hs : locally_sorted start_leb (first :: rest)).
  { apply chained_sorted; [|exact Hch].
    eapply Forall_impl; [|exact Hall]. cbv beta. intros p (_ & _ & _ & He). exact He. }
  unfold _build_events_for_customer. rewrite (sort_values_sorted _ _ Hs). cbv zeta.
  destruct (Forall_inv Hall) as (Hc & Hp & H0 & He).
  set (out := match end_date first with
              | Some e => _append_event
                            (_append_event [] (customer_id first) (start_date first) "new"
                                           None (Some (plan first)) (price_mrr first))
                            (customer_id first) e "churn" (Some (plan first)) None
                            (- price_mrr first)
              | None => _append_event [] (customer_id first) (start_date first) "new"
                                      None (Some (plan first)) (price_mrr first)
              end).
  destruct (follow_on_loop_ok cid rest first out (last_date first) Hall Hch ltac:(lia))
    as (d & Hcid & Hinc & _ & Hnb & _).
  { unfold out. apply churn_ok; auto.
    rewrite Hc. apply stream_ok_total with (0 + price_mrr first)%Q; [lra|].
    apply stream_ok_append with (d := (start_date first - 1)%Z); auto.
    - apply stream_ok_nil.
    - lia.
    - lra. }
  destruct (subsequent_loop_census rest first out) as (_ & _ & _ & D & _).
  split.
  - intros C. rewrite C in D. cbn [length] in D.
    unfold out, _append_event in D. destruct (end_date first); cbn [app length] in D; lia.
  - split; [exact Hcid|]. split; [exact (block_sorted cid _ Hcid Hinc)|].
    split; [apply strictly_monotonic; exact Hinc|].
    apply never_below_rolling. apply never_below_weaken with 0%Q; [now compute|exact Hnb].
Qed.

(** Blocks of events, one for each key in increasing order, are in the
    order of the final sort. *)
Lemma blocks_sorted (f : string -> list Event) (keys : list string) :
  locally_sorted (fun a b => match String.compare a b with Lt => true | _ => false end) keys ->
  Forall (fun k => f k <> [] /\ Forall (fun e => e_customer_id e = k) (f k) /\
                   locally_sorted customer_date_leb (f k)) keys ->
  locally_sorted customer_date_leb (flat_map f keys).
Proof.
  induction keys as [|k ks IH]; intros S H; [exact I|].
  cbn [flat_map]. destruct (Forall_inv H) as (Hne & Hc & Hs).
  pose proof (Forall_inv_tail H) as Hr.
  assert (Sr : locally_sorted
                 (fun a b => match String.compare a b with Lt => true | _ => false end) ks)
    by (destruct ks; [exact I|exact (proj2 S)]).
  apply sorted_app; [exact Hs|exact (IH Sr Hr)|].
  intros x y Hx Hy. destruct ks as [|k' ks']; [discriminate Hy|].
  destruct (Forall_inv Hr) as (Hne' & Hc' & _).
  cbn [flat_map] in Hy. destruct (f k') as [|e0 r0] eqn:E; [contradiction|].
  cbn in Hy. injection Hy as <-.
  pose proof (proj1 (Forall_forall _ _) Hc x Hx) as Ex. pose proof (Forall_inv Hc') as Ey.
  cbv beta in Ex, Ey.
  unfold customer_date_leb, key2_leb. cbn [fst snd]. rewrite Ex, Ey.
  destruct S as [L _]. destruct (String.compare k k'); [discriminate|reflexivity|discriminate].
Qed.

Lemma event_ids_in_order (events : list Event) :
  map event_id (with_ids events) = make_ids "E" 6 1 (length events).
Proof.
  unfold with_ids. rewrite map_map. cbn [event_id].
  change (fun x : string * Event => fst x) with (@fst string Event).
  apply map_fst_combine, make_ids_length.
Qed.

Lemma with_ids_events (events : list Event) : map event (with_ids events) = events.
Proof.
  unfold with_ids. rewrite map_map. cbn [event].
  change (fun x : string * Event => snd x) with (@snd string Event).
  apply map_snd_combine, make_ids_length.
Qed.

(** X16. Given a customers sheet and a subscriptions sheet that are not
    empty, where every subscription names a customer of the sheet, is
    priced in whole cents from zero up and ends (if it ends) after it
    starts, and where the periods of each customer, in sheet order, each
    take over from the one before: [main] passes its four acceptance
    checks (primary key, foreign key, chronological order and rolling
    MRR per customer) and returns a table. Its events are the blocks
    derived for the customers, in increasing order of customer id, the
    final sort changing nothing; they are numbered E000001, E000002, ...
    in row order. *)
Theorem events_sheet_written (customers : list Customers.Customer)
        (subs : list Subscription) :
  customers <> [] -> subs <> [] ->
  Forall (fun s => In (customer_id (period s)) (map Customers.customer_id customers) /\
                   cents (price_mrr (period s)) /\ (0 <= price_mrr (period s))%Q /\
                   forall e, end_date (period s) = Some e ->
                             (start_date (period s) < e)%Z) subs ->
  (forall cid, chained (rows_of cid (map period subs))) ->
  exists table,
    main customers subs = Ok table /\
    map event_id table = make_ids "E" 6 1 (length table) /\
    map event table
    = flat_map (fun cid => _build_events_for_customer (rows_of cid (map period subs)))
               (group_keys (map customer_id (map period subs))) /\
    Forall (fun row => In (e_customer_id (event row))
                          (map Customers.customer_id customers)) table.
Proof.
  intros Hc Hs Hall Hch.
  destruct customers as [|c0 cs]; [contradiction|].
  destruct subs as [|s0 ss]; [contradiction|]. clear Hc Hs.
  set (customers := c0 :: cs) in *. set (subs := s0 :: ss) in *.
  set (valid := map Customers.customer_id customers) in *.
  set (periods := map period subs) in *.
  set (f := fun cid => _build_events_for_customer (rows_of cid periods)).
  set (keys := group_keys (map customer_id periods)).
  assert (Hblocks : Forall (fun k => In k valid /\ f k <> [] /\
                                     Forall (fun e => e_customer_id e = k) (f k) /\
                                     locally_sorted customer_date_leb (f k) /\
                                     _check_monotonic (f k) = true /\
                                     _rolling_ok (f k) = true) keys).
  { apply Forall_forall. intros k Hk. apply (proj1 (group_keys_In _ _)) in Hk.
    apply in_map_iff in Hk as (p & Ep & Hp).
    pose proof Hp as Hp'. apply in_map_iff in Hp' as (s & Es & Hin).
    pose proof (proj1 (Forall_forall _ _) Hall s Hin) as (Hv & _).
    split; [rewrite <- Ep, <- Es; exact Hv|].
    apply chained_block.
    - intros C. assert (In p (rows_of k periods)) as Hin'.
      { apply filter_In. split; [exact Hp|]. apply String.eqb_eq. exact Ep. }
      rewrite C in Hin'. destruct Hin'.
    - apply Forall_forall. intros q Hq. apply filter_In in Hq as [Hq Eq].
      apply String.eqb_eq in Eq. split; [exact Eq|].
      apply in_map_iff in Hq as (s' & Es' & Hin').
      pose proof (proj1 (Forall_forall _ _) Hall s' Hin') as (_ & A & B & C).
      rewrite <- Es'. split; [exact A|]. split; [exact B|exact C].
    - apply Hch. }
  set (all_events := flat_map f keys).
  assert (Hsorted : sort_values customer_date_leb all_events = all_events).
  { apply sort_values_sorted. apply blocks_sorted; [apply group_keys_increase|].
    eapply Forall_impl; [|exact Hblocks]. cbv beta.
    intros k (_ & A & B & C & _). split; [exact A|]. split; [exact B|exact C]. }
  assert (Hparts : Forall2 (fun k o => (In k valid /\ _check_monotonic o = true /\
                                        _rolling_ok o = true) /\
                                       Forall (fun e => e_customer_id e = (fun k => k) k) o)
                           keys (map f keys)).
  { apply Forall2_graph. eapply Forall_impl; [|exact Hblocks]. cbv beta.
    intros k (V & _ & B & _ & M & R). split; [split; [exact V|split; [exact M|exact R]]|exact B]. }
  assert (Hgroup : forall cid, _check_monotonic (events_of cid all_events) = true /\
                               _rolling_ok (events_of cid all_events) = true).
  { intros cid. unfold events_of, all_events. rewrite flat_map_concat_map.
    destruct (filter_chunks (fun k => k) e_customer_id _ keys (map f keys) cid Hparts)
      as [->|(r & o & _ & (_ & M & R) & ->)].
    - rewrite map_id. apply group_keys_NoDup.
    - split; reflexivity.
    - split; [exact M|exact R]. }
  assert (Hfk : Forall (fun e => In (e_customer_id e) valid) all_events).
  { apply Forall_forall. intros e He. unfold all_events in He.
    rewrite flat_map_concat_map in He.
    destruct (chunk_keys (fun k => k) e_customer_id _ keys (map f keys) Hparts e He)
      as (r & o & _ & (V & _) & _ & ->).
    exact V. }
  assert (U : is_unique (map event_id (with_ids all_events)) = true)
    by (rewrite event_ids_in_order; apply is_unique_NoDup, make_ids_NoDup; lia).
  assert (F : forallb (fun e => mem_string (e_customer_id e) valid) all_events = true).
  { apply forallb_forall. intros e He. apply mem_string_In.
    exact (proj1 (Forall_forall _ _) Hfk e He). }
  exists (with_ids all_events).
  split.
  - unfold main. cbv zeta. fold customers subs. unfold customers at 1, subs at 1.
    fold customers subs. fold valid periods. fold f. fold keys. fold all_events.
    rewrite Hsorted, U, F. cbn [assert].
    assert (forallb (fun cid => _check_monotonic (events_of cid all_events))
                    (group_keys (map e_customer_id all_events)) = true) as ->
      by (apply forallb_forall; intros cid _; exact (proj1 (Hgroup cid))).
    assert (forallb (fun cid => _rolling_ok (events_of cid all_events))
                    (group_keys (map e_customer_id all_events)) = true) as ->
      by (apply forallb_forall; intros cid _; exact (proj2 (Hgroup cid))).
    reflexivity.
  - split; [|split].
    + rewrite event_ids_in_order. unfold with_ids.
      rewrite length_map, length_combine, make_ids_length, Nat.min_id. reflexivity.
    + apply with_ids_events.
    + apply Forall_forall. intros row Hrow.
      apply (in_map event) in Hrow. rewrite with_ids_events in Hrow.
      exact (proj1 (Forall_forall _ _) Hfk _ Hrow).
Qed.

Lemma events_sheet_written_witness :
  Samples.succeeded (main [Samples.c0001; Samples.c0002] Samples.two_customer_sheet) = true /\
  map (fun row => (event_id row, e_customer_id (event row), event_type (event row)))
      (Samples.table_of (main [Samples.c0001; Samples.c0002] Samples.two_customer_sheet))
  = [("E000001", "C0001", "new"); ("E000002", "C0001", "churn");
     ("E000003", "C0001", "reactivation"); ("E000004", "C0002", "new")]%string /\
  exists table,
    main [Samples.c0001; Samples.c0002] Samples.two_customer_sheet = Ok table /\
    map event_id table = make_ids "E" 6 1 (length table) /\
    map event table
    = flat_map (fun cid => _build_events_for_customer
                             (rows_of cid (map period Samples.two_customer_sheet)))
               (group_keys (map customer_id (map period Samples.two_customer_sheet))) /\
    Forall (fun row => In (e_customer_id (event row))
                          (map Customers.customer_id [Samples.c0001; Samples.c0002])) table.
Proof.
  split; [vm_compute; reflexivity|]. split; [vm_compute; reflexivity|].
  apply (events_sheet_written [Samples.c0001; Samples.c0002] Samples.two_customer_sheet).
  - intros C. discriminate C.
  - intros C. vm_compute in C. discriminate C.
  - apply Forall_forall.
    intros s [<-|[<-|[<-|[]]]]; cbn [period customer_id price_mrr end_date start_date];
      (split; [vm_compute; auto|]);
      (split; [first [exists 2000%Z; vm_compute; reflexivity
                     |exists 5000%Z; vm_compute; reflexivity]|]);
      (split; [vm_compute; discriminate|]); intros e E;
      [discriminate E|inversion E; vm_compute; reflexivity|discriminate E].
  - intros cid. unfold rows_of, Samples.two_customer_sheet.
    cbn [map period filter customer_id].
    destruct (String.eqb_spec "C0002" cid) as [<-|N]; [vm_compute; auto|].
    destruct (String.eqb "C0001" cid); vm_compute; auto.
Defined.

End EventsMore.

(** ** Stage 5: the payments sheet under [PaymentsConfig()] *)

Module PaymentsMore.
Import Calendar Num Rng Table Invoices Payments.
Import NumFacts NumMore RngFacts RngMore TableFacts TableMore SubscriptionsFacts.
Import PaymentsFacts.
Local Open Scope gen_scope.

Lemma choice_with_mix_ok {L} (mix : list (L * Q)) (ps : list Q) (g : Generator) :
  check_choice (map fst mix) (divide_all (map snd mix) (Qsum (map snd mix))) = Ok ps ->
  exists label g', _choice_with_mix mix g = Ok (label, g') /\ In label (map fst mix).
Proof.
  intros H. unfold _choice_with_mix, choice. cbv zeta.
  unfold bind at 1. unfold lift. rewrite H.
  destruct (map fst mix) as [|a0 rest] eqn:E; [discriminate H|].
  destruct (random_total g) as (u & g' & Hu).
  rewrite (bind_ok _ _ _ _ _ Hu). unfold ret.
  eexists. eexists. split; [reflexivity|].
  unfold pick.
  destruct (nth_in_or_default (searchsorted_right (normalized_cdf ps) u) (a0 :: rest) a0)
    as [Hin | ->]; [exact Hin | now left].
Qed.

Lemma method_total (g : Generator) :
  exists m g', _choice_with_mix (method_probs default_config) g = Ok (m, g') /\
               In m ["ACH"; "Card"; "Wire"; "Check"]%string.
Proof.
  assert (C : exists ps,
             check_choice (map fst (method_probs default_config))
               (divide_all (map snd (method_probs default_config))
                           (Qsum (map snd (method_probs default_config)))) = Ok ps)
    by (eexists; vm_compute; reflexivity).
  destruct C as [ps C].
  destruct (choice_with_mix_ok _ ps g C) as (m & g' & E & Hin).
  exists m, g'. split; [exact E|exact Hin].
Qed.

(** Under [PaymentsConfig()] a positive invoice is paid at once in full,
    30 days after issue or today if that is earlier, or not at all. *)
Lemma positive_invoice_default (now : Z) (inv : InvoiceRow) (g : Generator) :
  exists rows g',
    _emit_payments_for_positive_invoice now inv default_config g = Ok (rows, g') /\
    (rows = [] \/
     exists m, In m ["ACH"; "Card"; "Wire"; "Check"]%string /\
               rows = [mkPayment (Invoices.invoice_id inv)
                                 (Z.min (invoice_date (invoice inv) + 30) (normalize now))
                                 (Real (round2 (Invoices.amount (invoice inv)))) m]).
Proof.
  unfold _emit_payments_for_positive_invoice. cbv zeta.
  destruct (random_total g) as (r & g1 & Er). rewrite (bind_ok _ _ _ _ _ Er).
  change (pct_fully_paid default_config) with 0.85%Q.
  change (pct_partial_paid default_config) with 0.00%Q.
  destruct (Qlt_bool r 0.85) eqn:E1.
  - unfold bind at 1. unfold ret at 1. cbn [payment_rows round2f].
    change (lag_min_days default_config) with 30%Z.
    change (lag_max_days default_config) with 30%Z.
    destruct (integers_total 30 (30 + 1) g1 ltac:(lia)) as (lag & g2 & El).
    pose proof (integers_inv _ _ _ _ _ El) as Hl. assert (lag = 30%Z) as -> by lia.
    rewrite (bind_ok _ _ _ _ _ El). cbv zeta.
    destruct (method_total g2) as (m & g3 & Em & Hm).
    rewrite (bind_ok _ _ _ _ _ Em).
    unfold bind, ret. eexists _, g3. split; [reflexivity|].
    right. exists m. split; [exact Hm|reflexivity].
  - assert (E2 : Qlt_bool r (0.85 + 0.00) = false).
    { apply Qlt_bool_false. apply Qlt_bool_false in E1. lra. }
    rewrite E2. unfold bind at 1. unfold ret at 1. cbn [payment_rows]. unfold ret.
    eexists [], g1. split; [reflexivity|]. left. reflexivity.
Qed.

(** Under [PaymentsConfig()] a credit memo leads to no payment. *)
Lemma negative_invoice_default (now : Z) (inv : InvoiceRow) (g : Generator) :
  exists g', _emit_payments_for_negative_invoice now inv default_config g = Ok ([], g').
Proof.
  unfold _emit_payments_for_negative_invoice. cbv zeta.
  destruct (random_total g) as (r & g1 & Er). rewrite (bind_ok _ _ _ _ _ Er).
  apply random_inv in Er.
  change (pct_cash_refund_for_credit_memos default_config) with 0.00%Q.
  assert (E : Qlt_bool r 0.00 = false) by (apply Qlt_bool_false; lra).
  rewrite E. exists g1. reflexivity.
Qed.

Lemma for_each_nothing {A B} (f : A -> M (list B)) (rows : list A) :
  (forall r g, exists g', f r g = Ok ([], g')) ->
  forall g, exists g', for_each f rows g = Ok ([], g').
Proof.
  intros Hf. induction rows as [|r rest IH]; intros g; cbn [for_each].
  - exists g. reflexivity.
  - destruct (Hf r g) as (g1 & E1). rewrite (bind_ok _ _ _ _ _ E1).
    destruct (IH g1) as (g2 & E2). rewrite (bind_ok _ _ _ _ _ E2).
    exists g2. reflexivity.
Qed.

(** The rows of the stage under [PaymentsConfig()]: one chunk for each
    positive invoice, empty or a single full payment. *)
Lemma generate_default (now : Z) (invoices : list InvoiceRow) (g : Generator) :
  exists outs g',
    generate default_config now invoices g = Ok (concat outs, g') /\
    Forall2 (fun inv o =>
               (o = [] \/
                exists m, In m ["ACH"; "Card"; "Wire"; "Check"]%string /\
                          o = [mkPayment (Invoices.invoice_id inv)
                                         (Z.min (invoice_date (invoice inv) + 30)
                                                (normalize now))
                                         (Real (round2 (Invoices.amount (invoice inv))))
                                         m]) /\
               Forall (fun p => invoice_id p = Invoices.invoice_id inv) o)
            (filter (fun i => Qlt_bool 0 (Invoices.amount (invoice i))) invoices) outs.
Proof.
  unfold generate. cbv zeta.
  set (pos := filter (fun i => Qlt_bool 0 (Invoices.amount (invoice i))) invoices).
  set (neg := filter (fun i => Qlt_bool (Invoices.amount (invoice i)) 0) invoices).
  set (f := fun inv => _emit_payments_for_positive_invoice now inv default_config).
  destruct (for_each_total f pos
              (fun r g0 _ => let '(ex_intro _ rows (ex_intro _ g' (conj E _))) :=
                               positive_invoice_default now r g0 in
                             ex_intro _ rows (ex_intro _ g' E)) g) as (all & g1 & Eall).
  destruct (for_each_parts f pos g all g1 Eall) as (outs & -> & Hparts).
  rewrite (bind_ok _ _ _ _ _ Eall).
  destruct (for_each_nothing
              (fun inv => _emit_payments_for_negative_invoice now inv default_config) neg
              (negative_invoice_default now) g1) as (g2 & Eneg).
  rewrite (bind_ok _ _ _ _ _ Eneg). rewrite app_nil_r.
  exists outs, g2. split; [reflexivity|].
  eapply Forall2_impl; [|exact Hparts]. cbv beta.
  intros inv o (ga & gb & Hrun).
  destruct (positive_invoice_default now inv ga) as (rows & gc & Hrun' & Hshape).
  unfold f in Hrun. rewrite Hrun' in Hrun.
  assert (rows = o) as <-.
  { apply (f_equal (fun r => match r with Ok (l, _) => l | Raise _ => [] end)) in Hrun.
    exact Hrun. }
  split; [exact Hshape|].
  destruct Hshape as [->|(m & _ & ->)]; [constructor|].
  constructor; [reflexivity|constructor].
Qed.

Lemma payment_ids_in_order (payments : list Payment) :
  map payment_id (with_ids payments) = make_ids "P" 6 1 (length payments).
Proof.
  unfold with_ids. rewrite map_map. cbn [payment_id].
  change (fun x : string * Payment => fst x) with (@fst string Payment).
  apply map_fst_combine, make_ids_length.
Qed.

Lemma with_ids_payments (payments : list Payment) :
  map payment (with_ids payments) = payments.
Proof.
  unfold with_ids. rewrite map_map. cbn [payment].
  change (fun x : string * Payment => snd x) with (@snd string Payment).
  apply map_snd_combine, make_ids_length.
Qed.

(** X17. Under [PaymentsConfig()], for an invoices sheet that is not
    empty and whose invoice identifiers are pairwise different, [main]
    never fails one of its acceptance checks. Either no payment is drawn
    at all and it stops with [KeyError('invoice_id')] from sorting a frame
    without columns, or it returns a table: numbered P000001, P000002, ...
    in row order, with at most one payment for an invoice, each payment
    against an invoice of the sheet with a positive amount, for that
    amount rounded to the cent, dated 30 days after issue or today if
    that is earlier, by one of the four methods. *)
Theorem payment_sheet_checks_pass (bg : BitGenerator) (now : Z)
        (invoices : list InvoiceRow) :
  invoices <> [] ->
  NoDup (map Invoices.invoice_id invoices) ->
  main bg now invoices = Raise (KeyError "invoice_id") \/
  exists table,
    main bg now invoices = Ok table /\
    table <> [] /\
    map payment_id table = make_ids "P" 6 1 (length table) /\
    NoDup (map (fun row => invoice_id (payment row)) table) /\
    Forall (fun row =>
              exists inv m,
                In inv invoices /\ (0 < Invoices.amount (invoice inv))%Q /\
                In m ["ACH"; "Card"; "Wire"; "Check"]%string /\
                payment row
                = mkPayment (Invoices.invoice_id inv)
                            (Z.min (invoice_date (invoice inv) + 30) (normalize now))
                            (Real (round2 (Invoices.amount (invoice inv)))) m) table.
Proof.
  intros Hne Hnd.
  destruct invoices as [|i0 more]; [contradiction|]. set (invoices := i0 :: more) in *.
  set (g := default_rng bg (random_seed default_config)).
  destruct (generate_default now invoices g) as (outs & g1 & Eg & Hparts).
  set (pos := filter (fun i => Qlt_bool 0 (Invoices.amount (invoice i))) invoices) in *.
  assert (Hpos : forall inv, In inv pos ->
                             In inv invoices /\ (0 < Invoices.amount (invoice inv))%Q).
  { intros inv Hin. apply filter_In in Hin as [Hin Hp]. split; [exact Hin|].
    apply Qlt_bool_iff. exact Hp. }
  assert (Hndp : NoDup (map Invoices.invoice_id pos)) by (apply NoDup_map_filter; exact Hnd).
  set (all := concat outs) in *.
  assert (Hrow : forall p, In p all ->
            exists inv m,
              In inv invoices /\ (0 < Invoices.amount (invoice inv))%Q /\
              In m ["ACH"; "Card"; "Wire"; "Check"]%string /\
              p = mkPayment (Invoices.invoice_id inv)
                            (Z.min (invoice_date (invoice inv) + 30) (normalize now))
                            (Real (round2 (Invoices.amount (invoice inv)))) m).
  { intros p Hp.
    destruct (chunk_keys Invoices.invoice_id invoice_id _ pos outs Hparts p Hp)
      as (inv & o & Hin & Hshape & Hpo & _).
    destruct (Hpos inv Hin) as [Hi Ha].
    destruct Hshape as [->|(m & Hm & ->)]; [destruct Hpo|].
    destruct Hpo as [<-|[]]. exists inv, m. auto. }
  unfold main. cbv zeta. fold invoices. unfold invoices at 1. fold g.
  rewrite (bind_ok _ _ _ _ _ Eg).
  destruct all as [|p0 rest] eqn:Eall; [left; reflexivity|right].
  assert (Hp0 : In p0 (p0 :: rest)) by (left; reflexivity).
  rewrite <- Eall in *. clear Eall.
  set (payments := sort_values payment_leb all).
  assert (Hsorted : forall p, In p payments -> In p all)
    by (intros p Hp; apply sort_values_In in Hp; exact Hp).
  assert (U : is_unique (map payment_id (with_ids payments)) = true)
    by (rewrite payment_ids_in_order; apply is_unique_NoDup, make_ids_NoDup; lia).
  assert (F : forallb (fun p => mem_string (invoice_id p)
                                           (map Invoices.invoice_id invoices))
                      payments = true).
  { apply forallb_forall. intros p Hp. apply mem_string_In.
    destruct (Hrow p (Hsorted p Hp)) as (inv & m & Hin & _ & _ & ->).
    cbn [invoice_id]. apply in_map. exact Hin. }
  assert (T : (list_max (payment_date p0) (map payment_date payments) <=? normalize now)
              = true).
  { apply Z.leb_le.
    assert (Hd : forall p, In p all -> payment_date p <= normalize now).
    { intros p Hp. destruct (Hrow p Hp) as (inv & m & _ & _ & _ & ->).
      cbn [payment_date]. lia. }
    apply list_max_le.
    - apply Hd. exact Hp0.
    - apply Forall_forall. intros d Hdin. apply in_map_iff in Hdin as (p & <- & Hp).
      apply Hd, Hsorted, Hp. }
  assert (O : no_overpays invoices payments = true).
  { unfold no_overpays. apply forallb_forall. intros inv Hinv. cbv zeta.
    destruct (Qlt_bool 0 (Invoices.amount (invoice inv))) eqn:Ea;
      [|cbn [andb negb]; apply orb_true_r].
    apply Qlt_bool_iff in Ea.
    assert (Hsum : (paid_sum (Invoices.invoice_id inv) payments
                    <= Invoices.amount (invoice inv) + 0.01)%Q).
    { unfold paid_sum, payments_of.
      assert (Hperm : Permutation
                        (filter (fun p => String.eqb (invoice_id p)
                                                     (Invoices.invoice_id inv)) all)
                        (filter (fun p => String.eqb (invoice_id p)
                                                     (Invoices.invoice_id inv)) payments))
        by (apply filter_perm; symmetry; apply sort_values_perm).
      destruct (filter_chunks Invoices.invoice_id invoice_id _ pos outs
                              (Invoices.invoice_id inv) Hparts Hndp)
        as [Z|(r & o & Hr & Hshape & Z)]; fold all in Z; rewrite Z in Hperm.
      - apply Permutation_nil in Hperm. rewrite Hperm.
        unfold Qsum. cbn [map reals fold_left]. lra.
      - destruct Hshape as [->|(m & _ & ->)].
        + apply Permutation_nil in Hperm. rewrite Hperm.
          unfold Qsum. cbn [map reals fold_left]. lra.
        + apply Permutation_length_1_inv in Hperm.
          assert (Ek : Invoices.invoice_id r = Invoices.invoice_id inv).
          { assert (Hin : In (mkPayment (Invoices.invoice_id r)
                                 (Z.min (invoice_date (invoice r) + 30) (normalize now))
                                 (Real (round2 (Invoices.amount (invoice r)))) m)
                             (filter (fun p => String.eqb (invoice_id p)
                                                          (Invoices.invoice_id inv)) all))
              by (rewrite Z; left; reflexivity).
            apply filter_In in Hin as [_ Hin]. cbn [invoice_id] in Hin.
            apply String.eqb_eq. exact Hin. }
          assert (r = inv) as ->
              by (apply (key_inj Invoices.invoice_id invoices);
                  [exact Hnd|exact (proj1 (Hpos r Hr))|exact Hinv|exact Ek]).
          rewrite Hperm. cbn [map amount reals].
          rewrite Qsum_cons. unfold Qsum. cbn [fold_left].
          pose proof (round2_near (Invoices.amount (invoice inv))). lra. }
    apply Qlt_bool_false in Hsum. rewrite Hsum. cbn [andb negb]. apply orb_true_r. }
  exists (with_ids payments).
  split; [|split; [|split; [|split]]].
  - rewrite (bind_ok _ _ _ _ _ (lift_assert_ok _ _ g1 U)).
    rewrite (bind_ok _ _ _ _ _ (lift_assert_ok _ _ g1 F)).
    rewrite (bind_ok _ _ _ _ _ (lift_assert_ok _ _ g1 T)).
    rewrite (bind_ok _ _ _ _ _ (lift_assert_ok _ _ g1 O)).
    reflexivity.
  - intros C. apply (f_equal (map payment)) in C. rewrite with_ids_payments in C.
    assert (In p0 payments) as Hin by (apply sort_values_In; exact Hp0).
    rewrite C in Hin. destruct Hin.
  - rewrite payment_ids_in_order, <- (length_map payment (with_ids payments)), with_ids_payments.
    reflexivity.
  - rewrite <- (map_map payment invoice_id), with_ids_payments.
    apply (Permutation_NoDup (l := map invoice_id all)).
    + apply Permutation_map. symmetry. apply sort_values_perm.
    + apply (chunk_keys_NoDup Invoices.invoice_id invoice_id
               (fun inv o => o = [] \/
                  exists m, In m ["ACH"; "Card"; "Wire"; "Check"]%string /\
                            o = [mkPayment (Invoices.invoice_id inv)
                                           (Z.min (invoice_date (invoice inv) + 30)
                                                  (normalize now))
                                           (Real (round2 (Invoices.amount (invoice inv)))) m])
               pos outs); [|exact Hndp].
      eapply Forall2_impl; [|exact Hparts]. cbv beta.
      intros inv o [Hshape Hk]. split; [split; [exact Hshape|]|exact Hk].
      destruct Hshape as [->|(m & _ & ->)]; cbn [length]; lia.
  - apply Forall_forall. intros row Hrowin.
    assert (In (payment row) payments) as Hp
        by (rewrite <- (with_ids_payments payments); apply in_map; exact Hrowin).
    destruct (Hrow _ (Hsorted _ Hp)) as (inv & m & A & B & C & D).
    exists inv, m. auto.
Qed.

Lemma payment_sheet_checks_pass_witness :
  main Samples.all_zero Samples.now_2024_06_05 [Samples.i000001]
  = Raise (KeyError "invoice_id") \/
  exists table,
    main Samples.all_zero Samples.now_2024_06_05 [Samples.i000001] = Ok table /\
    table <> [].
Proof.
  destruct (payment_sheet_checks_pass Samples.all_zero Samples.now_2024_06_05
              [Samples.i000001]) as [E|(table & E & N & _)].
  - discriminate.
  - constructor; [intros []|constructor].
  - left. exact E.
  - right. exists table. split; [exact E|exact N].
Defined.

(** X18. Under [PaymentsConfig()] credit memos never lead to a cash
    movement: a sheet that holds no invoice of positive amount gives no
    payment row at all, whatever the random words, and [main] stops with
    [KeyError('invoice_id')] instead of writing an empty sheet. *)
Theorem no_positive_invoice_fails (bg : BitGenerator) (now : Z)
        (invoices : list InvoiceRow) :
  invoices <> [] ->
  Forall (fun i => (Invoices.amount (invoice i) <= 0)%Q) invoices ->
  (exists g', generate default_config now invoices
                       (default_rng bg (random_seed default_config)) = Ok ([], g')) /\
  main bg now invoices = Raise (KeyError "invoice_id").
Proof.
  intros Hne Hall.
  set (g := default_rng bg (random_seed default_config)).
  destruct (generate_default now invoices g) as (outs & g1 & Eg & Hparts).
  assert (Hpos : filter (fun i => Qlt_bool 0 (Invoices.amount (invoice i))) invoices = []).
  { apply filter_none. eapply Forall_impl; [|exact Hall]. cbv beta. intros i Hi.
    apply Qlt_bool_false. exact Hi. }
  rewrite Hpos in Hparts. inversion Hparts as [E1 E2|]. subst outs. cbn [concat] in Eg.
  split; [exists g1; exact Eg|].
  destruct invoices as [|i0 more]; [contradiction|].
  unfold main. cbv zeta. fold g. rewrite (bind_ok _ _ _ _ _ Eg). reflexivity.
Qed.

Lemma no_positive_invoice_fails_witness :
  main Samples.all_zero Samples.now_2024_06_05
       [mkInvoiceRow "I000002"
          (mkInvoice "C0001" (ymd2ord 2024 5 25) (- 2.50) true
                     (ymd2ord 2024 5 25) (ymd2ord 2024 5 31))]
  = Raise (KeyError "invoice_id").
Proof.
  apply (no_positive_invoice_fails Samples.all_zero Samples.now_2024_06_05
           [mkInvoiceRow "I000002"
              (mkInvoice "C0001" (ymd2ord 2024 5 25) (- 2.50) true
                         (ymd2ord 2024 5 25) (ymd2ord 2024 5 31))]).
  - discriminate.
  - constructor; [now compute|constructor].
Defined.

End PaymentsMore.

(** ** The loader's naming helpers *)

Module SupabaseMore.
Import Table Supabase.
Import TableFacts TableMore.
Local Open Scope string_scope.

Lemma starts_lower_append (s t : string) :
  starts_lower s = true -> starts_lower (s ++ t) = true.
Proof. destruct s as [|c s']; [discriminate|]. intros H. exact H. Qed.

Lemma str_inj (i j : Z) : 0 <= i -> 0 <= j -> str i = str j -> i = j.
Proof. intros Hi Hj E. apply (zfill_str_inj 0 i j Hi Hj). exact E. Qed.

Lemma append_longer (p t : string) : p = p ++ t -> t = "".
Proof.
  induction p as [|c p IH]; cbn [String.append]; intros E; [now symmetry|].
  apply IH. injection E as E. exact E.
Qed.

Lemma candidate_inj (base : string) (j k : nat) :
  candidate base j = candidate base k -> j = k.
Proof.
  destruct j as [|j], k as [|k]; intros E; unfold candidate in E.
  - reflexivity.
  - apply append_longer in E. discriminate E.
  - symmetry in E. apply append_longer in E. discriminate E.
  - apply append_cancel, append_cancel, str_inj in E; lia.
Qed.

Lemma candidate_nonempty (base : string) (k : nat) : base <> "" -> candidate base k <> "".
Proof. intros B. destruct k; [exact B|]. unfold candidate. destruct base; [congruence|discriminate]. Qed.

(** The names tried before turn [k] are pairwise distinct, so at most
    [length seen] of them are taken. *)
Lemma tried_bound (seen : list string) (base : string) (k : nat) :
  (forall j, (j < k)%nat -> In (candidate base j) seen) -> (k <= length seen)%nat.
Proof.
  intros H.
  assert (L : (length (map (candidate base) (seq 0 k)) <= length seen)%nat).
  { apply NoDup_incl_length.
    - generalize (seq_NoDup k 0). generalize (seq 0 k) as l.
      induction l as [|a l IHl]; cbn [map]; intros Hl; [constructor|].
      inversion Hl as [|? ? Ha Hr]; subst. constructor; [|apply IHl; exact Hr].
      intros C. apply in_map_iff in C. destruct C as (b & Eb & Hb).
      apply candidate_inj in Eb. subst b. contradiction.
    - intros x Hx. apply in_map_iff in Hx. destruct Hx as (j & <- & Hj).
      apply in_seq in Hj. apply H. lia. }
  rewrite length_map, length_seq in L. exact L.
Qed.

(** The [while] loop ends within [length seen + 1] turns, on a name that
    is not taken. *)
Lemma free_name_spec (seen : list string) (base : string) (fuel k : nat) :
  (forall j, (j < k)%nat -> In (candidate base j) seen) ->
  (length seen + 1 <= fuel + k)%nat ->
  exists m, free_name fuel seen base (Z.of_nat k + 1) (candidate base k)
            = Some (candidate base m)
            /\ ~ In (candidate base m) seen.
Proof.
  revert k. induction fuel as [|fuel IH]; intros k T B.
  - apply tried_bound in T. lia.
  - cbn [free_name]. destruct (mem_string (candidate base k) seen) eqn:M.
    + cbv zeta. specialize (IH (S k)).
      replace (Z.of_nat (S k) + 1) with (Z.of_nat k + 1 + 1) in IH by lia.
      assert (C : candidate base (S k) = base ++ "_" ++ str (Z.of_nat k + 1 + 1)).
      { unfold candidate. do 3 f_equal. lia. }
      rewrite <- C. apply IH; [|lia].
      intros j Hj. destruct (Nat.eq_dec j k) as [->|N].
      * apply mem_string_In. exact M.
      * apply T. lia.
    + exists k. split; [reflexivity|]. intros C. apply mem_string_In in C. congruence.
Qed.

Lemma columns_loop_spec (slugify : string -> string) (fuel : nat)
      (columns : list string) (i : Z) (seen new_cols : list string) :
  (length new_cols + length columns <= fuel)%nat ->
  (forall x, In x seen <-> In x new_cols) ->
  length seen = length new_cols ->
  NoDup new_cols ->
  Forall (fun c => c <> "") new_cols ->
  exists out, columns_loop slugify fuel i columns seen new_cols = Some out
              /\ length out = (length new_cols + length columns)%nat
              /\ NoDup out
              /\ Forall (fun c => c <> "") out.
Proof.
  revert i seen new_cols.
  induction columns as [|c rest IH]; intros i seen new_cols F S L N E.
  - exists new_cols. cbn [columns_loop length]. repeat split; [lia|exact N|exact E].
  - cbn [columns_loop]. cbv zeta.
    set (base := match slugify c with "" => "col_" ++ str (i + 1) | String _ _ => slugify c end).
    assert (Hb : base <> "").
    { unfold base. destruct (slugify c); discriminate. }
    destruct (free_name_spec seen base fuel 0) as (m & Hm & Hfree).
    { intros j Hj. lia. }
    { cbn [length] in F. lia. }
    change (Z.of_nat 0 + 1) with 1 in Hm. change (candidate base 0) with base in Hm.
    replace (match slugify c with "" => "col_" ++ str (i + 1) | String a s => String a s end)
      with base by (unfold base; destruct (slugify c); reflexivity).
    rewrite Hm.
    destruct (IH (i + 1) (candidate base m :: seen) (new_cols ++ [candidate base m])%list)
      as (out & Ho & Hl & Hn & He).
    + rewrite length_app. cbn [length] in *. lia.
    + intros x. cbn [In]. rewrite in_app_iff, S. cbn [In]. tauto.
    + rewrite length_app. cbn [length]. lia.
    + apply NoDup_app; [exact N|repeat constructor; intros []|].
      intros x Hx [<-|[]]. apply Hfree. apply S. exact Hx.
    + apply Forall_app. split; [exact E|].
      constructor; [apply candidate_nonempty; exact Hb|constructor].
    + exists out. split; [exact Ho|]. split; [|split; [exact Hn|exact He]].
      rewrite Hl, length_app. cbn [length]. lia.
Qed.

(** X23. Whatever [slugify] returns, the table name given to a sheet
    starts with a lowercase letter a-z and is none of the reserved words
    user, order, select, table, group, where; a slug that already starts
    with a lowercase letter and is not reserved is kept as it is. *)
Theorem table_names_are_safe (slugify : string -> string) (name : string) :
  starts_lower (sanitize_table_name slugify name) = true /\
  ~ In (sanitize_table_name slugify name) reserved /\
  (starts_lower (slugify name) = true -> ~ In (slugify name) reserved ->
   sanitize_table_name slugify name = slugify name).
Proof.
  unfold sanitize_table_name. cbv zeta.
  set (s1 := if negb (starts_lower (slugify name))
             then match slugify name with "" => "t_sheet" | String _ _ => "t_" ++ slugify name end
             else slugify name).
  assert (H1 : starts_lower s1 = true).
  { unfold s1. destruct (starts_lower (slugify name)) eqn:E; cbn [negb]; [exact E|].
    destruct (slugify name); reflexivity. }
  destruct (mem_string s1 reserved) eqn:M.
  - split; [apply starts_lower_append; exact H1|]. split.
    + apply mem_string_In in M. unfold reserved in M.
      destruct M as [<-|[<-|[<-|[<-|[<-|[<-|[]]]]]]];
        intros C; apply mem_string_In in C; vm_compute in C; discriminate C.
    + intros L N. exfalso. apply N. apply mem_string_In.
      unfold s1 in M. rewrite L in M. exact M.
  - split; [exact H1|]. split.
    + intros C. apply mem_string_In in C. congruence.
    + intros L _. unfold s1. rewrite L. reflexivity.
Qed.

(** X24. Whatever [slugify] returns, renaming the columns of a frame
    ends (each [while] loop within as many turns as there are columns)
    and gives as many names as there were columns, pairwise distinct and
    none of them empty. *)
Theorem column_names_distinct (slugify : string -> string) (fuel : nat)
        (columns : list string) :
  (length columns <= fuel)%nat ->
  exists new_cols,
    snake_case_columns slugify fuel columns = Some new_cols
    /\ length new_cols = length columns
    /\ NoDup new_cols
    /\ Forall (fun c => c <> "") new_cols.
Proof.
  intros F. unfold snake_case_columns.
  destruct (columns_loop_spec slugify fuel columns 0 [] []) as (out & Ho & Hl & Hn & He).
  - exact F.
  - intros x. tauto.
  - reflexivity.
  - constructor.
  - constructor.
  - exists out. repeat split; assumption.
Qed.

Lemma column_names_distinct_witness :
  (length ["a"; "a"; ""; "a_2"] <= 4)%nat /\
  snake_case_columns (fun s => s) 4 ["a"; "a"; ""; "a_2"]
    = Some ["a"; "a_2"; "col_3"; "a_2_2"] /\
  exists new_cols,
    snake_case_columns (fun s => s) 4 ["a"; "a"; ""; "a_2"] = Some new_cols
    /\ length new_cols = length ["a"; "a"; ""; "a_2"]
    /\ NoDup new_cols
    /\ Forall (fun c => c <> "") new_cols.
Proof.
  split; [cbn; lia|]. split; [vm_compute; reflexivity|].
  apply (column_names_distinct (fun s => s) 4 ["a"; "a"; ""; "a_2"]). cbn. lia.
Defined.

End SupabaseMore.
